(** * A shallow embedding of the CBOR decoder (src/decoder.c)

    The decoder works on two caller-supplied byte arrays (the message and
    the output buffer) through a [struct decode_context] that every handler
    mutates through a pointer.  The embedding threads that context through
    a small state monad whose results distinguish a normal return from an
    access outside one of the arrays (undefined behaviour in C) and from an
    exhausted recursion budget of the model.

    Integer widths: [uint8_t] is 8 bits, [size_t], [unsigned long] and
    [uint64_t] are 64 bits (an LP64 target); every wrap-around is written
    out with [u8] and [usize]. *)

From Stdlib Require Import ZArith List Bool Lia.
From Stdlib Require Import Strings.Byte.
From stdpp Require Import base list.
Import ListNotations.
Open Scope Z_scope.

(** ** Machine integers and bytes *)

Definition u8 (z : Z) : Z := z mod 256.
Definition usize (z : Z) : Z := z mod 2 ^ 64.
Definition u64 (z : Z) : Z := z mod 2 ^ 64.

Definition byte_to_Z (b : byte) : Z := Z.of_N (Byte.to_N b).

Definition Z_to_byte (z : Z) : byte :=
  match Byte.of_N (Z.to_N (z mod 256)) with
  | Some b => b
  | None => x00
  end.

(** ** Results of running C code *)

Inductive result (A : Type) : Type :=
| Ok (a : A)
| Fault       (* a read or write outside an array *)
| OutOfFuel.  (* the model's recursion budget ran out *)

Arguments Ok {A} a.
Arguments Fault {A}.
Arguments OutOfFuel {A}.

Definition rbind {A B : Type} (r : result A) (k : A -> result B) : result B :=
  match r with
  | Ok a => k a
  | Fault => Fault
  | OutOfFuel => OutOfFuel
  end.

(** [m[i]] and [m[i] = b] on an array of [length m] bytes. *)
Definition byte_at (m : list byte) (i : Z) : option byte :=
  if i <? 0 then None else m !! Z.to_nat i.

Definition load (m : list byte) (i : Z) : result byte :=
  match byte_at m i with
  | Some b => Ok b
  | None => Fault
  end.

Definition store (m : list byte) (i : Z) (b : byte) : result (list byte) :=
  if (0 <=? i) && (i <? Z.of_nat (length m))
  then Ok (<[Z.to_nat i := b]> m)
  else Fault.

(** ** Build-time constants

    [cbor/cbor.h] fixes [CBOR_RECURSION_MAX_LEVEL] and the build decides
    whether [CBOR_BIG_ENDIAN] is defined; the byte order of the host decides
    what the casts [(uint8_t * )&val] see. *)

Record platform : Type := {
  CBOR_RECURSION_MAX_LEVEL : Z;
  CBOR_BIG_ENDIAN : bool;
  host_big_endian : bool
}.

(** The build the source falls back to: [CBOR_BIG_ENDIAN] undefined, on a
    little-endian host. *)
Definition little_endian_build (max_level : Z) : platform :=
  {| CBOR_RECURSION_MAX_LEVEL := max_level;
     CBOR_BIG_ENDIAN := false;
     host_big_endian := false |}.

(** Modelled from the spec: the result codes of [cbor_error_t], declared in
    cbor/cbor.h.  The spec calls them Success, Malformed ([CBOR_ILLEGAL]),
    Unsupported ([CBOR_INVALID]), Overrun, OutputExhausted
    ([CBOR_UNDERRUN]), Break and Excessive. *)
Inductive cbor_error_t : Type :=
| CBOR_SUCCESS
| CBOR_ILLEGAL
| CBOR_INVALID
| CBOR_OVERRUN
| CBOR_UNDERRUN
| CBOR_BREAK
| CBOR_EXCESSIVE.

Definition cbor_error_eqb (a b : cbor_error_t) : bool :=
  match a, b with
  | CBOR_SUCCESS, CBOR_SUCCESS
  | CBOR_ILLEGAL, CBOR_ILLEGAL
  | CBOR_INVALID, CBOR_INVALID
  | CBOR_OVERRUN, CBOR_OVERRUN
  | CBOR_UNDERRUN, CBOR_UNDERRUN
  | CBOR_BREAK, CBOR_BREAK
  | CBOR_EXCESSIVE, CBOR_EXCESSIVE => true
  | _, _ => false
  end.

(** ** The decode context *)

Definition INDEFINITE_VALUE : Z := u8 (-1).
Definition RESERVED_VALUE : Z := u8 (-2).
Definition ADDITIONAL_INFO_MASK : Z := 0x1f.

Definition get_major_type (data_item : byte) : Z :=
  Z.shiftr (byte_to_Z data_item) 5.

Definition get_additional_info (data_item : byte) : Z :=
  Z.land (byte_to_Z data_item) ADDITIONAL_INFO_MASK.

Definition MIN (a b : Z) : Z := if a >? b then b else a.

Record decode_context : Type := {
  buf : list byte;
  bufsize : Z;
  bufidx : Z;
  msg : list byte;
  msgsize : Z;
  msgidx : Z;
  major_type : Z;
  additional_info : Z;
  following_bytes : Z;
  recursion_depth : Z
}.

Definition set_buf (v : list byte) (c : decode_context) : decode_context :=
  {| buf := v; bufsize := bufsize c; bufidx := bufidx c;
     msg := msg c; msgsize := msgsize c; msgidx := msgidx c;
     major_type := major_type c; additional_info := additional_info c;
     following_bytes := following_bytes c;
     recursion_depth := recursion_depth c |}.

Definition set_bufidx (v : Z) (c : decode_context) : decode_context :=
  {| buf := buf c; bufsize := bufsize c; bufidx := v;
     msg := msg c; msgsize := msgsize c; msgidx := msgidx c;
     major_type := major_type c; additional_info := additional_info c;
     following_bytes := following_bytes c;
     recursion_depth := recursion_depth c |}.

Definition set_msgidx (v : Z) (c : decode_context) : decode_context :=
  {| buf := buf c; bufsize := bufsize c; bufidx := bufidx c;
     msg := msg c; msgsize := msgsize c; msgidx := v;
     major_type := major_type c; additional_info := additional_info c;
     following_bytes := following_bytes c;
     recursion_depth := recursion_depth c |}.

Definition set_header (mt ai fb : Z) (c : decode_context) : decode_context :=
  {| buf := buf c; bufsize := bufsize c; bufidx := bufidx c;
     msg := msg c; msgsize := msgsize c; msgidx := msgidx c;
     major_type := mt; additional_info := ai; following_bytes := fb;
     recursion_depth := recursion_depth c |}.

Definition set_additional_info (v : Z) (c : decode_context) : decode_context :=
  set_header (major_type c) v (following_bytes c) c.

Definition set_following_bytes (v : Z) (c : decode_context) : decode_context :=
  set_header (major_type c) (additional_info c) v c.

Definition set_recursion_depth (v : Z) (c : decode_context) : decode_context :=
  {| buf := buf c; bufsize := bufsize c; bufidx := bufidx c;
     msg := msg c; msgsize := msgsize c; msgidx := msgidx c;
     major_type := major_type c; additional_info := additional_info c;
     following_bytes := following_bytes c;
     recursion_depth := v |}.

(** ** The state monad of the handlers *)

Definition M (A : Type) : Type := decode_context -> result (A * decode_context).

Definition ret {A : Type} (a : A) : M A := fun c => Ok (a, c).

Definition bind {A B : Type} (m : M A) (k : A -> M B) : M B :=
  fun c => match m c with
           | Ok (a, c') => k a c'
           | Fault => Fault
           | OutOfFuel => OutOfFuel
           end.

Definition get : M decode_context := fun c => Ok (c, c).
Definition modify (f : decode_context -> decode_context) : M unit :=
  fun c => Ok (tt, f c).
Definition lift {A : Type} (r : result A) : M A :=
  fun c => rbind r (fun a => Ok (a, c)).

Declare Scope cmd_scope.
Delimit Scope cmd_scope with cmd.
Notation "'do' x <- m ; k" := (bind m (fun x => k))
  (at level 10, x name, m at level 100, k at level 200) : cmd_scope.
Notation "'do2' ( x , y ) <- m ; k" :=
  (bind m (fun p => let '(x, y) := p in k))
  (at level 10, x name, y name, m at level 100, k at level 200) : cmd_scope.
Notation "'run' m ; k" := (bind m (fun _ => k))
  (at level 10, m at level 100, k at level 200) : cmd_scope.
Open Scope cmd_scope.

(** [ctx->msg[i]], [ctx->buf[i]] and [ctx->buf[i] = b]. *)
Definition read_msg (i : Z) : M byte :=
  do c <- get; lift (load (msg c) i).

Definition read_buf (i : Z) : M byte :=
  do c <- get; lift (load (buf c) i).

Definition write_buf (i : Z) (b : byte) : M unit :=
  do c <- get; do m <- lift (store (buf c) i b); modify (set_buf m).

(** ** Copy loops

    [dst] and [src] are arrays with the offsets the C pointers carry.  The
    two never overlap in this file, so the source is read as a whole. *)

Fixpoint copy_le_loop (n : nat) (i len : Z)
    (dst : list byte) (d : Z) (src : list byte) (s : Z) : result (list byte) :=
  match n with
  | O => Ok dst
  | S n' =>
      rbind (load src (s + i)) (fun b =>
      rbind (store dst (d + (len - i - 1)) b) (fun dst' =>
      copy_le_loop n' (i + 1) len dst' d src s))
  end.

Definition copy_data_le (dst : list byte) (d : Z) (src : list byte) (s : Z)
    (len : Z) : result (list byte) :=
  copy_le_loop (Z.to_nat len) 0 len dst d src s.

Fixpoint copy_be_loop (n : nat) (i : Z)
    (dst : list byte) (d : Z) (src : list byte) (s : Z) : result (list byte) :=
  match n with
  | O => Ok dst
  | S n' =>
      rbind (load src (s + i)) (fun b =>
      rbind (store dst (d + i) b) (fun dst' =>
      copy_be_loop n' (i + 1) dst' d src s))
  end.

Definition copy_data_be (dst : list byte) (d : Z) (src : list byte) (s : Z)
    (len : Z) : result (list byte) :=
  copy_be_loop (Z.to_nat len) 0 dst d src s.

(** A [uint64_t] object is eight bytes of memory; [le_value] and [le_bytes]
    read and write it least significant byte first, and the host's byte
    order decides below whether that is the order in memory. *)
Fixpoint le_value (bs : list byte) : Z :=
  match bs with
  | [] => 0
  | b :: r => byte_to_Z b + 256 * le_value r
  end.

Definition le_bytes (v : Z) : list byte :=
  map (fun i => Z_to_byte (Z.shiftr v (8 * i))) [0; 1; 2; 3; 4; 5; 6; 7].

Definition zero_u64 : list byte := [x00; x00; x00; x00; x00; x00; x00; x00].

Section Decoder.

Variable P : platform.

Definition copy_data (dst : list byte) (d : Z) (src : list byte) (s : Z)
    (len : Z) : result (list byte) :=
  if CBOR_BIG_ENDIAN P then copy_data_be dst d src s len
  else copy_data_le dst d src s len.

Definition u64_of_mem (m : list byte) : Z :=
  if host_big_endian P then le_value (rev m) else le_value m.

Definition mem_of_u64 (v : Z) : list byte :=
  if host_big_endian P then rev (le_bytes v) else le_bytes v.

Definition get_following_bytes (additional_info : Z) : Z :=
  if additional_info <? 24 then 0
  else if additional_info =? 31 then INDEFINITE_VALUE
  else if additional_info >=? 28 then RESERVED_VALUE
  else u8 (Z.shiftl 1 (additional_info - 24)).

(** [None] is the C function's [true]; [Some e] is [false] with [*err = e]. *)
Definition has_valid_buffers_for_following_bytes (ctx : decode_context)
    : option cbor_error_t :=
  if following_bytes ctx =? RESERVED_VALUE then Some CBOR_ILLEGAL
  else if following_bytes ctx =? INDEFINITE_VALUE then None
  else if following_bytes ctx + 1 >? usize (msgsize ctx - msgidx ctx)
       then Some CBOR_ILLEGAL
  else if following_bytes ctx >? usize (bufsize ctx - bufidx ctx)
       then Some CBOR_UNDERRUN
  else None.

Definition do_unsigned_integer : M cbor_error_t :=
  do ctx <- get;
  let msg_ := msgidx ctx in
  let buf_ := bufidx ctx in
  if following_bytes ctx =? INDEFINITE_VALUE then ret CBOR_ILLEGAL
  else
    run (if following_bytes ctx =? 0
         then run write_buf buf_ (Z_to_byte (additional_info ctx));
              modify (fun c => set_bufidx (usize (bufidx c + 1)) c)
         else ret tt);
    do c <- get;
    do b <- lift (copy_data (buf c) buf_ (msg c) (msg_ + 1)
                    (following_bytes c));
    run modify (set_buf b);
    run modify (fun c => set_bufidx (usize (bufidx c + following_bytes c)) c);
    run modify (fun c => set_msgidx
                           (usize (msgidx c + (following_bytes c + 1))) c);
    ret CBOR_SUCCESS.

(** The loop of [do_negative_integer] that stores 0xff; [i] is a
    [uint8_t]. *)
Fixpoint fill_ff (n : nat) (i : Z) (b : list byte) (d : Z)
    : result (list byte) :=
  match n with
  | O => Ok b
  | S n' => rbind (store b (d + i) xff) (fun b' => fill_ff n' (u8 (i + 1)) b' d)
  end.

Definition do_negative_integer : M cbor_error_t :=
  do ctx0 <- get;
  let buf_start_index := bufidx ctx0 in
  do err <- do_unsigned_integer;
  if negb (cbor_error_eqb err CBOR_SUCCESS) then ret err
  else
    do ctx <- get;
    let data_size := u8 (usize (bufidx ctx - buf_start_index)) in
    let data_type_size := data_size in
    let msb_bit := u8 (data_size * 8 - 1) in
    do val_mem <- lift (copy_data_be zero_u64 0 (buf ctx) buf_start_index
                          data_size);
    let val := u64_of_mem val_mem in
    run (if (data_type_size <? 8)
            && negb (Z.land val (u64 (Z.shiftl 1 msb_bit)) =? 0)
         then let data_type_size := u8 (Z.shiftl data_type_size 1) in
              modify (fun c => set_bufidx
                        (usize (bufidx c + (data_type_size - data_size))) c)
         else ret tt);
    let val := u64 (Z.lnot val) in
    do c <- get;
    do b <- lift (fill_ff
                    (Z.to_nat (MIN (usize (bufsize c - buf_start_index)) 4))
                    0 (buf c) buf_start_index);
    run modify (set_buf b);
    do c <- get;
    do b <- lift (copy_data_be (buf c) buf_start_index (mem_of_u64 val) 0
                    data_size);
    run modify (set_buf b);
    ret CBOR_SUCCESS.

Definition go_get_item_length : M Z :=
  do ctx <- get;
  let msg_ := msgidx ctx in
  do2 (len, offset) <-
    (if following_bytes ctx =? INDEFINITE_VALUE then ret (0, 0)
     else if following_bytes ctx =? 0 then ret (additional_info ctx, 0)
     else
       do m <- lift (copy_data zero_u64 0 (msg ctx) (msg_ + 1)
                       (following_bytes ctx));
       ret (u64_of_mem m, following_bytes ctx));
  run modify (fun c => set_msgidx (usize (msgidx c + (offset + 1))) c);
  ret (usize len).

(** The copy loop of [do_string]. *)
Fixpoint copy_string_loop (n : nat) (i : Z)
    (dst : list byte) (d : Z) (src : list byte) (s : Z) : result (list byte) :=
  match n with
  | O => Ok dst
  | S n' =>
      rbind (load src (s + i)) (fun b =>
      rbind (store dst (d + i) b) (fun dst' =>
      copy_string_loop n' (i + 1) dst' d src s))
  end.

Definition do_string : M cbor_error_t :=
  do len <- go_get_item_length;
  do ctx <- get;
  let msg_ := msgidx ctx in
  let buf_ := bufidx ctx in
  let maxlen := MIN (usize (bufsize ctx - bufidx ctx))
                    (usize (msgsize ctx - msgidx ctx)) in
  if len >? maxlen then ret CBOR_ILLEGAL
  else
    do b <- lift (copy_string_loop (Z.to_nat len) 0 (buf ctx) buf_
                    (msg ctx) msg_);
    run modify (set_buf b);
    run modify (fun c => set_bufidx (usize (bufidx c + len)) c);
    run modify (fun c => set_msgidx (usize (msgidx c + len)) c);
    ret CBOR_SUCCESS.

Definition do_tag : M cbor_error_t := ret CBOR_INVALID.

Definition get_simple_value (val : Z) : Z :=
  match val with
  | 20 => 0
  | 21 => 1
  | 22 => 0
  | _ => val
  end.

Definition do_float_and_other : M cbor_error_t :=
  do ctx <- get;
  if following_bytes ctx =? INDEFINITE_VALUE
  then run modify (fun c => set_msgidx (usize (msgidx c + 1)) c); ret CBOR_BREAK
  else
    run (if following_bytes ctx =? 1
         then run modify (set_following_bytes 0);
              run modify (fun c => set_msgidx (usize (msgidx c + 1)) c);
              do c <- get;
              do b <- read_msg (msgidx c);
              modify (set_additional_info (byte_to_Z b))
         else ret tt);
    do c <- get;
    match has_valid_buffers_for_following_bytes c with
    | Some err => ret err
    | None =>
        do err <- do_unsigned_integer;
        do c <- get;
        run (if following_bytes c =? 0
             then do b <- read_buf (usize (bufidx c - 1));
                  write_buf (usize (bufidx c - 1))
                            (Z_to_byte (get_simple_value (byte_to_Z b)))
             else ret tt);
        ret err
    end.

(** [decode_cbor] around a given body of its [while] loop; [loop maxitem]
    runs the loop from [item = 0]. *)
Definition decode_cbor_with (loop : Z -> M cbor_error_t) (maxitem : Z)
    : M cbor_error_t :=
  run modify (fun c => set_recursion_depth (u8 (recursion_depth c + 1)) c);
  do c <- get;
  if recursion_depth c >? CBOR_RECURSION_MAX_LEVEL P then ret CBOR_EXCESSIVE
  else
    do err <- loop maxitem;
    run modify (fun c => set_recursion_depth (u8 (recursion_depth c - 1)) c);
    ret err.

Definition do_recursive (loop : Z -> M cbor_error_t) : M cbor_error_t :=
  do len <- go_get_item_length;
  decode_cbor_with loop len.

(** The table [callbacks], indexed by the 3-bit major type. *)
Definition callbacks (loop : Z -> M cbor_error_t) (major_type : Z)
    : M cbor_error_t :=
  match major_type with
  | 0 => do_unsigned_integer
  | 1 => do_negative_integer
  | 2 => do_string
  | 3 => do_string
  | 4 => do_recursive loop
  | 5 => do_recursive loop
  | 6 => do_tag
  | 7 => do_float_and_other
  | _ => lift Fault
  end.

(** The [while] loop of [decode_cbor].  [err] is [CBOR_SUCCESS] whenever the
    loop condition is tested: it is initialised so and reset after each
    counted item.  Every iteration and every nested call spends one unit of
    [fuel]. *)
Fixpoint decode_loop (fuel : nat) (maxitem item : Z) (ctx : decode_context)
    : result (cbor_error_t * decode_context) :=
  match fuel with
  | O => OutOfFuel
  | S fuel' =>
      if (msgidx ctx <? msgsize ctx) && (bufidx ctx <? bufsize ctx) then
        match load (msg ctx) (msgidx ctx) with
        | Ok h =>
            let ctx := set_header (get_major_type h) (get_additional_info h)
                         (get_following_bytes (get_additional_info h)) ctx in
            match has_valid_buffers_for_following_bytes ctx with
            | Some err => Ok (err, ctx)
            | None =>
                match callbacks (fun n => decode_loop fuel' n 0)
                        (major_type ctx) ctx with
                | Ok (err, ctx) =>
                    let next :=
                      let item := usize (item + 1) in
                      if (item >=? maxitem) && (maxitem >? 0)
                      then Ok (CBOR_SUCCESS, ctx)
                      else decode_loop fuel' maxitem item ctx in
                    match err with
                    | CBOR_BREAK =>
                        if msgidx ctx =? msgsize ctx then Ok (CBOR_BREAK, ctx)
                        else next
                    | CBOR_SUCCESS => next
                    | _ => Ok (err, ctx)
                    end
                | Fault => Fault
                | OutOfFuel => OutOfFuel
                end
            end
        | Fault => Fault
        | OutOfFuel => OutOfFuel
        end
      else Ok (CBOR_SUCCESS, ctx)
  end.

Definition decode_cbor (fuel : nat) (maxitem : Z) : M cbor_error_t :=
  decode_cbor_with (fun n => decode_loop fuel n 0) maxitem.

(** The context [cbor_decode] starts from; the fields the initialiser does
    not name are zero. *)
Definition initial_context (buf_ msg_ : list byte) : decode_context :=
  {| buf := buf_; bufsize := Z.of_nat (length buf_); bufidx := 0;
     msg := msg_; msgsize := Z.of_nat (length msg_); msgidx := 0;
     major_type := 0; additional_info := 0; following_bytes := 0;
     recursion_depth := 0 |}.

(** What [cbor_decode] does with the loop's result. *)
Definition finish (err : cbor_error_t) (ctx : decode_context) : cbor_error_t :=
  match err with
  | CBOR_SUCCESS =>
      if msgidx ctx <? msgsize ctx then CBOR_OVERRUN
      else if bufidx ctx <? bufsize ctx then CBOR_UNDERRUN
      else CBOR_SUCCESS
  | _ => err
  end.

(** Every loop iteration that goes on has consumed a byte of the message,
    and so has every nested call: [length msg + 1] units of fuel are
    enough. *)
Definition decode_fuel (msg_ : list byte) : nat := S (length msg_).

(** [cbor_decode], returning the final context next to the result code. *)
Definition cbor_decode_ctx (buf_ msg_ : list byte)
    : result (cbor_error_t * decode_context) :=
  match decode_cbor (decode_fuel msg_) 0 (initial_context buf_ msg_) with
  | Ok (err, ctx) => Ok (finish err ctx, ctx)
  | Fault => Fault
  | OutOfFuel => OutOfFuel
  end.

Definition cbor_decode (buf_ msg_ : list byte) : result cbor_error_t :=
  rbind (cbor_decode_ctx buf_ msg_) (fun r => Ok (fst r)).

End Decoder.

(** * Vocabulary of the statements *)

(** The rule of the spec for the following-bytes descriptor, in its words. *)
Definition spec_following_bytes (additional_info : Z) : Z :=
  if additional_info <? 24 then 0
  else if additional_info =? 31 then INDEFINITE_VALUE
  else if (28 <=? additional_info) && (additional_info <=? 30)
       then RESERVED_VALUE
  else 2 ^ (additional_info - 24).

(** A decode state as the data model describes it: both cursors inside
    their arrays, sizes that fit [size_t], a descriptor that fits
    [uint8_t]. *)
Definition cursors_in_range (ctx : decode_context) : Prop :=
  0 <= msgidx ctx <= msgsize ctx /\ msgsize ctx < 2 ^ 64 /\
  0 <= bufidx ctx <= bufsize ctx /\ bufsize ctx < 2 ^ 64 /\
  0 <= following_bytes ctx < 256.

(** The caller's contract: the two sizes are the sizes of the arrays. *)
Definition arrays_match (ctx : decode_context) : Prop :=
  bufsize ctx = Z.of_nat (length (buf ctx)) /\
  msgsize ctx = Z.of_nat (length (msg ctx)).

(** ** What the scalar decoders leave in the output buffer *)

(** The output buffer after [do_unsigned_integer], byte by byte. *)
Definition unsigned_output (P : platform) (ctx : decode_context) (j : Z)
    : option byte :=
  if following_bytes ctx =? 0
  then if decide (j = bufidx ctx) then Some (Z_to_byte (additional_info ctx))
       else byte_at (buf ctx) j
  else if decide (bufidx ctx <= j < bufidx ctx + following_bytes ctx)
       then byte_at (msg ctx)
              (msgidx ctx + 1
               + (if CBOR_BIG_ENDIAN P then j - bufidx ctx
                  else following_bytes ctx - 1 - (j - bufidx ctx)))
       else byte_at (buf ctx) j.

Definition eight : list Z := [0; 1; 2; 3; 4; 5; 6; 7].

(** [data_size] of [do_negative_integer]: the bytes the unsigned decoder
    has written. *)
Definition negative_data_size (ctx : decode_context) : Z :=
  Z.max 1 (following_bytes ctx).

(** The eight bytes of [val] after the unsigned value is read back. *)
Definition negative_val_mem (P : platform) (ctx : decode_context) : list byte :=
  map (fun j => if j <? negative_data_size ctx
                then default x00 (unsigned_output P ctx (bufidx ctx + j))
                else x00) eight.

Definition negative_val (P : platform) (ctx : decode_context) : Z :=
  u64_of_mem P (negative_val_mem P ctx).

(** The test that guards the promotion. *)
Definition negative_promoted (P : platform) (ctx : decode_context) : bool :=
  (negative_data_size ctx <? 8)
  && negb (Z.land (negative_val P ctx)
             (u64 (Z.shiftl 1 (u8 (negative_data_size ctx * 8 - 1)))) =? 0).

(** The output buffer after [do_negative_integer], byte by byte. *)
Definition negative_output (P : platform) (ctx : decode_context) (j : Z)
    : option byte :=
  if decide (bufidx ctx <= j < bufidx ctx + negative_data_size ctx)
  then byte_at (mem_of_u64 P (u64 (Z.lnot (negative_val P ctx))))
         (j - bufidx ctx)
  else if decide (bufidx ctx <= j
                  < bufidx ctx + MIN (bufsize ctx - bufidx ctx) 4)
       then Some xff
       else byte_at (buf ctx) j.

(** ** Numbers on the wire and in the output *)

(** The number a payload spells, most significant byte first. *)
Definition be_value (bs : list byte) : Z := le_value (rev bs).

(** The number that [k] bytes of [m] from index [i] hold, least significant
    byte first. *)
Fixpoint le_read (m : list byte) (i : Z) (k : nat) : Z :=
  match k with
  | O => 0
  | S k' =>
      match byte_at m i with
      | Some b => byte_to_Z b
      | None => 0
      end + 256 * le_read m (i + 1) k'
  end.

(** The two's-complement representation of [v] in [width] bytes. *)
Definition twos_complement (width v : Z) : Z := v mod 2 ^ (8 * width).

(** The header byte of a negative integer with [fb] following bytes. *)
Definition negative_header (fb : Z) : byte :=
  match fb with
  | 1 => x38
  | 2 => x39
  | 4 => x3a
  | _ => x3b
  end.

(** Promotion as the code decides it: the encoding is narrower than 8 bytes
    and its most significant bit is set. *)
Definition spec_promotes (fb n : Z) : bool :=
  (fb <? 8) && Z.testbit n (8 * fb - 1).

Definition spec_width (fb n : Z) : Z :=
  if spec_promotes fb n then 2 * fb else fb.

(** ** Invariants of the loop *)

(** The write cursor may pass the capacity, by a promoted negative integer. *)
Definition loop_invariant (ctx : decode_context) : Prop :=
  arrays_match ctx /\
  0 <= msgidx ctx <= msgsize ctx /\
  0 <= bufidx ctx <= bufsize ctx + 8 /\
  bufsize ctx + 16 < 2 ^ 64 /\ msgsize ctx + 16 < 2 ^ 64.

Definition same_arrays (ctx ctx' : decode_context) : Prop :=
  msgsize ctx' = msgsize ctx /\ bufsize ctx' = bufsize ctx /\
  msg ctx' = msg ctx /\ length (buf ctx') = length (buf ctx).

(** The state in which the loop calls a handler. *)
Definition call_state (ctx : decode_context) : Prop :=
  loop_invariant ctx /\
  msgidx ctx < msgsize ctx /\ bufidx ctx < bufsize ctx /\
  has_valid_buffers_for_following_bytes ctx = None /\
  (0 <= following_bytes ctx <= 8 \/ following_bytes ctx = INDEFINITE_VALUE).

(** What every handler guarantees: it returns, keeps the invariant, moves
    the read cursor forward unless it reports an error, and leaves the write
    cursor at most [slack] bytes past the capacity. *)
Definition handler_returns (slack : Z) (ctx : decode_context)
    (r : result (cbor_error_t * decode_context)) : Prop :=
  exists err ctx',
    r = Ok (err, ctx') /\ loop_invariant ctx' /\ same_arrays ctx ctx' /\
    msgidx ctx <= msgidx ctx' /\
    (err = CBOR_SUCCESS \/ err = CBOR_BREAK -> msgidx ctx < msgidx ctx') /\
    bufidx ctx' <= bufsize ctx' + slack.

Definition loop_returns (P : platform) (fuel : nat) : Prop :=
  forall (maxitem item : Z) (ctx : decode_context),
    loop_invariant ctx ->
    msgsize ctx - msgidx ctx < Z.of_nat fuel ->
    exists err ctx',
      decode_loop P fuel maxitem item ctx = Ok (err, ctx') /\
      loop_invariant ctx' /\ same_arrays ctx ctx' /\
      msgidx ctx <= msgidx ctx'.

(** ** The first item of a message *)

(** The state in which the loop, entered from [cbor_decode], has read the
    header [h] of the first item. *)
Definition first_context (b m : list byte) (h : byte) : decode_context :=
  set_header (get_major_type h) (get_additional_info h)
    (get_following_bytes (get_additional_info h))
    (set_recursion_depth 1 (initial_context b m)).

(** ** Items on the wire and in the output *)

(** A payload in the order [copy_data] stores it. *)
Definition stored_order (P : platform) (payload : list byte) : list byte :=
  if CBOR_BIG_ENDIAN P then payload else rev payload.

(** What the unsigned-integer decoder stores for the header [h] and its
    following bytes. *)
Definition unsigned_bytes (P : platform) (h : byte) (payload : list byte)
    : list byte :=
  if get_following_bytes (get_additional_info h) =? 0
  then [Z_to_byte (get_additional_info h)]
  else stored_order P payload.

(** The result code of the entry point after one item that fits: input
    that is left counts before output that is left. *)
Definition code_after_item (rest bpost : list byte) : cbor_error_t :=
  match rest, bpost with
  | _ :: _, _ => CBOR_OVERRUN
  | [], _ :: _ => CBOR_UNDERRUN
  | [], [] => CBOR_SUCCESS
  end.

(** The loop has read the header [h] of an item that sits in the message
    after [mpre] and is followed there by [payload] and [mpost]; the write
    cursor is after [bpre], and [bmid] is the part of the buffer the item is
    to fill. *)
Definition at_item (ctx : decode_context) (mpre : list byte) (h : byte)
    (payload mpost bpre bmid bpost : list byte) : Prop :=
  msg ctx = mpre ++ h :: payload ++ mpost
  /\ msgidx ctx = Z.of_nat (length mpre)
  /\ msgsize ctx = Z.of_nat (length (msg ctx)) /\ msgsize ctx < 2 ^ 64
  /\ buf ctx = bpre ++ bmid ++ bpost
  /\ bufidx ctx = Z.of_nat (length bpre)
  /\ bufsize ctx = Z.of_nat (length (buf ctx)) /\ bufsize ctx < 2 ^ 64
  /\ additional_info ctx = get_additional_info h
  /\ following_bytes ctx = get_following_bytes (get_additional_info h).

(** What the float and simple-value decoder stores: a simple value carried
    by the header or by one extension byte goes through [get_simple_value];
    the 2, 4 or 8 bytes of a float are stored like an unsigned integer. *)
Definition float_or_simple_bytes (P : platform) (h : byte)
    (payload : list byte) : list byte :=
  match get_following_bytes (get_additional_info h) with
  | 0 => [Z_to_byte (get_simple_value (get_additional_info h))]
  | 1 => map (fun v => Z_to_byte (get_simple_value (byte_to_Z v))) payload
  | _ => stored_order P payload
  end.

(** The state [ctx1] a handler leaves: [consumed] bytes of input read and
    [out] stored between [bpre] and [bpost], nothing else changed but the
    header fields. *)
Definition after_item (ctx ctx1 : decode_context) (consumed : Z)
    (bpre out bpost : list byte) : Prop :=
  msg ctx1 = msg ctx /\ msgsize ctx1 = msgsize ctx
  /\ bufsize ctx1 = bufsize ctx
  /\ recursion_depth ctx1 = recursion_depth ctx
  /\ msgidx ctx1 = msgidx ctx + consumed
  /\ buf ctx1 = bpre ++ out ++ bpost
  /\ bufidx ctx1 = Z.of_nat (length (bpre ++ out)).

(** The eight bytes of the variable [len] of [go_get_item_length] after
    [copy_data] has stored the following bytes at its start. *)
Definition length_memory (P : platform) (lenbytes : list byte) : list byte :=
  stored_order P lenbytes ++ repeat x00 (8 - length lenbytes).

(** The length [go_get_item_length] returns for the header [h] followed by
    [lenbytes]. *)
Definition declared_length (P : platform) (h : byte) (lenbytes : list byte)
    : Z :=
  if get_following_bytes (get_additional_info h) =? 0
  then get_additional_info h
  else if get_following_bytes (get_additional_info h) =? INDEFINITE_VALUE
       then 0
       else u64_of_mem P (length_memory P lenbytes).

(** ** Messages as trees

    A message of definite-length arrays and maps around scalar items, as the
    decoder reads it: a scalar is a header and the bytes that belong to it,
    a nested item is a header, the bytes of its count and its items. *)
#[warnings="-register-all"]
Inductive value : Type :=
| Scalar (h : byte) (body : list byte)
| Nested (h : byte) (lenbytes : list byte) (items : list value).















Definition header (v : value) : byte :=
  match v with
  | Scalar h _ => h
  | Nested h _ _ => h
  end.



(** The header of an array or a map whose count sits in the header. *)
Definition array_header (h : byte) : bool :=
  ((get_major_type h =? 4) || (get_major_type h =? 5))
  && (get_additional_info h <? 24).

(** The headers the loop refuses before it consumes anything, with the
    result code: a reserved additional-info value, an indefinite-length
    integer or tag, following bytes that the message ([rest] is what follows
    the header) or the buffer ([room] free bytes) cannot hold, and every
    tag. *)
Definition refused (h : byte) (rest : list byte) (room : Z)
    : option cbor_error_t :=
  let ai := get_additional_info h in
  let fb := get_following_bytes ai in
  if (28 <=? ai) && (ai <=? 30) then Some CBOR_ILLEGAL
  else if ai =? 31
       then if get_major_type h <=? 1 then Some CBOR_ILLEGAL
            else if get_major_type h =? 6 then Some CBOR_INVALID
            else None
  else if Z.of_nat (length rest) <? fb then Some CBOR_ILLEGAL
  else if room <? fb then Some CBOR_UNDERRUN
  else if get_major_type h =? 6 then Some CBOR_INVALID
  else None.

(** The output below the write cursor of [ctx] is still there in [ctx'],
    and the write cursor has not moved backwards. *)
Definition keeps_output (ctx ctx' : decode_context) : Prop :=
  bufidx ctx <= bufidx ctx'
  /\ forall j, j < bufidx ctx -> byte_at (buf ctx') j = byte_at (buf ctx) j.

(** ** Two runs on buffers that differ *)

(** [u] and [v] are the output buffers of two runs that started from the
    buffers [b1] and [b2]: they have one length, and every byte is the same
    in both, or still the one the run started with in both. *)
Definition written_alike (b1 b2 u v : list byte) : Prop :=
  length v = length u
  /\ forall j, byte_at u j = byte_at v j
               \/ (byte_at u j = byte_at b1 j /\ byte_at v j = byte_at b2 j).

(** The loop, run on two states that differ in the content of the buffer
    only, returns one code and two states that differ in the content of the
    buffer only. *)
Definition loop_alike (P : platform) (b1 b2 : list byte) (fuel : nat)
    : Prop :=
  forall (maxitem item : Z) (c : decode_context) (x : list byte),
    loop_invariant c ->
    msgsize c - msgidx c < Z.of_nat fuel ->
    written_alike b1 b2 (buf c) x ->
    exists e c' x',
      decode_loop P fuel maxitem item c = Ok (e, c')
      /\ decode_loop P fuel maxitem item (set_buf x c) = Ok (e, set_buf x' c')
      /\ written_alike b1 b2 (buf c') x'.

(** ** The big-endian build *)

(** The build for a big-endian host: [CBOR_BIG_ENDIAN] defined. *)
Definition big_endian_build (max_level : Z) : platform :=
  {| CBOR_RECURSION_MAX_LEVEL := max_level;
     CBOR_BIG_ENDIAN := true;
     host_big_endian := true |}.

(** The number that [k] bytes of [m] from index [i] hold, most significant
    byte first, behind the digits [acc]. *)
Fixpoint be_read (m : list byte) (i : Z) (k : nat) (acc : Z) : Z :=
  match k with
  | O => acc
  | S k' =>
      be_read m (i + 1) k'
        (256 * acc + match byte_at m i with
                     | Some b => byte_to_Z b
                     | None => 0
                     end)
  end.

(** ** Empty items *)


(** ** A buffer that is too small *)



(** ** Tags *)

(** What the entry point answers to a message that starts with the tag
    header [h], followed by [rest], for the buffer [b]. *)
Definition tag_result (h : byte) (rest b : list byte) : cbor_error_t :=
  let ai := get_additional_info h in
  let fb := get_following_bytes ai in
  match b with
  | [] => CBOR_OVERRUN
  | _ :: _ =>
      if (28 <=? ai) && (ai <=? 30) then CBOR_ILLEGAL
      else if ai =? 31 then CBOR_INVALID
      else if Z.of_nat (length rest) <? fb then CBOR_ILLEGAL
      else if Z.of_nat (length b) <? fb then CBOR_UNDERRUN
      else CBOR_INVALID
  end.

(** * Properties *)

(** ** Bytes and machine integers *)

Lemma byte_to_Z_range (b : byte) : 0 <= byte_to_Z b < 256.
Proof.
  unfold byte_to_Z. pose proof (Byte.to_N_bounded b) as H.
  lia.
Qed.

Lemma Z_to_byte_to_Z (z : Z) : byte_to_Z (Z_to_byte z) = z mod 256.
Proof.
  unfold Z_to_byte, byte_to_Z.
  assert (Hr : 0 <= z mod 256 < 256) by (apply Z.mod_pos_bound; lia).
  destruct (Byte.of_N (Z.to_N (z mod 256))) as [b|] eqn:E.
  - apply Byte.to_of_N in E. rewrite E. lia.
  - apply Byte.of_N_None_iff in E. lia.
Qed.

Lemma byte_to_Z_to_byte (b : byte) : Z_to_byte (byte_to_Z b) = b.
Proof.
  unfold Z_to_byte, byte_to_Z.
  pose proof (Byte.to_N_bounded b) as H.
  rewrite Z.mod_small by lia.
  rewrite N2Z.id, Byte.of_to_N. reflexivity.
Qed.

Lemma byte_to_Z_x00 : byte_to_Z x00 = 0.
Proof. reflexivity. Qed.

Lemma byte_to_Z_xff : byte_to_Z xff = 255.
Proof. reflexivity. Qed.

Lemma usize_small (z : Z) : 0 <= z < 2 ^ 64 -> usize z = z.
Proof. intros H. unfold usize. apply Z.mod_small. exact H. Qed.

Lemma u8_small (z : Z) : 0 <= z < 256 -> u8 z = z.
Proof. intros H. unfold u8. apply Z.mod_small. exact H. Qed.

Lemma MIN_min (a b : Z) : MIN a b = Z.min a b.
Proof.
  unfold MIN. destruct (a >? b) eqn:E.
  - apply Z.gtb_lt in E. lia.
  - rewrite Z.gtb_ltb in E. apply Z.ltb_ge in E. lia.
Qed.

Lemma land_pow2_testbit (n k : Z) :
  0 <= k -> (Z.land n (2 ^ k) =? 0) = negb (Z.testbit n k).
Proof.
  intros Hk. destruct (Z.testbit n k) eqn:E; cbn [negb].
  - apply Z.eqb_neq. intros H0.
    assert (Hb : Z.testbit (Z.land n (2 ^ k)) k = true).
    { rewrite Z.land_spec, E, Z.pow2_bits_true by lia. reflexivity. }
    rewrite H0, Z.bits_0 in Hb. discriminate.
  - apply Z.eqb_eq. apply Z.bits_inj'. intros i Hi.
    rewrite Z.land_spec, Z.bits_0, Z.pow2_bits_eqb by lia.
    destruct (Z.eqb_spec k i) as [->|]; [rewrite E|]; 
      rewrite ?andb_false_r; reflexivity.
Qed.

Lemma testbit_top (n k : Z) :
  0 <= k -> 0 <= n < 2 ^ (k + 1) -> Z.testbit n k = (2 ^ k <=? n).
Proof.
  intros Hk Hn. replace (k + 1) with (Z.succ k) in Hn by lia.
  rewrite Z.pow_succ_r in Hn by lia.
  assert (Hp : 0 < 2 ^ k) by (apply Z.pow_pos_nonneg; lia).
  destruct (Z.leb_spec (2 ^ k) n) as [Hle|Hlt].
  - apply Z.testbit_true; [lia|].
    assert (H1 : 1 = n / 2 ^ k)
      by (apply Z.div_unique with (r := n - 2 ^ k); lia).
    rewrite <- H1. reflexivity.
  - apply Z.testbit_false; [lia|].
    rewrite Z.div_small by lia. reflexivity.
Qed.

Lemma le_value_bound (bs : list byte) :
  0 <= le_value bs < 2 ^ (8 * Z.of_nat (length bs)).
Proof.
  induction bs as [|x bs IH].
  - cbn. lia.
  - cbn [le_value length]. pose proof (byte_to_Z_range x) as Hx.
    replace (8 * Z.of_nat (S (length bs)))
      with (8 + 8 * Z.of_nat (length bs)) by lia.
    rewrite Z.pow_add_r by lia. change (2 ^ 8) with 256. lia.
Qed.

Lemma be_value_bound (bs : list byte) :
  0 <= be_value bs < 2 ^ (8 * Z.of_nat (length bs)).
Proof.
  unfold be_value. pose proof (le_value_bound (rev bs)) as H.
  rewrite length_rev in H. exact H.
Qed.

Lemma mem_of_u64_length (P : platform) (v : Z) :
  length (mem_of_u64 P v) = 8%nat.
Proof. unfold mem_of_u64. destruct (host_big_endian P); reflexivity. Qed.

(** ** Arrays *)

Lemma byte_at_Some_range (m : list byte) (i : Z) (b : byte) :
  byte_at m i = Some b -> 0 <= i < Z.of_nat (length m).
Proof.
  unfold byte_at. destruct (Z.ltb_spec i 0); [discriminate|].
  intros H0. apply lookup_lt_Some in H0. lia.
Qed.

Lemma byte_at_in_range (m : list byte) (i : Z) :
  0 <= i < Z.of_nat (length m) -> exists b, byte_at m i = Some b.
Proof.
  intros Hi. unfold byte_at. destruct (Z.ltb_spec i 0); [lia|].
  destruct (lookup_lt_is_Some_2 m (Z.to_nat i)) as [b Hb]; [lia|].
  exists b. exact Hb.
Qed.

Lemma byte_at_None (m : list byte) (i : Z) :
  byte_at m i = None <-> ~ (0 <= i < Z.of_nat (length m)).
Proof.
  split.
  - intros H Hi. destruct (byte_at_in_range m i Hi) as [b Hb]. congruence.
  - intros H. destruct (byte_at m i) as [b|] eqn:E; [|reflexivity].
    apply byte_at_Some_range in E. contradiction.
Qed.

Lemma load_Ok (m : list byte) (i : Z) (b : byte) :
  load m i = Ok b <-> byte_at m i = Some b.
Proof.
  unfold load. destruct (byte_at m i); split; congruence.
Qed.

Lemma load_in_range (m : list byte) (i : Z) :
  0 <= i < Z.of_nat (length m) -> exists b, load m i = Ok b.
Proof.
  intros Hi. destruct (byte_at_in_range m i Hi) as [b Hb].
  exists b. apply load_Ok. exact Hb.
Qed.

Lemma store_in_range (m : list byte) (i : Z) (b : byte) :
  0 <= i < Z.of_nat (length m) -> store m i b = Ok (<[Z.to_nat i := b]> m).
Proof.
  intros Hi. unfold store.
  destruct (Z.leb_spec 0 i); [|lia].
  destruct (Z.ltb_spec i (Z.of_nat (length m))); [|lia].
  reflexivity.
Qed.

Lemma store_Ok (m m' : list byte) (i : Z) (b : byte) :
  store m i b = Ok m' ->
  0 <= i < Z.of_nat (length m) /\ length m' = length m /\
  forall j, byte_at m' j = if decide (j = i) then Some b else byte_at m j.
Proof.
  unfold store.
  destruct (Z.leb_spec 0 i); [|discriminate].
  destruct (Z.ltb_spec i (Z.of_nat (length m))); [|discriminate].
  cbn [andb]. intros [= <-]. split; [lia|]. split; [apply length_insert|].
  intros j. unfold byte_at. destruct (Z.ltb_spec j 0).
  - destruct (decide (j = i)); [lia|reflexivity].
  - destruct (decide (j = i)) as [->|Hne].
    + apply list_lookup_insert_eq. lia.
    + apply list_lookup_insert_ne. lia.
Qed.

(** Two arrays of one length with the same bytes are the same array. *)
Lemma byte_at_ext (m m' : list byte) :
  (forall j, byte_at m j = byte_at m' j) -> m = m'.
Proof.
  intros H. apply list_eq. intros i.
  specialize (H (Z.of_nat i)). unfold byte_at in H.
  destruct (Z.ltb_spec (Z.of_nat i) 0); [lia|].
  rewrite Nat2Z.id in H. exact H.
Qed.

Lemma byte_at_map_eight (f : Z -> byte) (j : Z) :
  byte_at (map f eight) j = if decide (0 <= j < 8) then Some (f j) else None.
Proof.
  destruct (decide (0 <= j < 8)) as [Hj|Hj].
  - assert (H : j = 0 \/ j = 1 \/ j = 2 \/ j = 3 \/ j = 4 \/ j = 5 \/ j = 6
                \/ j = 7) by lia.
    repeat (destruct H as [-> | H]; [reflexivity|]). subst j. reflexivity.
  - apply byte_at_None. cbn. lia.
Qed.

(** ** The copy loops *)

Lemma copy_be_loop_Ok (n : nat) : forall (i : Z) (dst : list byte) (d : Z)
    (src : list byte) (s : Z) (dst' : list byte),
  copy_be_loop n i dst d src s = Ok dst' ->
  length dst' = length dst /\
  forall j, byte_at dst' j
            = if decide (d + i <= j < d + i + Z.of_nat n)
              then byte_at src (s + (j - d)) else byte_at dst j.
Proof.
  induction n as [|n IH]; intros i dst d src s dst' H.
  - cbn in H. injection H as <-. split; [reflexivity|].
    intros j. destruct (decide _); [lia|reflexivity].
  - cbn [copy_be_loop] in H.
    destruct (load src (s + i)) as [b| |] eqn:El; try discriminate.
    cbn [rbind] in H.
    destruct (store dst (d + i) b) as [dst1| |] eqn:Es; try discriminate.
    cbn [rbind] in H.
    apply load_Ok in El. apply store_Ok in Es. destruct Es as (Hr & Hl & Hs).
    apply IH in H. destruct H as (Hl' & Hc).
    split; [congruence|].
    intros j. rewrite Hc, Hs.
    repeat destruct (decide _); try lia; try reflexivity.
    subst j. rewrite <- El. f_equal. lia.
Qed.

Lemma copy_be_loop_safe (n : nat) : forall (i : Z) (dst : list byte) (d : Z)
    (src : list byte) (s : Z),
  0 <= s + i -> s + i + Z.of_nat n <= Z.of_nat (length src) ->
  0 <= d + i -> d + i + Z.of_nat n <= Z.of_nat (length dst) ->
  exists dst', copy_be_loop n i dst d src s = Ok dst'.
Proof.
  induction n as [|n IH]; intros i dst d src s Hs0 Hs1 Hd0 Hd1.
  - eexists. reflexivity.
  - cbn [copy_be_loop].
    destruct (load_in_range src (s + i)) as [b ->]; [lia|].
    cbn [rbind]. rewrite store_in_range by lia. cbn [rbind].
    apply IH; rewrite ?length_insert; lia.
Qed.

Lemma copy_string_loop_eq (n : nat) : forall (i : Z) (dst : list byte) (d : Z)
    (src : list byte) (s : Z),
  copy_string_loop n i dst d src s = copy_be_loop n i dst d src s.
Proof.
  intros. reflexivity.
Qed.

Lemma copy_le_loop_Ok (n : nat) : forall (i len : Z) (dst : list byte) (d : Z)
    (src : list byte) (s : Z) (dst' : list byte),
  copy_le_loop n i len dst d src s = Ok dst' ->
  length dst' = length dst /\
  forall j, byte_at dst' j
            = if decide (d + len - i - Z.of_nat n <= j < d + len - i)
              then byte_at src (s + (len - 1 - (j - d))) else byte_at dst j.
Proof.
  induction n as [|n IH]; intros i len dst d src s dst' H.
  - cbn in H. injection H as <-. split; [reflexivity|].
    intros j. destruct (decide _); [lia|reflexivity].
  - cbn [copy_le_loop] in H.
    destruct (load src (s + i)) as [b| |] eqn:El; try discriminate.
    cbn [rbind] in H.
    destruct (store dst (d + (len - i - 1)) b) as [dst1| |] eqn:Es;
      try discriminate.
    cbn [rbind] in H.
    apply load_Ok in El. apply store_Ok in Es. destruct Es as (Hr & Hl & Hs).
    apply IH in H. destruct H as (Hl' & Hc).
    split; [congruence|].
    intros j. rewrite Hc, Hs.
    repeat destruct (decide _); try lia; try reflexivity.
    subst j. rewrite <- El. f_equal. lia.
Qed.

Lemma copy_le_loop_safe (n : nat) : forall (i len : Z) (dst : list byte)
    (d : Z) (src : list byte) (s : Z),
  0 <= s + i -> s + i + Z.of_nat n <= Z.of_nat (length src) ->
  0 <= d + len - i - Z.of_nat n -> d + len - i <= Z.of_nat (length dst) ->
  exists dst', copy_le_loop n i len dst d src s = Ok dst'.
Proof.
  induction n as [|n IH]; intros i len dst d src s Hs0 Hs1 Hd0 Hd1.
  - eexists. reflexivity.
  - cbn [copy_le_loop].
    destruct (load_in_range src (s + i)) as [b ->]; [lia|].
    cbn [rbind]. rewrite store_in_range by lia. cbn [rbind].
    apply IH; rewrite ?length_insert; lia.
Qed.

Lemma fill_ff_Ok (n : nat) : forall (i : Z) (b : list byte) (d : Z)
    (b' : list byte),
  fill_ff n i b d = Ok b' -> 0 <= i -> i + Z.of_nat n <= 256 ->
  length b' = length b /\
  forall j, byte_at b' j
            = if decide (d + i <= j < d + i + Z.of_nat n)
              then Some xff else byte_at b j.
Proof.
  induction n as [|n IH]; intros i b d b' H Hi Hn.
  - cbn in H. injection H as <-. split; [reflexivity|].
    intros j. destruct (decide _); [lia|reflexivity].
  - cbn [fill_ff] in H.
    destruct (store b (d + i) xff) as [b1| |] eqn:Es; try discriminate.
    cbn [rbind] in H. apply store_Ok in Es. destruct Es as (Hr & Hl & Hs).
    destruct n as [|n].
    + cbn in H. injection H as <-. split; [exact Hl|].
      intros j. rewrite Hs.
      repeat destruct (decide _); try lia; reflexivity.
    + rewrite u8_small in H by lia.
      apply IH in H; [|lia|lia]. destruct H as (Hl' & Hc).
      split; [congruence|].
      intros j. rewrite Hc, Hs.
      repeat destruct (decide _); try lia; reflexivity.
Qed.

Lemma fill_ff_safe (n : nat) : forall (i : Z) (b : list byte) (d : Z),
  0 <= i -> i + Z.of_nat n <= 256 ->
  0 <= d + i -> d + i + Z.of_nat n <= Z.of_nat (length b) ->
  exists b', fill_ff n i b d = Ok b'.
Proof.
  induction n as [|n IH]; intros i b d Hi Hn Hd0 Hd1.
  - eexists. reflexivity.
  - cbn [fill_ff]. rewrite store_in_range by lia. cbn [rbind].
    destruct n as [|n]; [eexists; reflexivity|].
    rewrite u8_small by lia.
    apply IH; rewrite ?length_insert; lia.
Qed.

(** ** Tactics for the context and the monad *)

Ltac ctx_simpl :=
  cbn [buf bufsize bufidx msg msgsize msgidx major_type additional_info
       following_bytes recursion_depth set_buf set_bufidx set_msgidx
       set_header set_additional_info set_following_bytes
       set_recursion_depth rbind fst snd cbor_error_eqb negb] in *.

Ltac usize_norm :=
  repeat match goal with
         | |- context [usize ?x] => rewrite (usize_small x) by lia
         | |- context [u8 ?x] => rewrite (u8_small x) by lia
         end.

Ltac monad_unfold :=
  unfold write_buf, read_buf, read_msg, bind, get, modify, ret, lift in *.

(** ** The header classifier *)

Lemma get_header_fields (h : byte) :
  0 <= get_major_type h < 8 /\ 0 <= get_additional_info h < 32.
Proof. destruct h; vm_compute; intuition discriminate. Qed.

Lemma get_following_bytes_count (ai : Z) :
  0 <= ai < 28 ->
  0 <= get_following_bytes ai <= 8
  /\ get_following_bytes ai <> INDEFINITE_VALUE
  /\ get_following_bytes ai <> RESERVED_VALUE.
Proof.
  intros H.
  assert (Hc : ai < 24 \/ ai = 24 \/ ai = 25 \/ ai = 26 \/ ai = 27) by lia.
  destruct Hc as [Hc|Hc].
  - unfold get_following_bytes. destruct (Z.ltb_spec ai 24); [|lia].
    vm_compute. intuition discriminate.
  - repeat (destruct Hc as [-> | Hc];
            [vm_compute; intuition discriminate|]).
    subst ai. vm_compute. intuition discriminate.
Qed.

(** C8: for every header byte the classifier computes the descriptor the
    spec lists: 0 below 24, INDEFINITE at 31, RESERVED at 28, 29 and 30, and
    2^(additional-info - 24) from 24 to 27; the two sentinels differ from
    every byte count, and the classifier is a total function. *)
Theorem get_following_bytes_classifies (header : byte) :
  get_following_bytes (get_additional_info header)
  = spec_following_bytes (get_additional_info header)
  /\ 0 <= get_additional_info header < 32
  /\ (get_following_bytes (get_additional_info header) = INDEFINITE_VALUE
      <-> get_additional_info header = 31)
  /\ (get_following_bytes (get_additional_info header) = RESERVED_VALUE
      <-> 28 <= get_additional_info header <= 30)
  /\ (get_additional_info header < 28 ->
      In (get_following_bytes (get_additional_info header)) [0; 1; 2; 4; 8]).
Proof.
  destruct header; vm_compute; repeat split; intros; try congruence;
    try discriminate; try tauto; intuition congruence.
Qed.

(** ** The bounds validator *)

Lemma has_valid_buffers_None (ctx : decode_context) :
  cursors_in_range ctx ->
  has_valid_buffers_for_following_bytes ctx = None ->
  following_bytes ctx <> INDEFINITE_VALUE ->
  following_bytes ctx <> RESERVED_VALUE /\
  following_bytes ctx + 1 <= msgsize ctx - msgidx ctx /\
  following_bytes ctx <= bufsize ctx - bufidx ctx.
Proof.
  intros (Hm & Hms & Hb & Hbs & Hf).
  unfold has_valid_buffers_for_following_bytes.
  rewrite (usize_small (msgsize ctx - msgidx ctx)) by lia.
  rewrite (usize_small (bufsize ctx - bufidx ctx)) by lia.
  destruct (Z.eqb_spec (following_bytes ctx) RESERVED_VALUE); [discriminate|].
  destruct (Z.eqb_spec (following_bytes ctx) INDEFINITE_VALUE); [tauto|].
  destruct (following_bytes ctx + 1 >? msgsize ctx - msgidx ctx) eqn:E1;
    [discriminate|].
  destruct (following_bytes ctx >? bufsize ctx - bufidx ctx) eqn:E2;
    [discriminate|].
  rewrite Z.gtb_ltb in E1, E2. apply Z.ltb_ge in E1, E2.
  intros _ _. repeat split; assumption.
Qed.

Lemma has_valid_buffers_pass (ctx : decode_context) :
  cursors_in_range ctx ->
  following_bytes ctx <> RESERVED_VALUE ->
  following_bytes ctx + 1 <= msgsize ctx - msgidx ctx ->
  following_bytes ctx <= bufsize ctx - bufidx ctx ->
  has_valid_buffers_for_following_bytes ctx = None.
Proof.
  intros (Hm & Hms & Hb & Hbs & Hf) Hr Hin Hout.
  unfold has_valid_buffers_for_following_bytes.
  rewrite (usize_small (msgsize ctx - msgidx ctx)) by lia.
  rewrite (usize_small (bufsize ctx - bufidx ctx)) by lia.
  destruct (Z.eqb_spec (following_bytes ctx) RESERVED_VALUE); [tauto|].
  destruct (Z.eqb_spec (following_bytes ctx) INDEFINITE_VALUE); [reflexivity|].
  destruct (Z.gtb_spec (following_bytes ctx + 1) (msgsize ctx - msgidx ctx));
    [lia|].
  destruct (Z.gtb_spec (following_bytes ctx) (bufsize ctx - bufidx ctx));
    [lia|].
  reflexivity.
Qed.

Lemma has_valid_buffers_underrun (ctx : decode_context) :
  cursors_in_range ctx ->
  following_bytes ctx <> RESERVED_VALUE ->
  following_bytes ctx <> INDEFINITE_VALUE ->
  following_bytes ctx + 1 <= msgsize ctx - msgidx ctx ->
  bufsize ctx - bufidx ctx < following_bytes ctx ->
  has_valid_buffers_for_following_bytes ctx = Some CBOR_UNDERRUN.
Proof.
  intros (Hm & Hms & Hb & Hbs & Hf) Hr Hi Hin Hout.
  unfold has_valid_buffers_for_following_bytes.
  rewrite (usize_small (msgsize ctx - msgidx ctx)) by lia.
  rewrite (usize_small (bufsize ctx - bufidx ctx)) by lia.
  destruct (Z.eqb_spec (following_bytes ctx) RESERVED_VALUE); [tauto|].
  destruct (Z.eqb_spec (following_bytes ctx) INDEFINITE_VALUE); [tauto|].
  destruct (Z.gtb_spec (following_bytes ctx + 1) (msgsize ctx - msgidx ctx));
    [lia|].
  destruct (Z.gtb_spec (following_bytes ctx) (bufsize ctx - bufidx ctx));
    [reflexivity|lia].
Qed.

Lemma has_valid_buffers_errors (ctx : decode_context) (err : cbor_error_t) :
  has_valid_buffers_for_following_bytes ctx = Some err ->
  err = CBOR_ILLEGAL \/ err = CBOR_UNDERRUN.
Proof.
  unfold has_valid_buffers_for_following_bytes.
  repeat match goal with
         | |- context [if ?c then _ else _] => destruct c
         end; intros [= <-]; auto.
Qed.

(** C6: on a decode state whose cursors are inside their arrays, the
    validator fails with Malformed ([CBOR_ILLEGAL]) for the RESERVED
    descriptor and for a byte count with fewer than [following_bytes + 1]
    bytes of input left; it fails with OutputExhausted ([CBOR_UNDERRUN])
    when the input suffices and fewer than [following_bytes] bytes of output
    are left; it passes for INDEFINITE whatever is left, and in every other
    case.  The two failures are different codes. *)
Theorem has_valid_buffers_for_following_bytes_cases (ctx : decode_context) :
  cursors_in_range ctx ->
  (following_bytes ctx = RESERVED_VALUE ->
   has_valid_buffers_for_following_bytes ctx = Some CBOR_ILLEGAL)
  /\ (following_bytes ctx = INDEFINITE_VALUE ->
      has_valid_buffers_for_following_bytes ctx = None)
  /\ (following_bytes ctx <> INDEFINITE_VALUE ->
      msgsize ctx - msgidx ctx < following_bytes ctx + 1 ->
      has_valid_buffers_for_following_bytes ctx = Some CBOR_ILLEGAL)
  /\ (following_bytes ctx <> RESERVED_VALUE ->
      following_bytes ctx <> INDEFINITE_VALUE ->
      following_bytes ctx + 1 <= msgsize ctx - msgidx ctx ->
      bufsize ctx - bufidx ctx < following_bytes ctx ->
      has_valid_buffers_for_following_bytes ctx = Some CBOR_UNDERRUN)
  /\ (following_bytes ctx <> RESERVED_VALUE ->
      following_bytes ctx + 1 <= msgsize ctx - msgidx ctx ->
      following_bytes ctx <= bufsize ctx - bufidx ctx ->
      has_valid_buffers_for_following_bytes ctx = None)
  /\ CBOR_ILLEGAL <> CBOR_UNDERRUN.
Proof.
  intros (Hm & Hms & Hb & Hbs & Hf).
  unfold has_valid_buffers_for_following_bytes.
  rewrite (usize_small (msgsize ctx - msgidx ctx)) by lia.
  rewrite (usize_small (bufsize ctx - bufidx ctx)) by lia.
  change RESERVED_VALUE with 254. change INDEFINITE_VALUE with 255.
  repeat split; try discriminate; intros;
    repeat match goal with
           | |- context [?a =? ?b] => destruct (Z.eqb_spec a b); try lia
           | |- context [?a >? ?b] =>
               let E := fresh in
               destruct (a >? b) eqn:E;
               [apply Z.gtb_lt in E | rewrite Z.gtb_ltb in E;
                                      apply Z.ltb_ge in E]; try lia
           end; reflexivity.
Qed.

Lemma has_valid_buffers_for_following_bytes_cases_witness :
  has_valid_buffers_for_following_bytes
    (set_header 0 25 2 (initial_context [x00] [x19; x01])) = Some CBOR_ILLEGAL
  /\ has_valid_buffers_for_following_bytes
       (set_header 0 25 2 (initial_context [x00] [x19; x01; x02]))
     = Some CBOR_UNDERRUN.
Proof.
  split.
  - apply (has_valid_buffers_for_following_bytes_cases
             (set_header 0 25 2 (initial_context [x00] [x19; x01]))).
    + unfold cursors_in_range; simpl; lia.
    + discriminate.
    + simpl; lia.
  - apply (has_valid_buffers_for_following_bytes_cases
             (set_header 0 25 2 (initial_context [x00] [x19; x01; x02]))).
    + unfold cursors_in_range; simpl; lia.
    + discriminate.
    + discriminate.
    + simpl; lia.
    + simpl; lia.
Defined.

(** ** Unsigned integers *)

Lemma do_unsigned_integer_spec (P : platform) (ctx : decode_context) :
  arrays_match ctx -> cursors_in_range ctx ->
  bufidx ctx < bufsize ctx ->
  has_valid_buffers_for_following_bytes ctx = None ->
  following_bytes ctx <> INDEFINITE_VALUE ->
  exists b',
    do_unsigned_integer P ctx
    = Ok (CBOR_SUCCESS,
          set_msgidx (msgidx ctx + (following_bytes ctx + 1))
            (set_bufidx (bufidx ctx + Z.max 1 (following_bytes ctx))
               (set_buf b' ctx)))
    /\ length b' = length (buf ctx)
    /\ forall j, byte_at b' j = unsigned_output P ctx j.
Proof.
  intros (Hbs & Hms) Hr Hlt Hv Hi.
  destruct (has_valid_buffers_None ctx Hr Hv Hi) as (_ & Hin & Hout).
  destruct Hr as (Hm & Hmsz & Hb & Hbsz & Hf).
  unfold do_unsigned_integer, unsigned_output. monad_unfold.
  destruct (Z.eqb_spec (following_bytes ctx) INDEFINITE_VALUE); [tauto|].
  destruct (Z.eqb_spec (following_bytes ctx) 0) as [E0|E0].
  - rewrite store_in_range by lia. ctx_simpl.
    rewrite E0. unfold copy_data, copy_data_be, copy_data_le.
    change (Z.to_nat 0) with 0%nat. cbn [copy_be_loop copy_le_loop].
    destruct (CBOR_BIG_ENDIAN P); ctx_simpl;
      (eexists; split; [|split]; cycle 1;
       [apply length_insert
       |intros j;
        pose proof (store_in_range (buf ctx) (bufidx ctx)
                      (Z_to_byte (additional_info ctx)) ltac:(lia)) as Hs;
        apply store_Ok in Hs; destruct Hs as (_ & _ & Hs); apply Hs
       |rewrite !E0, Z.add_0_r; usize_norm;
        replace (Z.max 1 0) with 1 by lia; reflexivity]).
  - ctx_simpl. unfold copy_data, copy_data_be, copy_data_le.
    destruct (CBOR_BIG_ENDIAN P).
    + destruct (copy_be_loop_safe (Z.to_nat (following_bytes ctx)) 0
                  (buf ctx) (bufidx ctx) (msg ctx) (msgidx ctx + 1))
        as [b' Hc]; try lia.
      rewrite Hc. ctx_simpl. apply copy_be_loop_Ok in Hc.
      destruct Hc as (Hl & Hc).
      exists b'. split; [|split; [exact Hl|]].
      * usize_norm.
        replace (Z.max 1 (following_bytes ctx)) with (following_bytes ctx)
          by lia.
        reflexivity.
      * intros j. rewrite Hc.
        repeat destruct (decide _); try lia; try reflexivity;
          try (f_equal; lia).
    + destruct (copy_le_loop_safe (Z.to_nat (following_bytes ctx)) 0
                  (following_bytes ctx)
                  (buf ctx) (bufidx ctx) (msg ctx) (msgidx ctx + 1))
        as [b' Hc]; try lia.
      rewrite Hc. ctx_simpl. apply copy_le_loop_Ok in Hc.
      destruct Hc as (Hl & Hc).
      exists b'. split; [|split; [exact Hl|]].
      * usize_norm.
        replace (Z.max 1 (following_bytes ctx)) with (following_bytes ctx)
          by lia.
        reflexivity.
      * intros j. rewrite Hc.
        repeat destruct (decide _); try lia; try reflexivity;
          try (f_equal; lia).
Qed.

(** ** Negative integers *)

Lemma do_negative_integer_spec (P : platform) (ctx : decode_context) :
  arrays_match ctx -> cursors_in_range ctx ->
  bufidx ctx < bufsize ctx ->
  has_valid_buffers_for_following_bytes ctx = None ->
  following_bytes ctx <= 8 -> bufsize ctx + 8 < 2 ^ 64 ->
  exists b',
    do_negative_integer P ctx
    = Ok (CBOR_SUCCESS,
          set_msgidx (msgidx ctx + (following_bytes ctx + 1))
            (set_bufidx (bufidx ctx
                         + (if negative_promoted P ctx
                            then 2 * negative_data_size ctx
                            else negative_data_size ctx))
               (set_buf b' ctx)))
    /\ length b' = length (buf ctx)
    /\ forall j, byte_at b' j = negative_output P ctx j.
Proof.
  intros Ha Hr Hlt Hv H8 Hbig.
  assert (Hi : following_bytes ctx <> INDEFINITE_VALUE)
    by (change INDEFINITE_VALUE with 255; lia).
  destruct (do_unsigned_integer_spec P ctx Ha Hr Hlt Hv Hi)
    as (b1 & Hu & Hl1 & Hc1).
  destruct (has_valid_buffers_None ctx Hr Hv Hi) as (_ & Hin & Hout).
  destruct Ha as (Hbs & Hms). destruct Hr as (Hm & Hmsz & Hb & Hbsz & Hf).
  unfold do_negative_integer. monad_unfold. rewrite Hu. ctx_simpl.
  fold (negative_data_size ctx).
  assert (Hw : 1 <= negative_data_size ctx <= 8)
    by (unfold negative_data_size; lia).
  assert (Hwc : negative_data_size ctx <= bufsize ctx - bufidx ctx)
    by (unfold negative_data_size; lia).
  replace (bufidx ctx + negative_data_size ctx - bufidx ctx)
    with (negative_data_size ctx) by lia.
  rewrite (usize_small (negative_data_size ctx)) by lia.
  rewrite (u8_small (negative_data_size ctx)) by lia.
  unfold copy_data_be at 1.
  destruct (copy_be_loop_safe (Z.to_nat (negative_data_size ctx)) 0
              zero_u64 0 b1 (bufidx ctx)) as [vm Hvm];
    try (cbn [length zero_u64]; lia).
  rewrite Hvm. ctx_simpl. apply copy_be_loop_Ok in Hvm.
  destruct Hvm as (Hlv & Hcv).
  assert (Evm : vm = negative_val_mem P ctx).
  { apply byte_at_ext. intros j. rewrite Hcv. unfold negative_val_mem.
    rewrite byte_at_map_eight.
    destruct (decide (0 + 0 <= j
                      < 0 + 0 + Z.of_nat (Z.to_nat (negative_data_size ctx)))).
    - destruct (decide (0 <= j < 8)); [|lia].
      destruct (Z.ltb_spec j (negative_data_size ctx)); [|lia].
      rewrite <- Hc1.
      destruct (byte_at_in_range b1 (bufidx ctx + j)) as [x Hx]; [lia|].
      replace (bufidx ctx + (j - 0)) with (bufidx ctx + j) by lia.
      rewrite Hx. reflexivity.
    - change zero_u64 with (map (fun _ : Z => x00) eight).
      rewrite byte_at_map_eight.
      destruct (decide (0 <= j < 8)); [|reflexivity].
      destruct (Z.ltb_spec j (negative_data_size ctx)); [lia|reflexivity]. }
  rewrite Evm. fold (negative_val P ctx). fold (negative_promoted P ctx).
  assert (Hmin : MIN (bufsize ctx - bufidx ctx) 4
                 = Z.min (bufsize ctx - bufidx ctx) 4) by apply MIN_min.
  assert (Hsh : u8 (Z.shiftl (negative_data_size ctx) 1)
                = 2 * negative_data_size ctx).
  { rewrite Z.shiftl_mul_pow2 by lia. rewrite u8_small; lia. }
  assert (Hfill : exists b2,
             fill_ff (Z.to_nat (MIN (usize (bufsize ctx - bufidx ctx)) 4)) 0
               b1 (bufidx ctx) = Ok b2).
  { rewrite (usize_small (bufsize ctx - bufidx ctx)) by lia. rewrite Hmin.
    apply fill_ff_safe; lia. }
  destruct Hfill as (b2 & Hb2).
  destruct (copy_be_loop_safe (Z.to_nat (negative_data_size ctx)) 0
              b2 (bufidx ctx)
              (mem_of_u64 P (u64 (Z.lnot (negative_val P ctx)))) 0)
    as [b3 Hb3].
  { lia. }
  { rewrite mem_of_u64_length. lia. }
  { lia. }
  { apply fill_ff_Ok in Hb2;
      [|lia|rewrite (usize_small (bufsize ctx - bufidx ctx)), Hmin; lia].
    destruct Hb2 as (-> & _). lia. }
  exists b3.
  assert (Hrun : forall c, buf c = b1 -> bufsize c = bufsize ctx ->
            match
              rbind
                (fill_ff (Z.to_nat (MIN (usize (bufsize c - bufidx ctx)) 4)) 0
                   (buf c) (bufidx ctx))
                (fun a1 : list byte => Ok (a1, c))
            with
            | Ok (a2, c'0) =>
                match
                  rbind
                    (copy_data_be a2 (bufidx ctx)
                       (mem_of_u64 P (u64 (Z.lnot (negative_val P ctx)))) 0
                       (negative_data_size ctx))
                    (fun a3 : list byte => Ok (a3, set_buf a2 c'0))
                with
                | Ok (a4, c'1) => Ok (CBOR_SUCCESS, set_buf a4 c'1)
                | Fault => Fault
                | OutOfFuel => OutOfFuel
                end
            | Fault => Fault
            | OutOfFuel => OutOfFuel
            end = Ok (CBOR_SUCCESS, set_buf b3 (set_buf b2 c))).
  { intros c -> ->. rewrite Hb2. ctx_simpl.
    unfold copy_data_be. rewrite Hb3. reflexivity. }
  split; [|split].
  - destruct (negative_promoted P ctx); cbv beta iota;
      (rewrite Hrun; [|reflexivity|reflexivity]);
      rewrite ?Hsh; usize_norm; f_equal; f_equal;
      unfold set_msgidx, set_bufidx, set_buf; ctx_simpl; usize_norm;
      f_equal; lia.
  - apply copy_be_loop_Ok in Hb3. destruct Hb3 as (-> & _).
    apply fill_ff_Ok in Hb2;
      [|lia|rewrite (usize_small (bufsize ctx - bufidx ctx)), Hmin; lia].
    destruct Hb2 as (-> & _). exact Hl1.
  - intros j. apply copy_be_loop_Ok in Hb3. destruct Hb3 as (_ & ->).
    apply fill_ff_Ok in Hb2;
      [|lia|rewrite (usize_small (bufsize ctx - bufidx ctx)), Hmin; lia].
    destruct Hb2 as (_ & ->).
    rewrite (usize_small (bufsize ctx - bufidx ctx)) by lia.
    unfold negative_output. rewrite Hmin, Hc1.
    repeat destruct (decide _); try lia; try reflexivity;
      try (f_equal; lia).
    unfold unsigned_output.
    destruct (Z.eqb_spec (following_bytes ctx) 0);
      repeat destruct (decide _); try reflexivity;
      unfold negative_data_size in *; lia.
Qed.

Lemma negative_output_value (P : platform) (ctx : decode_context) (j : Z) :
  host_big_endian P = false -> negative_data_size ctx <= 8 ->
  bufidx ctx <= j < bufidx ctx + negative_data_size ctx ->
  negative_output P ctx j
  = Some (Z_to_byte (Z.shiftr (u64 (Z.lnot (negative_val P ctx)))
                       (8 * (j - bufidx ctx)))).
Proof.
  intros Hh Hw Hj. unfold negative_output, mem_of_u64. rewrite Hh.
  destruct (decide _); [|lia].
  change (le_bytes ?v)
    with (map (fun i => Z_to_byte (Z.shiftr v (8 * i))) eight).
  rewrite byte_at_map_eight. destruct (decide _); [reflexivity|lia].
Qed.

Lemma negative_output_ff (P : platform) (ctx : decode_context) (j : Z) :
  1 <= negative_data_size ctx ->
  bufidx ctx + negative_data_size ctx <= j
  < bufidx ctx + MIN (bufsize ctx - bufidx ctx) 4 ->
  negative_output P ctx j = Some xff.
Proof.
  intros Hw Hj. unfold negative_output.
  destruct (decide _); [lia|]. destruct (decide _); [reflexivity|lia].
Qed.

(** C10: called as the decode loop calls it, the negative-integer decoder
    returns Success and leaves 0xFF in every byte from the end of the
    [data_size] bytes it writes back up to four bytes past the item's output
    position, or up to the capacity if that comes first.  Unless the item is
    promoted the write cursor ends right after the [data_size] bytes, so
    these bytes lie at or beyond it and belong to no decoded item. *)
Theorem do_negative_integer_prefills (P : platform) (ctx : decode_context) :
  arrays_match ctx -> cursors_in_range ctx ->
  bufidx ctx < bufsize ctx ->
  has_valid_buffers_for_following_bytes ctx = None ->
  following_bytes ctx <= 8 -> bufsize ctx + 8 < 2 ^ 64 ->
  exists ctx',
    do_negative_integer P ctx = Ok (CBOR_SUCCESS, ctx')
    /\ (forall j,
          bufidx ctx + negative_data_size ctx <= j
          < bufidx ctx + MIN (bufsize ctx - bufidx ctx) 4 ->
          byte_at (buf ctx') j = Some xff)
    /\ (negative_promoted P ctx = false ->
        bufidx ctx' = bufidx ctx + negative_data_size ctx).
Proof.
  intros Ha Hr Hlt Hv H8 Hbig.
  destruct (do_negative_integer_spec P ctx Ha Hr Hlt Hv H8 Hbig)
    as (b' & Hrun & _ & Hout).
  eexists. split; [exact Hrun|]. split.
  - intros j Hj. ctx_simpl. rewrite Hout. unfold negative_output.
    unfold negative_data_size in *.
    destruct (decide _); [lia|].
    destruct (decide _); [reflexivity|lia].
  - intros Hp. ctx_simpl. rewrite Hp. reflexivity.
Qed.

Lemma do_negative_integer_prefills_witness :
  let ctx := set_header 1 0 0 (initial_context [x00; x00; x00; x00] [x20]) in
  exists ctx',
    do_negative_integer (little_endian_build 8) ctx = Ok (CBOR_SUCCESS, ctx')
    /\ bufidx ctx' = 1
    /\ byte_at (buf ctx) 3 = Some x00
    /\ byte_at (buf ctx') 3 = Some xff.
Proof.
  intros ctx.
  destruct (do_negative_integer_prefills (little_endian_build 8) ctx)
    as (ctx' & Hrun & Hff & Hcur).
  - split; reflexivity.
  - unfold cursors_in_range; vm_compute; intuition discriminate.
  - vm_compute; reflexivity.
  - reflexivity.
  - vm_compute; discriminate.
  - vm_compute; reflexivity.
  - exists ctx'. split; [exact Hrun|]. split; [|split].
    + apply Hcur. reflexivity.
    + reflexivity.
    + apply Hff. vm_compute. split; [discriminate|reflexivity].
Defined.

(** ** Running the loop *)

Lemma decode_loop_exit (P : platform) (fuel : nat) (maxitem item : Z)
    (ctx : decode_context) :
  (msgidx ctx <? msgsize ctx) && (bufidx ctx <? bufsize ctx) = false ->
  decode_loop P (S fuel) maxitem item ctx = Ok (CBOR_SUCCESS, ctx).
Proof.
  intros H. cbn [decode_loop]. rewrite H. reflexivity.
Qed.

Lemma decode_loop_unfold (P : platform) (fuel : nat) (maxitem item : Z)
    (ctx : decode_context) (h : byte) :
  msgidx ctx < msgsize ctx -> bufidx ctx < bufsize ctx ->
  byte_at (msg ctx) (msgidx ctx) = Some h ->
  decode_loop P (S fuel) maxitem item ctx
  = let ctxh := set_header (get_major_type h) (get_additional_info h)
                  (get_following_bytes (get_additional_info h)) ctx in
    match has_valid_buffers_for_following_bytes ctxh with
    | Some err => Ok (err, ctxh)
    | None =>
        match callbacks P (fun n => decode_loop P fuel n 0)
                (major_type ctxh) ctxh with
        | Ok (err, ctx1) =>
            let next :=
              if (usize (item + 1) >=? maxitem) && (maxitem >? 0)
              then Ok (CBOR_SUCCESS, ctx1)
              else decode_loop P fuel maxitem (usize (item + 1)) ctx1 in
            match err with
            | CBOR_BREAK =>
                if msgidx ctx1 =? msgsize ctx1 then Ok (CBOR_BREAK, ctx1)
                else next
            | CBOR_SUCCESS => next
            | _ => Ok (err, ctx1)
            end
        | Fault => Fault
        | OutOfFuel => OutOfFuel
        end
    end.
Proof.
  intros Hm Hb Hh. cbn [decode_loop].
  apply Z.ltb_lt in Hm, Hb. rewrite Hm, Hb. cbn [andb].
  unfold load. rewrite Hh. reflexivity.
Qed.

Lemma decode_cbor_with_unfold (P : platform) (loop : Z -> M cbor_error_t)
    (maxitem : Z) (ctx : decode_context) :
  0 <= recursion_depth ctx < CBOR_RECURSION_MAX_LEVEL P ->
  CBOR_RECURSION_MAX_LEVEL P < 256 ->
  decode_cbor_with P loop maxitem ctx
  = match loop maxitem (set_recursion_depth (recursion_depth ctx + 1) ctx) with
    | Ok (err, ctx1) =>
        Ok (err, set_recursion_depth (u8 (recursion_depth ctx1 - 1)) ctx1)
    | Fault => Fault
    | OutOfFuel => OutOfFuel
    end.
Proof.
  intros Hd Hmax. unfold decode_cbor_with. monad_unfold. ctx_simpl.
  rewrite u8_small by lia.
  destruct (Z.gtb_spec (recursion_depth ctx + 1) (CBOR_RECURSION_MAX_LEVEL P));
    [lia|].
  destruct (loop maxitem _) as [[err ctx1]| |]; reflexivity.
Qed.

Lemma cbor_decode_finish (P : platform) (buf_ msg_ : list byte)
    (err : cbor_error_t) (ctx : decode_context) :
  decode_cbor P (decode_fuel msg_) 0 (initial_context buf_ msg_)
  = Ok (err, ctx) ->
  cbor_decode_ctx P buf_ msg_ = Ok (finish err ctx, ctx).
Proof.
  intros H. unfold cbor_decode_ctx. rewrite H. reflexivity.
Qed.

Lemma cbor_decode_ctx_single (P : platform) (b m : list byte) (h : byte)
    (ctx1 : decode_context) :
  1 <= CBOR_RECURSION_MAX_LEVEL P < 256 ->
  0 < Z.of_nat (length b) ->
  byte_at m 0 = Some h ->
  let ch := set_header (get_major_type h) (get_additional_info h)
              (get_following_bytes (get_additional_info h))
              (set_recursion_depth 1 (initial_context b m)) in
  has_valid_buffers_for_following_bytes ch = None ->
  (forall loop, callbacks P loop (get_major_type h) ch
                = Ok (CBOR_SUCCESS, ctx1)) ->
  (msgidx ctx1 <? msgsize ctx1) && (bufidx ctx1 <? bufsize ctx1) = false ->
  let ctx' := set_recursion_depth (u8 (recursion_depth ctx1 - 1)) ctx1 in
  cbor_decode_ctx P b m = Ok (finish CBOR_SUCCESS ctx', ctx').
Proof.
  intros Hmax Hb Hh ch Hv Hcb Hend ctx'.
  destruct m as [|h0 m']; [discriminate|].
  unfold cbor_decode_ctx, decode_cbor.
  rewrite decode_cbor_with_unfold
    by (cbn [recursion_depth initial_context]; lia).
  cbn [recursion_depth initial_context]. change (0 + 1) with 1.
  unfold decode_fuel.
  rewrite (decode_loop_unfold P _ 0 0 _ h);
    [|cbn [msgidx msgsize set_recursion_depth initial_context length]; lia
     |cbn [bufidx bufsize set_recursion_depth initial_context]; lia
     |exact Hh].
  cbv zeta. fold ch. rewrite Hv.
  replace (major_type ch) with (get_major_type h) by reflexivity.
  rewrite Hcb.
  change ((usize (0 + 1) >=? 0) && (0 >? 0)) with false. cbv iota.
  cbn [length]. rewrite decode_loop_exit by exact Hend.
  reflexivity.
Qed.

(** ** Every call returns *)

Lemma call_state_cursors (ctx : decode_context) :
  call_state ctx -> cursors_in_range ctx /\ arrays_match ctx.
Proof.
  intros ((Ha & Hm & Hb & Hbs & Hms) & Hml & Hbl & _ & Hf).
  split; [|exact Ha]. unfold cursors_in_range.
  change INDEFINITE_VALUE with 255 in Hf. lia.
Qed.

Lemma handler_returns_weaken (slack slack' : Z) (ctx : decode_context)
    (r : result (cbor_error_t * decode_context)) :
  slack <= slack' -> handler_returns slack ctx r ->
  handler_returns slack' ctx r.
Proof.
  intros Hle (err & ctx' & Hr & Hinv & Hsame & Hmono & Hprog & Hw).
  exists err, ctx'. repeat split; try assumption; try apply Hinv;
    try apply Hsame. lia.
Qed.

Lemma do_tag_returns (ctx : decode_context) :
  call_state ctx -> handler_returns 0 ctx (do_tag ctx).
Proof.
  intros (Hinv & Hml & Hbl & _). exists CBOR_INVALID, ctx.
  split; [reflexivity|]. split; [exact Hinv|].
  split; [repeat split|]. split; [lia|].
  split; [intros [H|H]; discriminate|lia].
Qed.

Lemma do_unsigned_integer_returns (P : platform) (ctx : decode_context) :
  call_state ctx -> handler_returns 0 ctx (do_unsigned_integer P ctx).
Proof.
  intros Hc. destruct (call_state_cursors ctx Hc) as (Hr & Ha).
  destruct Hc as (Hinv & Hml & Hbl & Hv & Hf).
  destruct (Z.eq_dec (following_bytes ctx) INDEFINITE_VALUE) as [Hi|Hi].
  - exists CBOR_ILLEGAL, ctx. unfold do_unsigned_integer. monad_unfold.
    rewrite Hi. cbn [Z.eqb Pos.eqb INDEFINITE_VALUE].
    split; [reflexivity|]. split; [exact Hinv|].
    split; [repeat split|]. split; [lia|].
    split; [intros [H|H]; discriminate|].
    destruct (negative_promoted P ctx); lia.
  - destruct (do_unsigned_integer_spec P ctx Ha Hr Hbl Hv Hi)
      as (b' & Hrun & Hlb & _).
    destruct (has_valid_buffers_None ctx Hr Hv Hi) as (_ & Hin & Hout).
    destruct Hinv as ((Hbs & Hms) & Hm & Hb & Hbsz & Hmsz).
    eexists _, _. split; [exact Hrun|].
    unfold loop_invariant, arrays_match, same_arrays. ctx_simpl.
    destruct Hf as [Hf|Hf]; [|contradiction].
    repeat split; try lia; try reflexivity.
Qed.

Lemma do_negative_integer_returns (P : platform) (ctx : decode_context) :
  call_state ctx ->
  handler_returns (if negative_promoted P ctx then 8 else 0) ctx
    (do_negative_integer P ctx).
Proof.
  intros Hc. destruct (call_state_cursors ctx Hc) as (Hr & Ha).
  destruct Hc as (Hinv & Hml & Hbl & Hv & Hf).
  destruct (Z.eq_dec (following_bytes ctx) INDEFINITE_VALUE) as [Hi|Hi].
  - exists CBOR_ILLEGAL, ctx.
    unfold do_negative_integer, do_unsigned_integer. monad_unfold.
    rewrite Hi. cbn [Z.eqb Pos.eqb INDEFINITE_VALUE].
    split; [reflexivity|]. split; [exact Hinv|].
    split; [repeat split|]. split; [lia|].
    split; [intros [H|H]; discriminate|].
    destruct (negative_promoted P ctx); lia.
  - destruct Hf as [Hf|Hf]; [|contradiction].
    destruct Hinv as ((Hbs & Hms) & Hm & Hb & Hbsz & Hmsz).
    destruct (do_negative_integer_spec P ctx Ha Hr Hbl Hv)
      as (b' & Hrun & Hlb & _); [lia|lia|].
    destruct (has_valid_buffers_None ctx Hr Hv Hi) as (_ & Hin & Hout).
    eexists _, _. split; [exact Hrun|].
    unfold loop_invariant, arrays_match, same_arrays. ctx_simpl.
    unfold negative_data_size.
    destruct (negative_promoted P ctx);
      repeat split; try lia; try reflexivity.
Qed.

Lemma go_get_item_length_returns (P : platform) (ctx : decode_context) :
  call_state ctx ->
  exists len offset,
    go_get_item_length P ctx
    = Ok (len, set_msgidx (msgidx ctx + (offset + 1)) ctx)
    /\ 0 <= len < 2 ^ 64
    /\ 0 <= offset /\ msgidx ctx + (offset + 1) <= msgsize ctx.
Proof.
  intros Hc. destruct (call_state_cursors ctx Hc) as (Hr & Ha).
  destruct Hc as (Hinv & Hml & Hbl & Hv & Hf).
  destruct Hinv as ((Hbs & Hms) & Hm & Hb & Hbsz & Hmsz).
  unfold go_get_item_length. monad_unfold.
  destruct (Z.eqb_spec (following_bytes ctx) INDEFINITE_VALUE) as [Hi|Hi].
  - exists (usize 0), 0. ctx_simpl. rewrite (usize_small (_ + _)) by lia.
    split; [reflexivity|]. split; [vm_compute; intuition discriminate|]. lia.
  - destruct Hf as [Hf|Hf]; [|contradiction].
    destruct (has_valid_buffers_None ctx Hr Hv Hi) as (_ & Hin & Hout).
    destruct (Z.eqb_spec (following_bytes ctx) 0) as [E0|E0].
    + exists (usize (additional_info ctx)), 0. ctx_simpl.
      rewrite (usize_small (_ + _)) by lia.
      split; [reflexivity|].
      split; [apply Z.mod_pos_bound; reflexivity|]. lia.
    + assert (Hcopy : exists m', copy_data P zero_u64 0 (msg ctx)
                                   (msgidx ctx + 1) (following_bytes ctx)
                                 = Ok m').
      { unfold copy_data, copy_data_be, copy_data_le.
        destruct (CBOR_BIG_ENDIAN P).
        - apply copy_be_loop_safe; cbn [length zero_u64]; lia.
        - apply copy_le_loop_safe; cbn [length zero_u64]; lia. }
      destruct Hcopy as (m' & Hm').
      exists (usize (u64_of_mem P m')), (following_bytes ctx).
      rewrite Hm'. ctx_simpl. rewrite (usize_small (_ + _)) by lia.
      split; [reflexivity|].
      split; [apply Z.mod_pos_bound; reflexivity|]. lia.
Qed.

Lemma do_string_returns (P : platform) (ctx : decode_context) :
  call_state ctx -> handler_returns 0 ctx (do_string P ctx).
Proof.
  intros Hc.
  destruct (go_get_item_length_returns P ctx Hc)
    as (len & offset & Hlen & Hl & Ho & Hom).
  destruct Hc as (Hinv & Hml & Hbl & Hv & Hf).
  destruct Hinv as ((Hbs & Hms) & Hm & Hb & Hbsz & Hmsz).
  unfold do_string. monad_unfold. rewrite Hlen. ctx_simpl.
  rewrite (usize_small (bufsize ctx - bufidx ctx)) by lia.
  rewrite (usize_small (msgsize ctx - _)) by lia.
  rewrite MIN_min.
  destruct (Z.gtb_spec len
              (Z.min (bufsize ctx - bufidx ctx)
                 (msgsize ctx - (msgidx ctx + (offset + 1))))) as [Hbig|Hfit].
  - eexists _, _. split; [reflexivity|].
    unfold loop_invariant, arrays_match, same_arrays. ctx_simpl.
    repeat split; try lia; try reflexivity.
  - rewrite copy_string_loop_eq.
    destruct (copy_be_loop_safe (Z.to_nat len) 0 (buf ctx) (bufidx ctx)
                (msg ctx) (msgidx ctx + (offset + 1))) as (b' & Hb'); try lia.
    rewrite Hb'. ctx_simpl. apply copy_be_loop_Ok in Hb'.
    destruct Hb' as (Hlb & _).
    rewrite !usize_small by lia.
    eexists _, _. split; [reflexivity|].
    unfold loop_invariant, arrays_match, same_arrays. ctx_simpl.
    repeat split; try lia; try reflexivity.
Qed.

Lemma do_float_and_other_returns (P : platform) (ctx : decode_context) :
  call_state ctx -> handler_returns 0 ctx (do_float_and_other P ctx).
Proof.
  intros Hc. destruct (call_state_cursors ctx Hc) as (Hr & Ha).
  pose proof Hc as (Hinv & Hml & Hbl & Hv & Hf).
  destruct Hinv as ((Hbs & Hms) & Hm & Hb & Hbsz & Hmsz).
  unfold do_float_and_other. monad_unfold.
  destruct (Z.eqb_spec (following_bytes ctx) INDEFINITE_VALUE) as [Hi|Hi].
  { eexists _, _. split; [reflexivity|].
    unfold loop_invariant, arrays_match, same_arrays. ctx_simpl.
    rewrite !usize_small by lia.
    repeat split; try lia; try reflexivity. }
  destruct Hf as [Hf|Hf]; [|contradiction].
  destruct (has_valid_buffers_None ctx Hr Hv Hi) as (_ & Hin & Hout).
  match goal with
  | |- handler_returns _ _ (match ?x with
                          | Ok p => @?t p
                          | Fault => _
                          | OutOfFuel => _
                          end) => set (tail := fun c => t (tt, c))
  end.
  assert (Htail : forall c, call_state c ->
            following_bytes c <> INDEFINITE_VALUE ->
            exists err c',
              tail c = Ok (err, c') /\ loop_invariant c' /\
              same_arrays c c' /\ msgidx c < msgidx c' /\
              bufidx c' <= bufsize c').
  { clear. intros c Hc Hi. destruct (call_state_cursors c Hc) as (Hr & Ha).
    destruct Hc as (Hinv & Hml & Hbl & Hv & Hf).
    destruct Hinv as ((Hbs & Hms) & Hm & Hb & Hbsz & Hmsz).
    destruct Hf as [Hf|Hf]; [|contradiction].
    destruct (has_valid_buffers_None c Hr Hv Hi) as (_ & Hin & Hout).
    destruct (do_unsigned_integer_spec P c Ha Hr Hbl Hv Hi)
      as (b' & Hrun & Hlb & _).
    subst tail. cbv beta iota. rewrite Hv, Hrun. ctx_simpl.
    destruct (Z.eqb_spec (following_bytes c) 0) as [E0|E0].
    - rewrite E0.
      replace (usize (bufidx c + Z.max 1 0 - 1)) with (bufidx c)
        by (rewrite usize_small; lia).
      destruct (load_in_range b' (bufidx c)) as (x & Hx); [lia|].
      ctx_simpl. rewrite Hx. ctx_simpl.
      rewrite store_in_range by lia. ctx_simpl.
      eexists _, _. split; [reflexivity|].
      unfold loop_invariant, arrays_match, same_arrays. ctx_simpl.
      rewrite length_insert.
      repeat split; try lia; try reflexivity.
    - eexists _, _. split; [reflexivity|].
      unfold loop_invariant, arrays_match, same_arrays. ctx_simpl.
      repeat split; try lia; try reflexivity. }
  destruct (Z.eqb_spec (following_bytes ctx) 1) as [E1|E1].
  - ctx_simpl. rewrite (usize_small (msgidx ctx + 1)) by lia.
    destruct (load_in_range (msg ctx) (msgidx ctx + 1)) as (x & Hx); [lia|].
    rewrite Hx. ctx_simpl.
    destruct (Htail (set_additional_info (byte_to_Z x)
                       (set_msgidx (msgidx ctx + 1)
                          (set_following_bytes 0 ctx))))
      as (err & c' & Ht & Hinv' & Hsame & Hprog & Hwithin).
    + unfold call_state, loop_invariant, arrays_match. ctx_simpl.
      repeat split; try lia.
      apply has_valid_buffers_pass;
        [unfold cursors_in_range; ctx_simpl; lia|discriminate
        |ctx_simpl; lia|ctx_simpl; lia].
    + discriminate.
    + exists err, c'. split; [exact Ht|]. split; [exact Hinv'|].
      unfold same_arrays in *. ctx_simpl.
      repeat split; try tauto; ctx_simpl; lia.
  - destruct (Htail ctx Hc Hi)
      as (err & c' & Ht & Hinv' & Hsame & Hprog & Hwithin).
    exists err, c'. split; [exact Ht|]. split; [exact Hinv'|].
    split; [exact Hsame|]. repeat split; lia.
Qed.

Lemma same_arrays_trans (a b c : decode_context) :
  same_arrays a b -> same_arrays b c -> same_arrays a c.
Proof.
  intros (A1 & A2 & A3 & A4) (B1 & B2 & B3 & B4).
  repeat split; congruence.
Qed.

Lemma do_recursive_returns (P : platform) (fuel : nat)
    (ctx : decode_context) :
  loop_returns P fuel ->
  call_state ctx -> msgsize ctx - msgidx ctx < Z.of_nat (S fuel) ->
  handler_returns 8 ctx
    (do_recursive P (fun n => decode_loop P fuel n 0) ctx).
Proof.
  intros IH Hc Hfuel.
  destruct (go_get_item_length_returns P ctx Hc)
    as (len & offset & Hlen & Hl & Ho & Hom).
  destruct Hc as (Hinv & Hml & Hbl & Hv & Hf).
  destruct Hinv as ((Hbs & Hms) & Hm & Hb & Hbsz & Hmsz).
  unfold do_recursive, decode_cbor_with. monad_unfold.
  rewrite Hlen. ctx_simpl.
  destruct (_ >? _).
  - eexists _, _. split; [reflexivity|].
    unfold loop_invariant, arrays_match, same_arrays. ctx_simpl.
    repeat split; try lia; try reflexivity.
  - destruct (IH len 0
                (set_recursion_depth (u8 (recursion_depth ctx + 1))
                   (set_msgidx (msgidx ctx + (offset + 1)) ctx)))
      as (err & c' & Hrun & Hinv' & Hsame & Hmono).
    + unfold loop_invariant, arrays_match. ctx_simpl. repeat split; lia.
    + ctx_simpl. lia.
    + rewrite Hrun. ctx_simpl.
      destruct Hinv' as ((Hbs' & Hms') & Hm' & Hb' & Hbsz' & Hmsz').
      destruct Hsame as (S1 & S2 & S3 & S4). ctx_simpl.
      eexists _, _. split; [reflexivity|].
      unfold loop_invariant, arrays_match, same_arrays. ctx_simpl.
      repeat split; try lia; try assumption.
Qed.

Lemma callbacks_returns (P : platform) (fuel : nat) (ctx : decode_context) :
  loop_returns P fuel ->
  call_state ctx -> msgsize ctx - msgidx ctx < Z.of_nat (S fuel) ->
  0 <= major_type ctx < 8 ->
  handler_returns 8 ctx
    (callbacks P (fun n => decode_loop P fuel n 0) (major_type ctx) ctx).
Proof.
  intros IH Hc Hfuel Hmt.
  assert (Hcase : major_type ctx = 0 \/ major_type ctx = 1
                  \/ major_type ctx = 2 \/ major_type ctx = 3
                  \/ major_type ctx = 4 \/ major_type ctx = 5
                  \/ major_type ctx = 6 \/ major_type ctx = 7) by lia.
  destruct Hcase as [E|[E|[E|[E|[E|[E|[E|E]]]]]]]; rewrite E;
    cbn [callbacks].
  - apply (handler_returns_weaken 0); [lia|].
    apply do_unsigned_integer_returns; exact Hc.
  - apply (handler_returns_weaken (if negative_promoted P ctx then 8 else 0));
      [destruct (negative_promoted P ctx); lia|].
    apply do_negative_integer_returns; exact Hc.
  - apply (handler_returns_weaken 0); [lia|].
    apply do_string_returns; exact Hc.
  - apply (handler_returns_weaken 0); [lia|].
    apply do_string_returns; exact Hc.
  - apply do_recursive_returns; assumption.
  - apply do_recursive_returns; assumption.
  - apply (handler_returns_weaken 0); [lia|].
    apply do_tag_returns; exact Hc.
  - apply (handler_returns_weaken 0); [lia|].
    apply do_float_and_other_returns; exact Hc.
Qed.

Lemma decode_loop_returns (P : platform) (fuel : nat) : loop_returns P fuel.
Proof.
  induction fuel as [|fuel IH]; intros maxitem item ctx Hinv Hfuel.
  - destruct Hinv as (_ & Hm & _). lia.
  - destruct ((msgidx ctx <? msgsize ctx) && (bufidx ctx <? bufsize ctx))
      eqn:Econd.
    2:{ rewrite decode_loop_exit by exact Econd.
        exists CBOR_SUCCESS, ctx. split; [reflexivity|].
        split; [exact Hinv|]. split; [repeat split|lia]. }
    apply andb_true_iff in Econd. destruct Econd as (Hml & Hbl).
    apply Z.ltb_lt in Hml, Hbl.
    pose proof Hinv as ((Hbs & Hms) & Hm & Hb & Hbsz & Hmsz).
    destruct (byte_at_in_range (msg ctx) (msgidx ctx)) as (h & Hh); [lia|].
    rewrite (decode_loop_unfold P fuel maxitem item ctx h Hml Hbl Hh).
    cbv zeta.
    set (ch := set_header (get_major_type h) (get_additional_info h)
                 (get_following_bytes (get_additional_info h)) ctx).
    assert (Hinvh : loop_invariant ch) by exact Hinv.
    assert (Hsameh : same_arrays ctx ch) by (repeat split).
    destruct (has_valid_buffers_for_following_bytes ch) as [e|] eqn:Ev.
    { exists e, ch. split; [reflexivity|]. split; [exact Hinvh|].
      split; [exact Hsameh|]. cbn [msgidx ch set_header]. lia. }
    destruct (get_header_fields h) as (Hmt & Hai).
    assert (Hcs : call_state ch).
    { split; [exact Hinvh|]. split; [exact Hml|]. split; [exact Hbl|].
      split; [exact Ev|].
      cbn [following_bytes ch set_header].
      destruct (Z.lt_ge_cases (get_additional_info h) 28) as [Hlt|Hge].
      - left. destruct (get_following_bytes_count (get_additional_info h));
          lia.
      - destruct (Z.eq_dec (get_additional_info h) 31) as [E31|N31].
        + right. rewrite E31. reflexivity.
        + exfalso. unfold has_valid_buffers_for_following_bytes in Ev.
          cbn [following_bytes ch set_header] in Ev.
          assert (Hr : get_following_bytes (get_additional_info h)
                       = RESERVED_VALUE).
          { unfold get_following_bytes.
            destruct (Z.ltb_spec (get_additional_info h) 24); [lia|].
            destruct (Z.eqb_spec (get_additional_info h) 31); [lia|].
            destruct (Z.geb_spec (get_additional_info h) 28);
              [reflexivity|lia]. }
          rewrite Hr in Ev. discriminate. }
    destruct (callbacks_returns P fuel ch IH Hcs) as
      (err & c1 & Hrun & Hinv1 & Hsame1 & Hmono1 & Hprog1 & _);
      [exact Hfuel|exact Hmt|].
    rewrite Hrun.
    assert (Hnext : err = CBOR_SUCCESS \/ err = CBOR_BREAK ->
              exists err' ctx',
                (if (usize (item + 1) >=? maxitem) && (maxitem >? 0)
                 then Ok (CBOR_SUCCESS, c1)
                 else decode_loop P fuel maxitem (usize (item + 1)) c1)
                = Ok (err', ctx') /\
                loop_invariant ctx' /\ same_arrays ctx ctx' /\
                msgidx ctx <= msgidx ctx').
    { intros He. specialize (Hprog1 He).
      pose proof (same_arrays_trans ctx ch c1 Hsameh Hsame1) as Hs1.
      destruct ((usize (item + 1) >=? maxitem) && (maxitem >? 0)).
      - exists CBOR_SUCCESS, c1. split; [reflexivity|].
        split; [exact Hinv1|]. split; [exact Hs1|].
        cbn [msgidx ch set_header] in *. lia.
      - destruct (IH maxitem (usize (item + 1)) c1 Hinv1)
          as (err' & c' & Hrun' & Hinv' & Hsame' & Hmono').
        + destruct Hs1 as (S1 & _). rewrite S1.
          cbn [msgidx msgsize ch set_header] in *. lia.
        + exists err', c'. split; [exact Hrun'|]. split; [exact Hinv'|].
          split; [exact (same_arrays_trans ctx c1 c' Hs1 Hsame')|].
          cbn [msgidx ch set_header] in *. lia. }
    assert (Hstop : exists err' ctx',
              Ok (err, c1) = Ok (err', ctx') /\
              loop_invariant ctx' /\ same_arrays ctx ctx' /\
              msgidx ctx <= msgidx ctx').
    { exists err, c1. split; [reflexivity|]. split; [exact Hinv1|].
      split; [exact (same_arrays_trans ctx ch c1 Hsameh Hsame1)|].
      cbn [msgidx ch set_header] in *. lia. }
    destruct err; try exact Hstop; try (apply Hnext; auto).
    destruct (msgidx c1 =? msgsize c1); [exact Hstop|apply Hnext; auto].
Qed.

(** The entry point always returns a result code: the fuel [decode_fuel]
    is enough, and no handler reads or writes outside the message or the
    output buffer. *)
Theorem cbor_decode_returns (P : platform) (buf_ msg_ : list byte) :
  Z.of_nat (length buf_) + 16 < 2 ^ 64 ->
  Z.of_nat (length msg_) + 16 < 2 ^ 64 ->
  exists err ctx,
    cbor_decode_ctx P buf_ msg_ = Ok (err, ctx)
    /\ cbor_decode P buf_ msg_ = Ok err
    /\ length (buf ctx) = length buf_
    /\ 0 <= msgidx ctx <= Z.of_nat (length msg_).
Proof.
  intros Hb Hm.
  assert (Hctx : exists err ctx,
            decode_cbor P (decode_fuel msg_) 0 (initial_context buf_ msg_)
            = Ok (err, ctx)
            /\ length (buf ctx) = length buf_
            /\ 0 <= msgidx ctx <= Z.of_nat (length msg_)).
  { unfold decode_cbor, decode_cbor_with. monad_unfold. ctx_simpl.
    destruct (_ >? _).
    - eexists _, _. split; [reflexivity|].
      cbn [buf msgidx set_recursion_depth initial_context].
      split; [reflexivity|lia].
    - destruct (decode_loop_returns P (decode_fuel msg_) 0 0
                  (set_recursion_depth
                     (u8 (recursion_depth (initial_context buf_ msg_) + 1))
                     (initial_context buf_ msg_)))
        as (err & c & Hrun & Hinv & Hsame & Hmono).
      + unfold loop_invariant, arrays_match.
        cbn [buf bufsize bufidx msg msgsize msgidx set_recursion_depth
             initial_context].
        repeat split; lia.
      + cbn [msgsize msgidx set_recursion_depth initial_context].
        unfold decode_fuel. lia.
      + rewrite Hrun. ctx_simpl. eexists _, _. split; [reflexivity|].
        destruct Hsame as (S1 & S2 & S3 & S4).
        destruct Hinv as (_ & Hmi & _).
        cbn [buf msgidx msgsize set_recursion_depth initial_context] in *.
        split; [exact S4|]. lia. }
  destruct Hctx as (err & ctx & Hrun & Hl & Hi).
  exists (finish err ctx), ctx. unfold cbor_decode, cbor_decode_ctx.
  rewrite Hrun. cbn [rbind fst]. repeat split; try assumption; lia.
Qed.

(** ** The entry point *)

(** C7: when the decode loop hands Success to the entry point, the entry
    point returns Overrun if the read cursor is before the end of the input,
    otherwise OutputExhausted if the write cursor is below the capacity,
    otherwise Success. *)
Theorem cbor_decode_after_success (P : platform) (buf_ msg_ : list byte)
    (ctx : decode_context) :
  decode_cbor P (decode_fuel msg_) 0 (initial_context buf_ msg_)
  = Ok (CBOR_SUCCESS, ctx) ->
  cbor_decode P buf_ msg_
  = Ok (if msgidx ctx <? msgsize ctx then CBOR_OVERRUN
        else if bufidx ctx <? bufsize ctx then CBOR_UNDERRUN
        else CBOR_SUCCESS).
Proof.
  intros H. unfold cbor_decode.
  rewrite (cbor_decode_finish P buf_ msg_ CBOR_SUCCESS ctx H).
  reflexivity.
Qed.

Lemma cbor_decode_after_success_witness :
  cbor_decode (little_endian_build 8) [x00] [x01; x02] = Ok CBOR_OVERRUN
  /\ cbor_decode (little_endian_build 8) [x00; x00; x00] [x01; x02]
     = Ok CBOR_UNDERRUN
  /\ cbor_decode (little_endian_build 8) [x00; x00] [x01; x02]
     = Ok CBOR_SUCCESS.
Proof.
  split; [|split].
  - apply (cbor_decode_after_success (little_endian_build 8) [x00] [x01; x02]
             {| buf := [x01]; bufsize := 1; bufidx := 1;
                msg := [x01; x02]; msgsize := 2; msgidx := 1;
                major_type := 0; additional_info := 1; following_bytes := 0;
                recursion_depth := 0 |}).
    vm_compute. reflexivity.
  - apply (cbor_decode_after_success (little_endian_build 8)
             [x00; x00; x00] [x01; x02]
             {| buf := [x01; x02; x00]; bufsize := 3; bufidx := 2;
                msg := [x01; x02]; msgsize := 2; msgidx := 2;
                major_type := 0; additional_info := 2; following_bytes := 0;
                recursion_depth := 0 |}).
    vm_compute. reflexivity.
  - apply (cbor_decode_after_success (little_endian_build 8)
             [x00; x00] [x01; x02]
             {| buf := [x01; x02]; bufsize := 2; bufidx := 2;
                msg := [x01; x02]; msgsize := 2; msgidx := 2;
                major_type := 0; additional_info := 2; following_bytes := 0;
                recursion_depth := 0 |}).
    vm_compute. reflexivity.
Defined.

(** C9: on an empty message the entry point leaves the output buffer and
    the write cursor as they were, and returns Success for an empty buffer
    and OutputExhausted for any other (in a build that allows at least one
    level of recursion). *)
Theorem cbor_decode_empty_message (P : platform) (buf_ : list byte) :
  1 <= CBOR_RECURSION_MAX_LEVEL P ->
  exists ctx,
    cbor_decode_ctx P buf_ [] = Ok (match buf_ with
                                    | [] => CBOR_SUCCESS
                                    | _ :: _ => CBOR_UNDERRUN
                                    end, ctx)
    /\ buf ctx = buf_ /\ bufidx ctx = 0.
Proof.
  intros Hlvl.
  unfold cbor_decode_ctx, decode_cbor, decode_cbor_with, bind, modify, get, ret.
  cbn [recursion_depth set_recursion_depth initial_context].
  change (u8 (0 + 1)) with 1.
  replace (1 >? CBOR_RECURSION_MAX_LEVEL P) with false
    by (symmetry; rewrite Z.gtb_ltb; apply Z.ltb_ge; lia).
  unfold decode_fuel.
  rewrite decode_loop_exit by reflexivity.
  cbn [set_recursion_depth recursion_depth].
  exists (set_recursion_depth (u8 (1 - 1))
            (set_recursion_depth 1 (initial_context buf_ []))).
  split; [|split; reflexivity].
  unfold finish.
  cbn [msgidx msgsize bufidx bufsize initial_context set_recursion_depth].
  destruct buf_; reflexivity.
Qed.

Lemma cbor_decode_empty_message_witness :
  cbor_decode (little_endian_build 8) [] [] = Ok CBOR_SUCCESS
  /\ cbor_decode (little_endian_build 8) [x2a; x2a] [] = Ok CBOR_UNDERRUN.
Proof.
  split.
  - destruct (cbor_decode_empty_message (little_endian_build 8) [])
      as (ctx & H & _); [simpl; lia|].
    unfold cbor_decode. rewrite H. reflexivity.
  - destruct (cbor_decode_empty_message (little_endian_build 8) [x2a; x2a])
      as (ctx & H & _); [simpl; lia|].
    unfold cbor_decode. rewrite H. reflexivity.
Defined.

(** ** The Break code *)

(** The loop gives up with Break only where it has tested that the read
    cursor is at the end of the message. *)
Lemma decode_loop_break (P : platform) (fuel : nat) :
  forall (maxitem item : Z) (ctx ctx' : decode_context),
    decode_loop P fuel maxitem item ctx = Ok (CBOR_BREAK, ctx') ->
    msgidx ctx' = msgsize ctx'.
Proof.
  induction fuel as [|fuel IH]; intros maxitem item ctx ctx' H.
  - discriminate.
  - cbn [decode_loop] in H.
    destruct ((msgidx ctx <? msgsize ctx) && (bufidx ctx <? bufsize ctx));
      [|discriminate].
    destruct (load (msg ctx) (msgidx ctx)) as [h| |]; try discriminate.
    cbv zeta in H.
    destruct (has_valid_buffers_for_following_bytes _) as [e|] eqn:Ev.
    { apply has_valid_buffers_errors in Ev. injection H as He _.
      destruct Ev; congruence. }
    destruct (callbacks P _ _ _) as [[err ctx1]| |]; try discriminate.
    assert (Hnext :
      (if (usize (item + 1) >=? maxitem) && (maxitem >? 0)
       then Ok (CBOR_SUCCESS, ctx1)
       else decode_loop P fuel maxitem (usize (item + 1)) ctx1)
      = Ok (CBOR_BREAK, ctx') -> msgidx ctx' = msgsize ctx').
    { destruct ((usize (item + 1) >=? maxitem) && (maxitem >? 0));
        [discriminate|]. apply IH. }
    destruct err; try discriminate; try (apply Hnext; exact H).
    destruct (Z.eqb_spec (msgidx ctx1) (msgsize ctx1)) as [E|E].
    + injection H as <-. exact E.
    + apply Hnext. exact H.
Qed.

Lemma decode_cbor_break (P : platform) (fuel : nat) (maxitem : Z)
    (ctx ctx' : decode_context) :
  decode_cbor P fuel maxitem ctx = Ok (CBOR_BREAK, ctx') ->
  msgidx ctx' = msgsize ctx'.
Proof.
  unfold decode_cbor, decode_cbor_with. monad_unfold. ctx_simpl.
  destruct (_ >? _); [discriminate|].
  destruct (decode_loop P fuel maxitem 0 _) as [[err ctx1]| |] eqn:El;
    try discriminate.
  intros [= -> <-]. ctx_simpl.
  apply (decode_loop_break P fuel _ _ _ _ El).
Qed.

Lemma finish_break (err : cbor_error_t) (ctx : decode_context) :
  finish err ctx = CBOR_BREAK -> err = CBOR_BREAK.
Proof.
  destruct err; cbn; try congruence.
  destruct (_ <? _); [discriminate|]. destruct (_ <? _); discriminate.
Qed.

(** C4, as the code has it: the entry point hands the loop's Break code to
    the caller unchanged.  The call returns Break, with the state the loop
    has left, exactly when [decode_cbor] has ended with Break; and it does
    so only when the read cursor has reached the end of the message. *)
Theorem cbor_decode_break (P : platform) (buf_ msg_ : list byte)
    (ctx : decode_context) :
  (decode_cbor P (decode_fuel msg_) 0 (initial_context buf_ msg_)
   = Ok (CBOR_BREAK, ctx)
   <-> cbor_decode_ctx P buf_ msg_ = Ok (CBOR_BREAK, ctx))
  /\ (cbor_decode_ctx P buf_ msg_ = Ok (CBOR_BREAK, ctx) ->
      msgidx ctx = msgsize ctx).
Proof.
  unfold cbor_decode_ctx.
  destruct (decode_cbor P (decode_fuel msg_) 0 (initial_context buf_ msg_))
    as [[err ctx1]| |] eqn:E.
  - split; [split|].
    + intros [= -> ->]. reflexivity.
    + intros [= He <-]. apply finish_break in He. subst err. reflexivity.
    + intros [= He <-]. apply finish_break in He. subst err.
      apply (decode_cbor_break P _ _ _ _ E).
  - split; [split|]; discriminate.
  - split; [split|]; discriminate.
Qed.

Lemma cbor_decode_break_witness :
  let ctx := {| buf := [x01; x00]; bufsize := 2; bufidx := 1;
                msg := [x9f; x01; xff]; msgsize := 3; msgidx := 3;
                major_type := 7; additional_info := 31;
                following_bytes := 255; recursion_depth := 0 |} in
  cbor_decode_ctx (little_endian_build 8) [x00; x00] [x9f; x01; xff]
  = Ok (CBOR_BREAK, ctx)
  /\ msgidx ctx = msgsize ctx.
Proof.
  intros ctx.
  destruct (cbor_decode_break (little_endian_build 8) [x00; x00]
              [x9f; x01; xff] ctx) as ((Hto & _) & Hend).
  split.
  - apply Hto. vm_compute. reflexivity.
  - apply Hend, Hto. vm_compute. reflexivity.
Defined.

(** The claim C4 as stated fails on the one-byte message 0xFF. *)
Lemma cbor_decode_returns_break :
  cbor_decode (little_endian_build 8) [x00] [xff] = Ok CBOR_BREAK.
Proof. vm_compute. reflexivity. Qed.

(** ** A short array *)


(** ** Negative integers in the little-endian build *)

(** The promotion test as a threshold: the top bit of an [fb]-byte number
    is set from [2 ^ (8 * fb - 1)] on, so 128 is promoted in one byte and
    127 is not. *)
Lemma spec_promotes_threshold (fb n : Z) :
  1 <= fb -> 0 <= n < 2 ^ (8 * fb) ->
  spec_promotes fb n = (fb <? 8) && (2 ^ (8 * fb - 1) <=? n).
Proof.
  intros Hfb Hn. unfold spec_promotes. f_equal.
  apply testbit_top; [lia|].
  replace (8 * fb - 1 + 1) with (8 * fb) by lia. exact Hn.
Qed.

Lemma cbor_decode_ctx_negative (P : platform) (b m : list byte) (h : byte) :
  1 <= CBOR_RECURSION_MAX_LEVEL P < 256 ->
  byte_at m 0 = Some h ->
  get_major_type h = 1 -> get_additional_info h < 28 ->
  let fb := get_following_bytes (get_additional_info h) in
  let ch := set_header 1 (get_additional_info h) fb
              (set_recursion_depth 1 (initial_context b m)) in
  Z.of_nat (length m) = fb + 1 ->
  Z.max 1 fb <= Z.of_nat (length b) -> Z.of_nat (length b) + 8 < 2 ^ 64 ->
  exists ctx',
    cbor_decode_ctx P b m
    = Ok (if bufidx ctx' <? Z.of_nat (length b)
          then CBOR_UNDERRUN else CBOR_SUCCESS, ctx')
    /\ bufidx ctx' = (if negative_promoted P ch
                      then 2 * negative_data_size ch
                      else negative_data_size ch)
    /\ length (buf ctx') = length b
    /\ forall j, byte_at (buf ctx') j = negative_output P ch j.
Proof.
  intros Hmax Hh Hmt Hai fb ch Hml Hcap Hbig.
  destruct (get_header_fields h) as (_ & Hai0).
  destruct (get_following_bytes_count (get_additional_info h) ltac:(lia))
    as (Hfb & Hfi & Hfr).
  fold fb in Hfb, Hfi, Hfr.
  assert (Hch : cursors_in_range ch).
  { unfold cursors_in_range. subst ch. ctx_simpl.
    cbn [msgidx msgsize bufidx bufsize initial_context]. lia. }
  assert (Ham : arrays_match ch) by (split; reflexivity).
  assert (Hv : has_valid_buffers_for_following_bytes ch = None).
  { apply has_valid_buffers_pass; [exact Hch|exact Hfr| |];
      subst ch; ctx_simpl;
      cbn [msgidx msgsize bufidx bufsize initial_context]; lia. }
  destruct (do_negative_integer_spec P ch Ham Hch) as (b' & Hrun & Hlb & Hout);
    [subst ch; cbn [bufidx bufsize set_header set_recursion_depth
                    initial_context]; lia
    |exact Hv
    |subst ch; ctx_simpl; lia
    |subst ch; cbn [bufidx bufsize set_header set_recursion_depth
                    initial_context]; lia|].
  set (ctx1 := set_msgidx (msgidx ch + (following_bytes ch + 1))
                 (set_bufidx
                    (bufidx ch + (if negative_promoted P ch
                                  then 2 * negative_data_size ch
                                  else negative_data_size ch))
                    (set_buf b' ch))) in *.
  exists (set_recursion_depth (u8 (recursion_depth ctx1 - 1)) ctx1).
  split; [|split; [|split]]; cycle 1.
  - subst ctx1. cbn [bufidx set_recursion_depth set_msgidx set_bufidx].
    replace (bufidx ch) with 0 by reflexivity. apply Z.add_0_l.
  - subst ctx1. cbn [buf set_recursion_depth set_msgidx set_bufidx set_buf].
    exact Hlb.
  - subst ctx1. cbn [buf set_recursion_depth set_msgidx set_bufidx set_buf].
    exact Hout.
  - rewrite (cbor_decode_ctx_single P b m h ctx1 Hmax); cycle 1.
    + lia.
    + exact Hh.
    + rewrite Hmt. fold fb. exact Hv.
    + intros loop. rewrite Hmt. cbn [callbacks]. fold fb. exact Hrun.
    + subst ctx1. cbn [msgidx msgsize set_msgidx set_bufidx set_buf].
      replace (msgidx ch) with 0 by reflexivity.
      replace (msgsize ch) with (Z.of_nat (length m)) by reflexivity.
      replace (following_bytes ch) with fb by reflexivity.
      destruct (Z.ltb_spec (0 + (fb + 1)) (Z.of_nat (length m)));
        [lia|reflexivity].
    + f_equal. f_equal. unfold finish. subst ctx1.
      cbn [msgidx msgsize bufidx bufsize set_msgidx set_bufidx set_buf
           set_recursion_depth].
      replace (msgidx ch) with 0 by reflexivity.
      replace (msgsize ch) with (Z.of_nat (length m)) by reflexivity.
      replace (following_bytes ch) with fb by reflexivity.
      replace (bufsize ch) with (Z.of_nat (length b)) by reflexivity.
      destruct (Z.ltb_spec (0 + (fb + 1)) (Z.of_nat (length m)));
        [lia|reflexivity].
Qed.

Ltac value_arith :=
  unfold twos_complement, u64;
  repeat match goal with
         | |- context [Z.lnot ?x] =>
             replace (Z.lnot x) with (- x - 1) by (unfold Z.lnot; lia)
         end;
  rewrite ?Z.shiftr_div_pow2 by lia;
  repeat match goal with
         | |- context [2 ^ ?k] =>
             let v := eval vm_compute in (2 ^ k) in change (2 ^ k) with v
         end;
  Z.div_mod_to_equations; lia.

(** The tail shared by the four widths: [Hval], [Hds] and [Hprom] relate the
    handler's view of the item to the number the payload spells. *)
Ltac negative_bytes P ch b ctx' Hout Hval Hds :=
  cbn [le_read]; rewrite !Hout;
  repeat first
    [ rewrite (negative_output_value P ch)
        by (rewrite ?Hds; change (bufidx ch) with 0; first [reflexivity|lia])
    | rewrite (negative_output_ff P ch)
        by (rewrite ?Hds, ?MIN_min; change (bufidx ch) with 0;
            change (bufsize ch) with (Z.of_nat (length b)); lia) ];
  rewrite ?Hval, ?Z_to_byte_to_Z, ?byte_to_Z_xff;
  change (bufidx ch) with 0.

Ltac negative_case lvl fb payload b Hlvl Hcap Hbig Hlen P ch Hvm :=
  let n := fresh "n" in
  let Hn := fresh "Hn" in
  let Hval := fresh "Hval" in
  let Hds := fresh "Hds" in
  let Hprom := fresh "Hprom" in
  let ctx' := fresh "ctx'" in
  let Hrun := fresh "Hrun" in
  let Hcur := fresh "Hcur" in
  let Hlb := fresh "Hlb" in
  let Hout := fresh "Hout" in
  let Ep := fresh "Ep" in
  let Hcase := fresh "Hcase" in
  pose proof (be_value_bound payload) as Hn;
  assert (Hval : negative_val P ch = be_value payload)
    by (unfold negative_val; rewrite Hvm; unfold u64_of_mem, be_value;
        cbn [host_big_endian P little_endian_build le_value rev app];
        rewrite ?byte_to_Z_x00; lia);
  remember (be_value payload) as n;
  cbn [length] in Hn;
  match type of Hn with
  | context [2 ^ ?k] =>
      let v := eval vm_compute in (2 ^ k) in change (2 ^ k) with v in Hn
  end;
  assert (Hds : negative_data_size ch = fb) by reflexivity;
  assert (Hprom : negative_promoted P ch = spec_promotes fb n)
    by (unfold negative_promoted, spec_promotes; rewrite Hval, Hds;
        change (u64 (Z.shiftl 1 (u8 (fb * 8 - 1)))) with (2 ^ (8 * fb - 1));
        rewrite land_pow2_testbit by lia; rewrite negb_involutive;
        reflexivity);
  destruct (cbor_decode_ctx_negative P b (negative_header fb :: payload)
              (negative_header fb))
    as (ctx' & Hrun & Hcur & Hlb & Hout);
    [exact Hlvl|reflexivity|reflexivity|vm_compute; reflexivity
    |reflexivity
    |change (Z.max 1 fb <= Z.of_nat (length b)); unfold spec_width in Hcap;
     destruct (spec_promotes fb n); lia
    |exact Hbig|];
  change (set_header 1 _ _ _) with ch in Hcur, Hout;
  rewrite Hprom, Hds in Hcur;
  exists ctx'; split; [|split];
  [ rewrite Hrun, Hcur; unfold spec_width in *;
    destruct (spec_promotes fb n);
      destruct (Z.ltb_spec (2 * fb) (Z.of_nat (length b)));
      destruct (Z.ltb_spec fb (Z.of_nat (length b)));
      destruct (Z.eqb_spec (Z.of_nat (length b)) (2 * fb));
      destruct (Z.eqb_spec (Z.of_nat (length b)) fb);
      try lia; reflexivity
  | exact Hcur
  | intros Hcase; unfold spec_width in *;
    destruct (spec_promotes fb n) eqn:Ep;
    [ first
        [ exfalso; destruct Hcase as [Hcase|Hcase]; [discriminate|lia]
        | exfalso; unfold spec_promotes in Ep; discriminate
        | let k := eval vm_compute in (Z.to_nat (2 * fb)) in
          change (Z.to_nat (2 * fb)) with k;
          negative_bytes P ch b ctx' Hout Hval Hds; value_arith ]
    | let k := eval vm_compute in (Z.to_nat fb) in
      change (Z.to_nat fb) with k;
      negative_bytes P ch b ctx' Hout Hval Hds; value_arith ] ].

(** C2, as the code has it (little-endian build): a negative integer
    -(n+1) whose n comes in 1, 2, 4 or 8 following bytes is decoded, given
    enough output capacity, with the write cursor advanced by the width of
    the encoding, doubled exactly when the encoding is narrower than 8 bytes
    and its top bit is set; and unless a 4-byte encoding is promoted, the
    bytes up to the cursor hold -(n+1) modulo 2^(8*width), least significant
    byte first. *)
Theorem cbor_decode_negative_integer (lvl fb : Z) (payload b : list byte) :
  1 <= lvl < 256 -> In fb [1; 2; 4; 8] ->
  Z.of_nat (length payload) = fb ->
  spec_width fb (be_value payload) <= Z.of_nat (length b) ->
  Z.of_nat (length b) + 8 < 2 ^ 64 ->
  exists ctx,
    cbor_decode_ctx (little_endian_build lvl) b (negative_header fb :: payload)
    = Ok (if Z.of_nat (length b) =? spec_width fb (be_value payload)
          then CBOR_SUCCESS else CBOR_UNDERRUN, ctx)
    /\ bufidx ctx = spec_width fb (be_value payload)
    /\ (spec_promotes fb (be_value payload) = false \/ fb <= 2 ->
        le_read (buf ctx) 0 (Z.to_nat (spec_width fb (be_value payload)))
        = twos_complement (spec_width fb (be_value payload))
            (- (be_value payload + 1))).
Proof.
  intros Hlvl Hfb Hlen Hcap Hbig.
  set (P := little_endian_build lvl).
  destruct Hfb as [<-|[<-|[<-|[<-|[]]]]].
  - destruct payload as [|p0 [|? ?]]; try (cbn [length] in Hlen; lia).
    set (ch := set_header 1 24 1
                 (set_recursion_depth 1
                    (initial_context b [negative_header 1; p0]))).
    assert (Hvm : negative_val_mem P ch
                  = [p0; x00; x00; x00; x00; x00; x00; x00]) by reflexivity.
    negative_case lvl 1 [p0] b Hlvl Hcap Hbig Hlen P ch Hvm.
  - destruct payload as [|p0 [|p1 [|? ?]]]; try (cbn [length] in Hlen; lia).
    set (ch := set_header 1 25 2
                 (set_recursion_depth 1
                    (initial_context b [negative_header 2; p0; p1]))).
    assert (Hvm : negative_val_mem P ch
                  = [p1; p0; x00; x00; x00; x00; x00; x00]) by reflexivity.
    negative_case lvl 2 [p0; p1] b Hlvl Hcap Hbig Hlen P ch Hvm.
  - destruct payload as [|p0 [|p1 [|p2 [|p3 [|? ?]]]]];
      try (cbn [length] in Hlen; lia).
    set (ch := set_header 1 26 4
                 (set_recursion_depth 1
                    (initial_context b [negative_header 4; p0; p1; p2; p3]))).
    assert (Hvm : negative_val_mem P ch
                  = [p3; p2; p1; p0; x00; x00; x00; x00]) by reflexivity.
    negative_case lvl 4 [p0; p1; p2; p3] b Hlvl Hcap Hbig Hlen P ch Hvm.
  - destruct payload as [|p0 [|p1 [|p2 [|p3 [|p4 [|p5 [|p6 [|p7 [|? ?]]]]]]]]];
      try (cbn [length] in Hlen; lia).
    set (ch := set_header 1 27 8
                 (set_recursion_depth 1
                    (initial_context b
                       [negative_header 8; p0; p1; p2; p3; p4; p5; p6; p7]))).
    assert (Hvm : negative_val_mem P ch
                  = [p7; p6; p5; p4; p3; p2; p1; p0]) by reflexivity.
    negative_case lvl 8 [p0; p1; p2; p3; p4; p5; p6; p7] b
      Hlvl Hcap Hbig Hlen P ch Hvm.
Qed.

Lemma cbor_decode_negative_integer_witness :
  (exists ctx,
     cbor_decode_ctx (little_endian_build 8) [x00; x00] [x38; x80]
     = Ok (CBOR_SUCCESS, ctx)
     /\ bufidx ctx = 2 /\ le_read (buf ctx) 0 2 = 2 ^ 16 - 129)
  /\ (exists ctx,
        cbor_decode_ctx (little_endian_build 8) [x00] [x38; x7f]
        = Ok (CBOR_SUCCESS, ctx)
        /\ bufidx ctx = 1 /\ le_read (buf ctx) 0 1 = 2 ^ 8 - 128).
Proof.
  split.
  - destruct (cbor_decode_negative_integer 8 1 [x80] [x00; x00])
      as (ctx & Hrun & Hcur & Hval).
    + lia.
    + simpl. auto.
    + reflexivity.
    + vm_compute. discriminate.
    + vm_compute. reflexivity.
    + exists ctx. split; [exact Hrun|]. split; [exact Hcur|].
      apply Hval. right. lia.
  - destruct (cbor_decode_negative_integer 8 1 [x7f] [x00])
      as (ctx & Hrun & Hcur & Hval).
    + lia.
    + simpl. auto.
    + reflexivity.
    + vm_compute. discriminate.
    + vm_compute. reflexivity.
    + exists ctx. split; [exact Hrun|]. split; [exact Hcur|].
      apply Hval. right. lia.
Defined.

(** The claim C2 as stated fails on its own example: n = 127 in one byte is
    decoded to the single byte 0x80, with no promotion to two bytes. *)
Lemma negative_127_is_not_promoted :
  exists ctx,
    cbor_decode_ctx (little_endian_build 8) [x00] [x38; x7f]
    = Ok (CBOR_SUCCESS, ctx)
    /\ bufidx ctx = 1 /\ buf ctx = [x80]
    /\ Z.testbit 127 7 = false.
Proof. eexists. vm_compute. repeat split; reflexivity. Qed.

(** A 4-byte encoding with its top bit set is promoted to 8 bytes, of which
    only the low four are written: n = 0x80000001 leaves the upper half of
    the result as the buffer had it. *)
Lemma negative_promotion_to_8_bytes :
  exists ctx,
    cbor_decode_ctx (little_endian_build 8)
      [x00; x00; x00; x00; x00; x00; x00; x00] [x3a; x80; x00; x00; x01]
    = Ok (CBOR_SUCCESS, ctx)
    /\ buf ctx = [xfe; xff; xff; x7f; x00; x00; x00; x00]
    /\ le_read (buf ctx) 0 8 <> twos_complement 8 (- (0x80000001 + 1)).
Proof.
  eexists. split; [vm_compute; reflexivity|].
  split; [reflexivity|]. vm_compute. discriminate.
Qed.

(** ** The write cursor *)

(** Every decoder but the recursive one and a promoting negative-integer
    decoder leaves the write cursor within the capacity. *)
Lemma callbacks_within_capacity (P : platform) (loop : Z -> M cbor_error_t)
    (ctx : decode_context) :
  call_state ctx ->
  In (major_type ctx) [0; 2; 3; 6; 7]
  \/ (major_type ctx = 1 /\ negative_promoted P ctx = false) ->
  exists err ctx',
    callbacks P loop (major_type ctx) ctx = Ok (err, ctx')
    /\ length (buf ctx') = length (buf ctx)
    /\ bufidx ctx' <= bufsize ctx'.
Proof.
  intros Hc Hmt.
  assert (H0 : handler_returns 0 ctx (callbacks P loop (major_type ctx) ctx)).
  { destruct Hmt as [[E|[E|[E|[E|[E|[]]]]]]|(E & Hp)];
      [symmetry in E..|]; rewrite E; cbn [callbacks].
    - apply do_unsigned_integer_returns; exact Hc.
    - apply do_string_returns; exact Hc.
    - apply do_string_returns; exact Hc.
    - apply do_tag_returns; exact Hc.
    - apply do_float_and_other_returns; exact Hc.
    - pose proof (do_negative_integer_returns P ctx Hc) as Hn.
      rewrite Hp in Hn. exact Hn. }
  destruct H0 as (err & ctx' & Hr & _ & (_ & _ & _ & Hl) & _ & _ & Hw).
  exists err, ctx'. split; [exact Hr|]. split; [exact Hl|lia].
Qed.

(** A first item whose following bytes are in the message and do not fit a
    non-empty buffer is refused by the bounds validator, whatever its major
    type. *)
Lemma cbor_decode_following_bytes_short (P : platform) (h : byte)
    (rest b : list byte) :
  1 <= CBOR_RECURSION_MAX_LEVEL P < 256 ->
  get_additional_info h < 28 ->
  get_following_bytes (get_additional_info h) <= Z.of_nat (length rest) ->
  Z.of_nat (length rest) + 1 < 2 ^ 64 ->
  1 <= Z.of_nat (length b) < get_following_bytes (get_additional_info h) ->
  cbor_decode P b (h :: rest) = Ok CBOR_UNDERRUN.
Proof.
  intros Hmax Hai Hlen Hrest Hb.
  destruct (get_header_fields h) as (_ & Hai0).
  destruct (get_following_bytes_count (get_additional_info h) ltac:(lia))
    as (Hfb & Hfi & Hfr).
  unfold cbor_decode, cbor_decode_ctx, decode_cbor.
  rewrite decode_cbor_with_unfold
    by (cbn [recursion_depth initial_context]; lia).
  cbn [recursion_depth initial_context]. change (0 + 1) with 1.
  unfold decode_fuel.
  rewrite (decode_loop_unfold P _ 0 0 _ h);
    [|cbn [msgidx msgsize set_recursion_depth initial_context length]; lia
     |cbn [bufidx bufsize set_recursion_depth initial_context]; lia
     |reflexivity].
  cbv zeta.
  rewrite has_valid_buffers_underrun.
  - reflexivity.
  - unfold cursors_in_range. ctx_simpl.
    cbn [msgidx msgsize bufidx bufsize initial_context length]. lia.
  - exact Hfr.
  - exact Hfi.
  - ctx_simpl. cbn [msgidx msgsize initial_context length]. lia.
  - ctx_simpl. cbn [bufidx bufsize initial_context]. lia.
Qed.

(** C1, as the code has it: a decode call returns a result code without a
    read or write outside the message or the output buffer, so no write past
    capacity occurs; each call by the loop of the unsigned-integer, string,
    tag or float/simple decoder, and of the negative-integer decoder when it
    does not promote, leaves the write cursor within the capacity; and a
    non-empty buffer exactly one byte short of the following bytes of the
    first item, which the message holds, makes the entry point return
    OutputExhausted. *)
Theorem decode_stays_within_capacity (P : platform) :
  (forall buf_ msg_ : list byte,
      Z.of_nat (length buf_) + 16 < 2 ^ 64 ->
      Z.of_nat (length msg_) + 16 < 2 ^ 64 ->
      exists err ctx,
        cbor_decode_ctx P buf_ msg_ = Ok (err, ctx)
        /\ length (buf ctx) = length buf_)
  /\ (forall (loop : Z -> M cbor_error_t) (ctx : decode_context),
        call_state ctx ->
        In (major_type ctx) [0; 2; 3; 6; 7]
        \/ (major_type ctx = 1 /\ negative_promoted P ctx = false) ->
        exists err ctx',
          callbacks P loop (major_type ctx) ctx = Ok (err, ctx')
          /\ length (buf ctx') = length (buf ctx)
          /\ bufidx ctx' <= bufsize ctx')
  /\ (forall (h : byte) (rest buf_ : list byte),
        1 <= CBOR_RECURSION_MAX_LEVEL P < 256 ->
        get_additional_info h < 28 ->
        get_following_bytes (get_additional_info h)
        <= Z.of_nat (length rest) ->
        Z.of_nat (length rest) + 1 < 2 ^ 64 ->
        1 <= Z.of_nat (length buf_) ->
        Z.of_nat (length buf_) + 1
        = get_following_bytes (get_additional_info h) ->
        cbor_decode P buf_ (h :: rest) = Ok CBOR_UNDERRUN).
Proof.
  split; [|split].
  - intros buf_ msg_ Hb Hm.
    destruct (cbor_decode_returns P buf_ msg_ Hb Hm)
      as (err & ctx & Hrun & _ & Hl & _).
    exists err, ctx. split; assumption.
  - intros loop ctx. apply callbacks_within_capacity.
  - intros h rest buf_ Hmax Hai Hlen Hrest H1 Hshort.
    apply cbor_decode_following_bytes_short; try assumption. lia.
Qed.

Lemma decode_stays_within_capacity_witness :
  (exists err ctx,
     cbor_decode_ctx (little_endian_build 8) [x00] [x38; x80] = Ok (err, ctx)
     /\ length (buf ctx) = 1%nat)
  /\ (exists err ctx',
        do_unsigned_integer (little_endian_build 8)
          (set_header 0 25 2 (initial_context [x00; x00] [x19; x01; x02]))
        = Ok (err, ctx')
        /\ bufidx ctx' <= bufsize ctx')
  /\ cbor_decode (little_endian_build 8) [x00] [x19; x01; x02]
     = Ok CBOR_UNDERRUN.
Proof.
  destruct (decode_stays_within_capacity (little_endian_build 8))
    as (Hsafe & Hstep & Hshort).
  split; [|split].
  - apply (Hsafe [x00] [x38; x80]); vm_compute; reflexivity.
  - destruct (Hstep (fun _ => lift Fault)
                (set_header 0 25 2
                   (initial_context [x00; x00] [x19; x01; x02])))
      as (err & ctx' & Hrun & _ & Hw).
    + unfold call_state, loop_invariant, arrays_match.
      vm_compute. intuition discriminate.
    + left. simpl. auto.
    + exists err, ctx'. split; [exact Hrun|exact Hw].
  - apply (Hshort x19 [x01; x02] [x00]);
      first [reflexivity | vm_compute; intuition discriminate].
Defined.

(** The claim C1 as stated fails: the items 0x01 0x02 need two bytes, and
    with a buffer of one byte the loop stops at the full buffer and the
    entry point reports the input that is left as Overrun, not as
    OutputExhausted. *)
Lemma cbor_decode_full_buffer_overrun :
  cbor_decode (little_endian_build 8) [x00; x00] [x01; x02] = Ok CBOR_SUCCESS
  /\ cbor_decode (little_endian_build 8) [x00] [x01; x02] = Ok CBOR_OVERRUN
  /\ CBOR_OVERRUN <> CBOR_UNDERRUN.
Proof. repeat split; try (vm_compute; reflexivity). discriminate. Qed.

(** Where the negative-integer decoder promotes, the cursor is advanced
    without a look at the capacity: with a one-byte buffer, the item
    0x38 0x80 leaves the write cursor at 2, past the capacity 1, which the
    assertions at the end of [decode_cbor] exclude, and the entry point
    answers Success. *)
Lemma cbor_decode_cursor_past_capacity :
  exists ctx,
    cbor_decode_ctx (little_endian_build 8) [x00] [x38; x80]
    = Ok (CBOR_SUCCESS, ctx)
    /\ bufidx ctx = 2 /\ bufsize ctx = 1 /\ buf ctx = [x7f].
Proof. eexists. vm_compute. repeat split; reflexivity. Qed.

(** ** The recursion depth *)

Lemma decode_cbor_excessive (P : platform) (fuel : nat) (maxitem : Z)
    (ctx : decode_context) :
  0 <= CBOR_RECURSION_MAX_LEVEL P < 255 ->
  recursion_depth ctx = CBOR_RECURSION_MAX_LEVEL P ->
  decode_cbor P fuel maxitem ctx
  = Ok (CBOR_EXCESSIVE,
        set_recursion_depth (CBOR_RECURSION_MAX_LEVEL P + 1) ctx).
Proof.
  intros Hmax Hd. unfold decode_cbor, decode_cbor_with. monad_unfold.
  ctx_simpl. rewrite Hd. rewrite u8_small by lia.
  destruct (Z.gtb_spec (CBOR_RECURSION_MAX_LEVEL P + 1)
              (CBOR_RECURSION_MAX_LEVEL P)); [reflexivity|lia].
Qed.

(** C5 fails on the code: arrays nested one level deeper than the maximum
    (here 8) end the outermost call of the decode loop with Excessive and
    with the depth counter at 1, not at the 0 it had on entry. *)
Theorem decode_cbor_depth_unbalanced :
  exists ctx,
    decode_cbor (little_endian_build 8) 10 0
      (initial_context [x00]
         [x81; x81; x81; x81; x81; x81; x81; x81; x01])
    = Ok (CBOR_EXCESSIVE, ctx)
    /\ recursion_depth
         (initial_context [x00]
            [x81; x81; x81; x81; x81; x81; x81; x81; x01]) = 0
    /\ recursion_depth ctx = 1.
Proof. eexists. vm_compute. repeat split; reflexivity. Qed.

(** * Further properties of the decoder *)

(** Closed side conditions on concrete inputs. *)
Ltac by_computation :=
  first [ reflexivity
        | simpl; lia
        | vm_compute;
          first [reflexivity | intuition discriminate | intuition congruence] ].

(** ** The first item of a message *)

Lemma cbor_decode_ctx_refused (P : platform) (b rest : list byte) (h : byte)
    (e : cbor_error_t) :
  1 <= CBOR_RECURSION_MAX_LEVEL P < 256 ->
  0 < Z.of_nat (length b) ->
  has_valid_buffers_for_following_bytes (first_context b (h :: rest) h)
  = Some e ->
  cbor_decode_ctx P b (h :: rest)
  = Ok (e, set_recursion_depth 0 (first_context b (h :: rest) h)).
Proof.
  intros Hmax Hb Hv.
  unfold cbor_decode_ctx, decode_cbor.
  rewrite decode_cbor_with_unfold
    by (cbn [recursion_depth initial_context]; lia).
  cbn [recursion_depth initial_context]. change (0 + 1) with 1.
  unfold decode_fuel.
  rewrite (decode_loop_unfold P _ 0 0 _ h);
    [|cbn [msgidx msgsize set_recursion_depth initial_context length]; lia
     |cbn [bufidx bufsize set_recursion_depth initial_context]; lia
     |reflexivity].
  cbv zeta. fold (first_context b (h :: rest) h). rewrite Hv.
  apply has_valid_buffers_errors in Hv.
  destruct Hv as [-> | ->]; reflexivity.
Qed.

Lemma cbor_decode_ctx_handler_error (P : platform) (b rest : list byte)
    (h : byte) (e : cbor_error_t) (ctx1 : decode_context) :
  1 <= CBOR_RECURSION_MAX_LEVEL P < 256 ->
  0 < Z.of_nat (length b) ->
  has_valid_buffers_for_following_bytes (first_context b (h :: rest) h)
  = None ->
  (forall loop, callbacks P loop (get_major_type h)
                  (first_context b (h :: rest) h) = Ok (e, ctx1)) ->
  e <> CBOR_SUCCESS -> e <> CBOR_BREAK ->
  cbor_decode_ctx P b (h :: rest)
  = Ok (e, set_recursion_depth (u8 (recursion_depth ctx1 - 1)) ctx1).
Proof.
  intros Hmax Hb Hv Hcb Hs Hbr.
  unfold cbor_decode_ctx, decode_cbor.
  rewrite decode_cbor_with_unfold
    by (cbn [recursion_depth initial_context]; lia).
  cbn [recursion_depth initial_context]. change (0 + 1) with 1.
  unfold decode_fuel.
  rewrite (decode_loop_unfold P _ 0 0 _ h);
    [|cbn [msgidx msgsize set_recursion_depth initial_context length]; lia
     |cbn [bufidx bufsize set_recursion_depth initial_context]; lia
     |reflexivity].
  cbv zeta. fold (first_context b (h :: rest) h). rewrite Hv.
  replace (major_type (first_context b (h :: rest) h))
    with (get_major_type h) by reflexivity.
  rewrite Hcb.
  destruct e; try contradiction; reflexivity.
Qed.

Lemma first_context_cursors (b rest : list byte) (h : byte) :
  Z.of_nat (length b) < 2 ^ 64 -> Z.of_nat (length rest) + 1 < 2 ^ 64 ->
  get_additional_info h < 28 ->
  cursors_in_range (first_context b (h :: rest) h)
  /\ arrays_match (first_context b (h :: rest) h).
Proof.
  intros Hb Hm Hai.
  destruct (get_header_fields h) as (_ & Hai0).
  destruct (get_following_bytes_count (get_additional_info h) ltac:(lia))
    as (Hfb & _).
  split; [|split; reflexivity].
  unfold cursors_in_range, first_context. ctx_simpl.
  cbn [msgidx msgsize bufidx bufsize initial_context length]. lia.
Qed.

(** ** Headers that are refused *)

(** X1: a message whose first header carries one of the reserved
    additional-info values 28, 29, 30, or the indefinite-length value 31 on
    an integer (major type 0 or 1), is Malformed ([CBOR_ILLEGAL]) whatever
    follows; nothing is written and neither cursor moves. *)
Theorem cbor_decode_malformed_header (P : platform) (h : byte)
    (rest b : list byte) :
  1 <= CBOR_RECURSION_MAX_LEVEL P < 256 ->
  0 < Z.of_nat (length b) ->
  28 <= get_additional_info h <= 30
  \/ (get_major_type h <= 1 /\ get_additional_info h = 31) ->
  exists ctx,
    cbor_decode_ctx P b (h :: rest) = Ok (CBOR_ILLEGAL, ctx)
    /\ buf ctx = b /\ bufidx ctx = 0 /\ msgidx ctx = 0.
Proof.
  intros Hmax Hb [Hres|(Hmt & Hind)].
  - eexists. split; [|split; [|split]]; cycle 1.
    4:{ apply cbor_decode_ctx_refused; [exact Hmax|exact Hb|].
        unfold has_valid_buffers_for_following_bytes, first_context.
        ctx_simpl.
        assert (Hr : get_following_bytes (get_additional_info h)
                     = RESERVED_VALUE).
        { unfold get_following_bytes.
          destruct (Z.ltb_spec (get_additional_info h) 24); [lia|].
          destruct (Z.eqb_spec (get_additional_info h) 31); [lia|].
          destruct (Z.geb_spec (get_additional_info h) 28);
            [reflexivity|lia]. }
        rewrite Hr. reflexivity. }
    all: reflexivity.
  - assert (Hfb : get_following_bytes (get_additional_info h)
                  = INDEFINITE_VALUE) by (rewrite Hind; reflexivity).
    assert (Hv : has_valid_buffers_for_following_bytes
                   (first_context b (h :: rest) h) = None).
    { unfold has_valid_buffers_for_following_bytes, first_context.
      ctx_simpl. rewrite Hfb. reflexivity. }
    destruct (get_header_fields h) as (Hmt0 & _).
    eexists. split; [|split; [|split]]; cycle 1.
    4:{ apply (cbor_decode_ctx_handler_error P b rest h CBOR_ILLEGAL
                 (first_context b (h :: rest) h));
          [exact Hmax|exact Hb|exact Hv| |discriminate|discriminate].
        intros loop.
        assert (Hu : do_unsigned_integer P (first_context b (h :: rest) h)
                     = Ok (CBOR_ILLEGAL, first_context b (h :: rest) h)).
        { unfold do_unsigned_integer. monad_unfold.
          unfold first_context at 1. ctx_simpl. rewrite Hfb. reflexivity. }
        assert (Hcase : get_major_type h = 0 \/ get_major_type h = 1) by lia.
        destruct Hcase as [E|E]; rewrite E; cbn [callbacks].
        - exact Hu.
        - unfold do_negative_integer. monad_unfold. rewrite Hu. reflexivity. }
    all: reflexivity.
Qed.

Lemma cbor_decode_malformed_header_witness :
  (exists ctx,
     cbor_decode_ctx (little_endian_build 8) [x2a] [x1c; x01]
     = Ok (CBOR_ILLEGAL, ctx)
     /\ buf ctx = [x2a] /\ bufidx ctx = 0 /\ msgidx ctx = 0)
  /\ (exists ctx,
        cbor_decode_ctx (little_endian_build 8) [x2a] [x3f; x01]
        = Ok (CBOR_ILLEGAL, ctx)
        /\ buf ctx = [x2a] /\ bufidx ctx = 0 /\ msgidx ctx = 0).
Proof.
  split.
  - apply (cbor_decode_malformed_header (little_endian_build 8) x1c [x01]
             [x2a]); [simpl; lia|simpl; lia|left; vm_compute].
    split; discriminate.
  - apply (cbor_decode_malformed_header (little_endian_build 8) x3f [x01]
             [x2a]); [simpl; lia|simpl; lia|right; vm_compute].
    split; [discriminate|reflexivity].
Defined.

(** X2: a first item whose header announces more following bytes than the
    message still holds is Malformed ([CBOR_ILLEGAL]), whatever its major
    type and however large the (non-empty) buffer is; the input is tested
    before the output, and nothing is written. *)
Theorem cbor_decode_truncated_item (P : platform) (h : byte)
    (rest b : list byte) :
  1 <= CBOR_RECURSION_MAX_LEVEL P < 256 ->
  0 < Z.of_nat (length b) ->
  get_additional_info h < 28 ->
  Z.of_nat (length rest) < get_following_bytes (get_additional_info h) ->
  exists ctx,
    cbor_decode_ctx P b (h :: rest) = Ok (CBOR_ILLEGAL, ctx)
    /\ buf ctx = b /\ bufidx ctx = 0 /\ msgidx ctx = 0.
Proof.
  intros Hmax Hb Hai Hshort.
  destruct (get_header_fields h) as (_ & Hai0).
  destruct (get_following_bytes_count (get_additional_info h) ltac:(lia))
    as (Hfb & Hfi & Hfr).
  eexists. split; [|split; [|split]]; cycle 1.
  4:{ apply cbor_decode_ctx_refused; [exact Hmax|exact Hb|].
      unfold has_valid_buffers_for_following_bytes, first_context.
      ctx_simpl. cbn [msgidx msgsize initial_context length].
      destruct (Z.eqb_spec (get_following_bytes (get_additional_info h))
                  RESERVED_VALUE); [reflexivity|].
      destruct (Z.eqb_spec (get_following_bytes (get_additional_info h))
                  INDEFINITE_VALUE); [contradiction|].
      rewrite (usize_small (Z.of_nat (S (length rest)) - 0)) by lia.
      destruct (Z.gtb_spec
                  (get_following_bytes (get_additional_info h) + 1)
                  (Z.of_nat (S (length rest)) - 0)); [reflexivity|lia]. }
  all: reflexivity.
Qed.

Lemma cbor_decode_truncated_item_witness :
  exists ctx,
    cbor_decode_ctx (little_endian_build 8) [x2a] [x19; x01]
    = Ok (CBOR_ILLEGAL, ctx)
    /\ buf ctx = [x2a] /\ bufidx ctx = 0 /\ msgidx ctx = 0.
Proof.
  apply (cbor_decode_truncated_item (little_endian_build 8) x19 [x01] [x2a]);
    by_computation.
Defined.

(** X4: with an empty output buffer the loop does not run, so every
    non-empty message, well formed or not, is answered with Overrun and no
    byte of it is read. *)
Theorem cbor_decode_empty_buffer (P : platform) (h : byte)
    (rest : list byte) :
  1 <= CBOR_RECURSION_MAX_LEVEL P < 256 ->
  exists ctx,
    cbor_decode_ctx P [] (h :: rest) = Ok (CBOR_OVERRUN, ctx)
    /\ msgidx ctx = 0 /\ bufidx ctx = 0 /\ buf ctx = [].
Proof.
  intros Hmax.
  unfold cbor_decode_ctx, decode_cbor.
  rewrite decode_cbor_with_unfold
    by (cbn [recursion_depth initial_context]; lia).
  unfold decode_fuel.
  rewrite decode_loop_exit
    by (cbn [bufidx bufsize set_recursion_depth initial_context length];
        apply andb_false_r).
  eexists. split; [reflexivity|]. repeat split.
Qed.

Lemma cbor_decode_empty_buffer_witness :
  exists ctx,
    cbor_decode_ctx (little_endian_build 8) [] [x01] = Ok (CBOR_OVERRUN, ctx)
    /\ msgidx ctx = 0 /\ bufidx ctx = 0 /\ buf ctx = [].
Proof.
  apply (cbor_decode_empty_buffer (little_endian_build 8) x01 []).
  simpl; lia.
Defined.

(** ** Arrays as lists *)

Lemma byte_at_app (l1 l2 : list byte) (j : Z) :
  byte_at (l1 ++ l2) j
  = if decide (j < Z.of_nat (length l1)) then byte_at l1 j
    else byte_at l2 (j - Z.of_nat (length l1)).
Proof.
  unfold byte_at. destruct (decide (j < Z.of_nat (length l1))) as [Hl|Hl].
  - destruct (Z.ltb_spec j 0); [reflexivity|].
    apply lookup_app_l. lia.
  - destruct (Z.ltb_spec j 0); [lia|].
    destruct (Z.ltb_spec (j - Z.of_nat (length l1)) 0); [lia|].
    rewrite lookup_app_r by lia. f_equal. lia.
Qed.

Lemma byte_at_cons (x : byte) (l : list byte) (j : Z) :
  byte_at (x :: l) j = if decide (j = 0) then Some x else byte_at l (j - 1).
Proof.
  change (x :: l) with ([x] ++ l). rewrite byte_at_app.
  cbn [length]. destruct (decide (j = 0)) as [->|Hj].
  - reflexivity.
  - destruct (decide (j < Z.of_nat 1)) as [Hl|Hl]; [|reflexivity].
    rewrite (proj2 (byte_at_None [x] j)) by (cbn [length]; lia).
    symmetry. apply byte_at_None. lia.
Qed.

Lemma byte_at_rev (l : list byte) (j : Z) :
  0 <= j < Z.of_nat (length l) ->
  byte_at (rev l) j = byte_at l (Z.of_nat (length l) - 1 - j).
Proof.
  intros Hj. unfold byte_at.
  destruct (Z.ltb_spec j 0); [lia|].
  destruct (Z.ltb_spec (Z.of_nat (length l) - 1 - j) 0); [lia|].
  rewrite rev_alt. change (rev_append l []) with (reverse l).
  rewrite reverse_lookup by lia. f_equal. lia.
Qed.

Ltac byte_at_cases :=
  rewrite ?byte_at_app, ?byte_at_cons;
  repeat (destruct (decide _); rewrite ?byte_at_app, ?byte_at_cons);
  cbn [length] in *; try lia; try reflexivity; try (f_equal; lia).

(** ** Scalar items, wherever they sit *)

Lemma at_item_state (ctx : decode_context) (mpre : list byte) (h : byte)
    (payload mpost bpre bmid bpost : list byte) :
  at_item ctx mpre h payload mpost bpre bmid bpost ->
  get_additional_info h < 28 ->
  Z.of_nat (length payload) = get_following_bytes (get_additional_info h) ->
  get_following_bytes (get_additional_info h) <= Z.of_nat (length bmid) ->
  arrays_match ctx /\ cursors_in_range ctx
  /\ has_valid_buffers_for_following_bytes ctx = None
  /\ following_bytes ctx <> INDEFINITE_VALUE
  /\ 0 <= following_bytes ctx <= 8.
Proof.
  intros (Hmsg & Hmi & Hms & Hmsz & Hbuf & Hbi & Hbs & Hbsz & Hai & Hfb)
    Hlt Hpl Hw.
  destruct (get_header_fields h) as (_ & Hai0).
  destruct (get_following_bytes_count (get_additional_info h) ltac:(lia))
    as (Hfb0 & Hfi & Hfr).
  assert (Hml : Z.of_nat (length (msg ctx))
                = Z.of_nat (length mpre) + 1 + Z.of_nat (length payload)
                  + Z.of_nat (length mpost)).
  { rewrite Hmsg. rewrite length_app. cbn [length]. rewrite length_app. lia. }
  assert (Hbl : Z.of_nat (length (buf ctx))
                = Z.of_nat (length bpre) + Z.of_nat (length bmid)
                  + Z.of_nat (length bpost)).
  { rewrite Hbuf. rewrite !length_app. lia. }
  assert (Hc : cursors_in_range ctx) by (unfold cursors_in_range; lia).
  split; [split; assumption|]. split; [exact Hc|].
  split; [|split; [congruence|lia]].
  apply has_valid_buffers_pass; [exact Hc|congruence|lia|lia].
Qed.

Lemma do_unsigned_integer_item (P : platform) (ctx : decode_context)
    (mpre : list byte) (h : byte) (payload mpost bpre bmid bpost : list byte) :
  at_item ctx mpre h payload mpost bpre bmid bpost ->
  get_additional_info h < 28 ->
  Z.of_nat (length payload) = get_following_bytes (get_additional_info h) ->
  Z.of_nat (length bmid)
  = Z.max 1 (get_following_bytes (get_additional_info h)) ->
  do_unsigned_integer P ctx
  = Ok (CBOR_SUCCESS,
        set_msgidx (msgidx ctx + (following_bytes ctx + 1))
          (set_bufidx (bufidx ctx + Z.max 1 (following_bytes ctx))
             (set_buf (bpre ++ unsigned_bytes P h payload ++ bpost) ctx))).
Proof.
  intros Hat Hlt Hpl Hw.
  destruct (at_item_state ctx mpre h payload mpost bpre bmid bpost Hat Hlt Hpl)
    as (Ham & Hc & Hv & Hi & Hfb8); [lia|].
  destruct Hat as (Hmsg & Hmi & Hms & Hmsz & Hbuf & Hbi & Hbs & Hbsz & Hai
                   & Hfb).
  assert (Hbl : Z.of_nat (length (buf ctx))
                = Z.of_nat (length bpre) + Z.of_nat (length bmid)
                  + Z.of_nat (length bpost)).
  { rewrite Hbuf. rewrite !length_app. lia. }
  destruct (do_unsigned_integer_spec P ctx Ham Hc) as (b' & Hrun & Hlb & Hout);
    [lia|exact Hv|exact Hi|].
  rewrite Hrun. do 5 f_equal.
  apply byte_at_ext. intros j. rewrite Hout.
  unfold unsigned_output, unsigned_bytes, stored_order.
  rewrite Hfb, Hai, Hbi, Hmi, Hbuf, Hmsg. rewrite <- Hfb.
  destruct (Z.eqb_spec (following_bytes ctx) 0) as [E0|E0].
  - byte_at_cases.
  - replace (Z.max 1 (get_following_bytes (get_additional_info h)))
      with (Z.of_nat (length payload)) in Hw by lia.
    destruct (CBOR_BIG_ENDIAN P).
    + byte_at_cases.
    + destruct (decide (Z.of_nat (length bpre) <= j
                        < Z.of_nat (length bpre) + following_bytes ctx))
        as [Hin|Hout'].
      * rewrite (byte_at_app bpre), (byte_at_app (rev payload)).
        rewrite length_rev.
        destruct (decide (j < Z.of_nat (length bpre))); [lia|].
        destruct (decide (j - Z.of_nat (length bpre)
                          < Z.of_nat (length payload))); [|lia].
        rewrite byte_at_rev by lia.
        byte_at_cases.
      * rewrite !byte_at_app, ?length_rev.
        repeat destruct (decide _); try lia; try reflexivity;
          try (f_equal; lia).
Qed.

Lemma cbor_decode_ctx_item (P : platform) (h : byte)
    (payload rest bmid bpost : list byte) (ctx1 : decode_context) :
  1 <= CBOR_RECURSION_MAX_LEVEL P < 256 ->
  0 < Z.of_nat (length (bmid ++ bpost)) ->
  rest = [] \/ bpost = [] ->
  has_valid_buffers_for_following_bytes
    (first_context (bmid ++ bpost) (h :: payload ++ rest) h) = None ->
  (forall loop,
      callbacks P loop (get_major_type h)
        (first_context (bmid ++ bpost) (h :: payload ++ rest) h)
      = Ok (CBOR_SUCCESS, ctx1)) ->
  msgidx ctx1 = 1 + Z.of_nat (length payload) ->
  msgsize ctx1 = Z.of_nat (length (h :: payload ++ rest)) ->
  bufidx ctx1 = Z.of_nat (length bmid) ->
  bufsize ctx1 = Z.of_nat (length (bmid ++ bpost)) ->
  cbor_decode_ctx P (bmid ++ bpost) (h :: payload ++ rest)
  = Ok (code_after_item rest bpost,
        set_recursion_depth (u8 (recursion_depth ctx1 - 1)) ctx1).
Proof.
  intros Hmax Hb Hend Hv Hcb Hmi Hms Hbi Hbs.
  assert (Hml : msgsize ctx1
                = 1 + Z.of_nat (length payload) + Z.of_nat (length rest)).
  { rewrite Hms. cbn [length]. rewrite length_app. lia. }
  assert (Hbl : bufsize ctx1
                = Z.of_nat (length bmid) + Z.of_nat (length bpost)).
  { rewrite Hbs. rewrite length_app. lia. }
  rewrite (cbor_decode_ctx_single P _ _ h ctx1 Hmax);
    [|exact Hb|reflexivity|exact Hv|exact Hcb|].
  - f_equal. f_equal. unfold finish, code_after_item.
    cbn [msgidx msgsize bufidx bufsize set_recursion_depth].
    rewrite Hmi, Hml, Hbi, Hbl.
    destruct rest as [|r rest], bpost as [|p bpost]; cbn [length];
      repeat match goal with
             | |- context [?a <? ?b] => destruct (Z.ltb_spec a b); try lia
             end; reflexivity.
  - rewrite Hmi, Hml, Hbi, Hbl.
    destruct Hend as [-> | ->]; cbn [length];
      repeat match goal with
             | |- context [?a <? ?b] => destruct (Z.ltb_spec a b); try lia
             end; reflexivity.
Qed.

Lemma first_context_at_item (h : byte) (payload rest bmid bpost : list byte) :
  Z.of_nat (length (bmid ++ bpost)) < 2 ^ 64 ->
  Z.of_nat (length (h :: payload ++ rest)) < 2 ^ 64 ->
  at_item (first_context (bmid ++ bpost) (h :: payload ++ rest) h)
    [] h payload rest [] bmid bpost.
Proof.
  intros Hb Hm. unfold at_item, first_context. ctx_simpl.
  cbn [msg msgidx msgsize buf bufidx bufsize initial_context].
  repeat split; try reflexivity; assumption.
Qed.

(** ** Unsigned integers, floats and simple values *)

(** X5: an unsigned integer is transcribed.  A value below 24 carried by
    the header is stored as one byte; 1, 2, 4 or 8 following bytes are stored
    in the build's byte order (reversed unless [CBOR_BIG_ENDIAN] is set).
    Both cursors end right after the item, the rest of the buffer is left
    alone, and the entry point answers Overrun when input follows the item
    in a buffer it has filled, OutputExhausted when the buffer has room
    left, and Success otherwise. *)
Theorem cbor_decode_unsigned_integer (P : platform) (h : byte)
    (payload rest bmid bpost : list byte) :
  1 <= CBOR_RECURSION_MAX_LEVEL P < 256 ->
  get_major_type h = 0 -> get_additional_info h < 28 ->
  Z.of_nat (length payload) = get_following_bytes (get_additional_info h) ->
  Z.of_nat (length bmid)
  = Z.max 1 (get_following_bytes (get_additional_info h)) ->
  rest = [] \/ bpost = [] ->
  Z.of_nat (length (bmid ++ bpost)) < 2 ^ 64 ->
  Z.of_nat (length (h :: payload ++ rest)) < 2 ^ 64 ->
  exists ctx,
    cbor_decode_ctx P (bmid ++ bpost) (h :: payload ++ rest)
    = Ok (code_after_item rest bpost, ctx)
    /\ buf ctx = unsigned_bytes P h payload ++ bpost
    /\ bufidx ctx = Z.of_nat (length bmid)
    /\ msgidx ctx = 1 + Z.of_nat (length payload).
Proof.
  intros Hmax Hmt Hai Hpl Hw Hend Hb Hm.
  pose proof (first_context_at_item h payload rest bmid bpost Hb Hm) as Hat.
  destruct (at_item_state _ _ _ _ _ _ _ _ Hat Hai Hpl)
    as (Ham & Hc & Hv & Hi & Hfb8); [lia|].
  pose proof (do_unsigned_integer_item P _ _ _ _ _ _ _ _ Hat Hai Hpl Hw)
    as Hrun.
  eexists. split.
  - apply (cbor_decode_ctx_item P h payload rest bmid bpost);
      [exact Hmax|rewrite length_app; lia|exact Hend|exact Hv
      |intros loop; rewrite Hmt; exact Hrun|..].
    + unfold first_context. ctx_simpl. cbn [msgidx initial_context]. lia.
    + reflexivity.
    + unfold first_context. ctx_simpl. cbn [bufidx initial_context]. lia.
    + reflexivity.
  - unfold first_context. ctx_simpl.
    cbn [buf bufidx msgidx set_recursion_depth initial_context].
    split; [reflexivity|]. split; lia.
Qed.

Lemma cbor_decode_unsigned_integer_witness :
  exists ctx,
    cbor_decode_ctx (little_endian_build 8) [x00; x00; x2a] [x19; x01; x02]
    = Ok (CBOR_UNDERRUN, ctx)
    /\ buf ctx = [x02; x01; x2a] /\ bufidx ctx = 2 /\ msgidx ctx = 3.
Proof.
  apply (cbor_decode_unsigned_integer (little_endian_build 8) x19
           [x01; x02] [] [x00; x00] [x2a]); by_computation.
Defined.

Lemma store_middle (bpre bpost : list byte) (a x : byte) :
  load (bpre ++ [a] ++ bpost) (Z.of_nat (length bpre)) = Ok a
  /\ store (bpre ++ [a] ++ bpost) (Z.of_nat (length bpre)) x
     = Ok (bpre ++ [x] ++ bpost).
Proof.
  split.
  - apply load_Ok. byte_at_cases.
  - rewrite store_in_range by (rewrite !length_app; cbn [length]; lia).
    f_equal. rewrite Nat2Z.id.
    rewrite insert_app_r_alt by lia. rewrite Nat.sub_diag. reflexivity.
Qed.

Lemma do_unsigned_integer_inline (P : platform) (ctx : decode_context)
    (bpre bpost : list byte) (a : byte) :
  arrays_match ctx -> cursors_in_range ctx ->
  msgidx ctx < msgsize ctx ->
  following_bytes ctx = 0 ->
  buf ctx = bpre ++ [a] ++ bpost -> bufidx ctx = Z.of_nat (length bpre) ->
  do_unsigned_integer P ctx
  = Ok (CBOR_SUCCESS,
        set_msgidx (msgidx ctx + 1)
          (set_bufidx (bufidx ctx + 1)
             (set_buf (bpre ++ [Z_to_byte (additional_info ctx)] ++ bpost)
                ctx))).
Proof.
  intros Ham Hc Hml Hfb Hbuf Hbi.
  pose proof Hc as (Hm & Hmsz & Hb & Hbsz & Hf).
  pose proof Ham as (Hbs & Hms).
  assert (Hbl : bufsize ctx = Z.of_nat (length bpre) + 1
                              + Z.of_nat (length bpost)).
  { rewrite Hbs, Hbuf, !length_app. cbn [length]. lia. }
  assert (Hv : has_valid_buffers_for_following_bytes ctx = None).
  { apply has_valid_buffers_pass; [exact Hc|rewrite Hfb; discriminate|lia|lia].
  }
  destruct (do_unsigned_integer_spec P ctx Ham Hc) as (b' & Hrun & Hlb & Hout);
    [lia|exact Hv|rewrite Hfb; discriminate|].
  rewrite Hrun, Hfb. do 5 f_equal.
  apply byte_at_ext. intros j. rewrite Hout.
  unfold unsigned_output. rewrite Hfb, Hbi, Hbuf. cbn [Z.eqb].
  byte_at_cases.
Qed.

Lemma stored_order_length (P : platform) (payload : list byte) :
  length (stored_order P payload) = length payload.
Proof.
  unfold stored_order. destruct (CBOR_BIG_ENDIAN P);
    [reflexivity|apply length_rev].
Qed.


Lemma float_or_simple_bytes_length (P : platform) (h : byte)
    (payload : list byte) :
  Z.of_nat (length payload) = get_following_bytes (get_additional_info h) ->
  Z.of_nat (length (float_or_simple_bytes P h payload))
  = Z.max 1 (get_following_bytes (get_additional_info h)).
Proof.
  intros Hpl. unfold float_or_simple_bytes.
  destruct (get_following_bytes (get_additional_info h)) as [|[p|p|]|]
    eqn:E; rewrite ?length_map, ?stored_order_length; cbn [length]; lia.
Qed.

Lemma do_float_and_other_item (P : platform) (ctx : decode_context)
    (mpre : list byte) (h : byte) (payload mpost bpre bmid bpost : list byte) :
  at_item ctx mpre h payload mpost bpre bmid bpost ->
  get_additional_info h < 28 ->
  Z.of_nat (length payload) = get_following_bytes (get_additional_info h) ->
  Z.of_nat (length bmid)
  = Z.max 1 (get_following_bytes (get_additional_info h)) ->
  exists ctx1,
    do_float_and_other P ctx = Ok (CBOR_SUCCESS, ctx1)
    /\ after_item ctx ctx1 (1 + Z.of_nat (length payload)) bpre
         (float_or_simple_bytes P h payload) bpost.
Proof.
  intros Hat Hlt Hpl Hw.
  destruct (at_item_state ctx mpre h payload mpost bpre bmid bpost Hat Hlt Hpl)
    as (Ham & Hc & Hv & Hi & Hfb8); [lia|].
  pose proof (do_unsigned_integer_item P _ _ _ _ _ _ _ _ Hat Hlt Hpl Hw)
    as Hun.
  destruct Hat as (Hmsg & Hmi & Hms & Hmsz & Hbuf & Hbi & Hbs & Hbsz & Hai
                   & Hfb).
  assert (Hml : Z.of_nat (length (msg ctx))
                = Z.of_nat (length mpre) + 1 + Z.of_nat (length payload)
                  + Z.of_nat (length mpost)).
  { rewrite Hmsg. rewrite length_app. cbn [length]. rewrite length_app. lia. }
  assert (Hbl : Z.of_nat (length (buf ctx))
                = Z.of_nat (length bpre) + Z.of_nat (length bmid)
                  + Z.of_nat (length bpost)).
  { rewrite Hbuf. rewrite !length_app. lia. }
  unfold do_float_and_other. monad_unfold.
  destruct (Z.eqb_spec (following_bytes ctx) INDEFINITE_VALUE); [tauto|].
  destruct (Z.eqb_spec (following_bytes ctx) 1) as [E1|E1].
  - assert (Hp1 : exists v, payload = [v]).
    { destruct payload as [|v [|w payload]]; cbn [length] in Hpl;
        [lia|exists v; reflexivity|lia]. }
    destruct Hp1 as (v & ->).
    assert (Hb1 : exists a, bmid = [a]).
    { destruct bmid as [|a [|a' bmid]]; cbn [length] in Hw;
        [lia|exists a; reflexivity|lia]. }
    destruct Hb1 as (a & ->).
    cbn [length] in *.
    ctx_simpl. rewrite (usize_small (msgidx ctx + 1)) by lia.
    assert (Hv1 : load (msg ctx) (msgidx ctx + 1) = Ok v).
    { apply load_Ok. rewrite Hmsg, Hmi. byte_at_cases. }
    rewrite Hv1. ctx_simpl.
    set (ctx2 := set_additional_info (byte_to_Z v)
                   (set_msgidx (msgidx ctx + 1) (set_following_bytes 0 ctx))).
    assert (Hc2 : cursors_in_range ctx2).
    { unfold cursors_in_range, ctx2. ctx_simpl. lia. }
    assert (Ham2 : arrays_match ctx2) by exact Ham.
    rewrite (has_valid_buffers_pass ctx2 Hc2);
      [|discriminate|unfold ctx2; ctx_simpl; lia|unfold ctx2; ctx_simpl; lia].
    rewrite (do_unsigned_integer_inline P ctx2 bpre bpost a Ham2 Hc2);
      [|unfold ctx2; ctx_simpl; lia|reflexivity|exact Hbuf|exact Hbi].
    ctx_simpl. unfold ctx2 at 1. ctx_simpl.
    replace (usize (bufidx ctx2 + 1 - 1)) with (Z.of_nat (length bpre))
      by (unfold ctx2; ctx_simpl; rewrite usize_small; lia).
    destruct (store_middle bpre bpost (Z_to_byte (additional_info ctx2))
                (Z_to_byte (get_simple_value
                   (byte_to_Z (Z_to_byte (additional_info ctx2))))))
      as (Hld & Hst).
    change (0 =? 0) with true. cbv beta iota. ctx_simpl.
    rewrite Hld. ctx_simpl. rewrite Hst. ctx_simpl.
    eexists. split; [reflexivity|].
    unfold after_item, float_or_simple_bytes, ctx2. ctx_simpl.
    rewrite <- Hfb, E1. cbn [map].
    rewrite byte_to_Z_to_byte.
    rewrite length_app. cbn [length].
    repeat split; try reflexivity; lia.
  - rewrite Hv. cbv beta. rewrite Hun. ctx_simpl.
    destruct (Z.eqb_spec (following_bytes ctx) 0) as [E0|E0].
    + unfold unsigned_bytes. rewrite <- Hfb, E0. cbn [Z.eqb].
      replace (usize (bufidx ctx + Z.max 1 0 - 1))
        with (Z.of_nat (length bpre)) by (rewrite usize_small; lia).
      destruct (store_middle bpre bpost (Z_to_byte (get_additional_info h))
                  (Z_to_byte (get_simple_value
                     (byte_to_Z (Z_to_byte (get_additional_info h))))))
        as (Hld & Hst).
      ctx_simpl. rewrite Hld. ctx_simpl. rewrite Hst. ctx_simpl.
      eexists. split; [reflexivity|].
      unfold after_item, float_or_simple_bytes. ctx_simpl.
      rewrite <- Hfb, E0.
      rewrite Z_to_byte_to_Z.
      destruct (get_header_fields h) as (_ & Hai0).
      rewrite (Z.mod_small (get_additional_info h)) by lia.
      rewrite length_app. cbn [length].
      repeat split; try reflexivity; lia.
    + eexists. split; [reflexivity|].
      unfold after_item, float_or_simple_bytes, unsigned_bytes. ctx_simpl.
      rewrite <- Hfb.
      destruct (Z.eqb_spec (following_bytes ctx) 0); [contradiction|].
      assert (Hlen : length (stored_order P payload) = length payload).
      { unfold stored_order. destruct (CBOR_BIG_ENDIAN P);
          [reflexivity|apply length_rev]. }
      destruct (following_bytes ctx) as [|[p|p|]|] eqn:Efb; try lia;
        rewrite length_app, Hlen; repeat split; try reflexivity; lia.
Qed.

Lemma cbor_decode_ctx_after_item (P : platform) (h : byte)
    (payload rest bmid bpost out : list byte) (ctx1 : decode_context) :
  1 <= CBOR_RECURSION_MAX_LEVEL P < 256 ->
  0 < Z.of_nat (length (bmid ++ bpost)) -> length out = length bmid ->
  rest = [] \/ bpost = [] ->
  has_valid_buffers_for_following_bytes
    (first_context (bmid ++ bpost) (h :: payload ++ rest) h) = None ->
  (forall loop,
      callbacks P loop (get_major_type h)
        (first_context (bmid ++ bpost) (h :: payload ++ rest) h)
      = Ok (CBOR_SUCCESS, ctx1)) ->
  after_item (first_context (bmid ++ bpost) (h :: payload ++ rest) h) ctx1
    (1 + Z.of_nat (length payload)) [] out bpost ->
  exists ctx,
    cbor_decode_ctx P (bmid ++ bpost) (h :: payload ++ rest)
    = Ok (code_after_item rest bpost, ctx)
    /\ buf ctx = out ++ bpost
    /\ bufidx ctx = Z.of_nat (length bmid)
    /\ msgidx ctx = 1 + Z.of_nat (length payload).
Proof.
  intros Hmax Hb Hout Hend Hv Hcb (A1 & A2 & A3 & A4 & A5 & A6 & A7).
  cbn [app] in A7. rewrite Hout in A7.
  eexists. split.
  - apply (cbor_decode_ctx_item P h payload rest bmid bpost ctx1);
      try assumption; rewrite ?A2, ?A3; reflexivity.
  - cbn [buf bufidx msgidx set_recursion_depth].
    split; [exact A6|]. split; [exact A7|exact A5].
Qed.

(** X6: major type 7.  A simple value below 24 carried by the header, or
    any simple value carried by the extension byte that follows the header
    0xf8, is stored as one byte after [get_simple_value]: false (20) and
    null (22) become 0, true (21) becomes 1, every other value is stored
    unchanged; the 2, 4 or 8 bytes of a float are stored in the build's byte
    order, like an unsigned integer.  Cursors and result code are those of
    a single item. *)
Theorem cbor_decode_float_or_simple (P : platform) (h : byte)
    (payload rest bmid bpost : list byte) :
  1 <= CBOR_RECURSION_MAX_LEVEL P < 256 ->
  get_major_type h = 7 -> get_additional_info h < 28 ->
  Z.of_nat (length payload) = get_following_bytes (get_additional_info h) ->
  Z.of_nat (length bmid)
  = Z.max 1 (get_following_bytes (get_additional_info h)) ->
  rest = [] \/ bpost = [] ->
  Z.of_nat (length (bmid ++ bpost)) < 2 ^ 64 ->
  Z.of_nat (length (h :: payload ++ rest)) < 2 ^ 64 ->
  exists ctx,
    cbor_decode_ctx P (bmid ++ bpost) (h :: payload ++ rest)
    = Ok (code_after_item rest bpost, ctx)
    /\ buf ctx = float_or_simple_bytes P h payload ++ bpost
    /\ bufidx ctx = Z.of_nat (length bmid)
    /\ msgidx ctx = 1 + Z.of_nat (length payload).
Proof.
  intros Hmax Hmt Hai Hpl Hw Hend Hb Hm.
  pose proof (first_context_at_item h payload rest bmid bpost Hb Hm) as Hat.
  destruct (at_item_state _ _ _ _ _ _ _ _ Hat Hai Hpl)
    as (Ham & Hc & Hv & Hi & Hfb8); [lia|].
  destruct (do_float_and_other_item P _ _ _ _ _ _ _ _ Hat Hai Hpl Hw)
    as (ctx1 & Hrun & Hafter).
  apply (cbor_decode_ctx_after_item P h payload rest bmid bpost _ ctx1);
    try assumption.
  - rewrite length_app. lia.
  - apply Nat2Z.inj. rewrite Hw. apply float_or_simple_bytes_length.
    exact Hpl.
  - intros loop. rewrite Hmt. exact Hrun.
Qed.

Lemma cbor_decode_float_or_simple_witness :
  (exists ctx,
     cbor_decode_ctx (little_endian_build 8) [x2a] [xf8; x14]
     = Ok (CBOR_SUCCESS, ctx)
     /\ buf ctx = [x00] /\ bufidx ctx = 1 /\ msgidx ctx = 2)
  /\ (exists ctx,
        cbor_decode_ctx (little_endian_build 8) [x2a; x2a] [xf9; x3c; x00]
        = Ok (CBOR_SUCCESS, ctx)
        /\ buf ctx = [x00; x3c] /\ bufidx ctx = 2 /\ msgidx ctx = 3).
Proof.
  split.
  - apply (cbor_decode_float_or_simple (little_endian_build 8) xf8
             [x14] [] [x2a] []); by_computation.
  - apply (cbor_decode_float_or_simple (little_endian_build 8) xf9
             [x3c; x00] [] [x2a; x2a] []); by_computation.
Defined.

(** ** Lengths and strings *)

Lemma following_bytes_cases (h : byte) :
  24 <= get_additional_info h < 28 ->
  In (get_following_bytes (get_additional_info h)) [1; 2; 4; 8].
Proof.
  intros H.
  assert (Hc : get_additional_info h = 24 \/ get_additional_info h = 25
               \/ get_additional_info h = 26 \/ get_additional_info h = 27)
    by lia.
  destruct Hc as [E|[E|[E|E]]]; rewrite E; cbn; auto.
Qed.

Ltac eight_byte_cases j :=
  let Hj := fresh "Hj" in
  let Hc := fresh "Hc" in
  destruct (decide (0 <= j < 8)) as [Hj|Hj];
  [ assert (Hc : j = 0 \/ j = 1 \/ j = 2 \/ j = 3 \/ j = 4 \/ j = 5
                 \/ j = 6 \/ j = 7) by lia;
    clear Hj;
    repeat (destruct Hc as [Hc|Hc]); subst j;
    (destruct (decide _); [|try lia]); try lia; byte_at_cases
  | destruct (decide _); [lia|];
    transitivity (@None byte); [|symmetry];
    apply byte_at_None; cbn [length]; lia ].

Lemma copy_data_length_memory (P : platform) (pre lenbytes post : list byte) :
  In (Z.of_nat (length lenbytes)) [1; 2; 4; 8] ->
  copy_data P zero_u64 0 (pre ++ lenbytes ++ post) (Z.of_nat (length pre))
    (Z.of_nat (length lenbytes))
  = Ok (length_memory P lenbytes).
Proof.
  intros Hlen.
  assert (Hsrc : Z.of_nat (length (pre ++ lenbytes ++ post))
                 = Z.of_nat (length pre) + Z.of_nat (length lenbytes)
                   + Z.of_nat (length post)).
  { rewrite !length_app. lia. }
  assert (H8 : Z.of_nat (length lenbytes) <= 8).
  { destruct Hlen as [E|[E|[E|[E|[]]]]]; lia. }
  unfold copy_data, copy_data_be, copy_data_le, length_memory, stored_order.
  rewrite Nat2Z.id.
  destruct (CBOR_BIG_ENDIAN P).
  - destruct (copy_be_loop_safe (length lenbytes) 0 zero_u64 0
                (pre ++ lenbytes ++ post) (Z.of_nat (length pre)))
      as (m & Hm); cbn [length zero_u64]; try lia.
    rewrite Hm. f_equal. apply copy_be_loop_Ok in Hm.
    destruct Hm as (_ & Hm). apply byte_at_ext. intros j. rewrite Hm.
    clear Hm Hsrc H8.
    destruct lenbytes as [|a [|b [|c [|d [|e [|f [|g [|i [|k l]]]]]]]]];
      cbn [length] in *;
      try (exfalso; destruct Hlen as [E|[E|[E|[E|[]]]]]; lia);
      clear Hlen; cbn [repeat Nat.sub app length]; unfold zero_u64;
      eight_byte_cases j.
  - destruct (copy_le_loop_safe (length lenbytes) 0
                (Z.of_nat (length lenbytes)) zero_u64 0
                (pre ++ lenbytes ++ post) (Z.of_nat (length pre)))
      as (m & Hm); cbn [length zero_u64]; try lia.
    rewrite Hm. f_equal. apply copy_le_loop_Ok in Hm.
    destruct Hm as (_ & Hm). apply byte_at_ext. intros j. rewrite Hm.
    clear Hm Hsrc H8.
    destruct lenbytes as [|a [|b [|c [|d [|e [|f [|g [|i [|k l]]]]]]]]];
      cbn [length] in *;
      try (exfalso; destruct Hlen as [E|[E|[E|[E|[]]]]]; lia);
      clear Hlen; cbn [repeat Nat.sub app length rev]; unfold zero_u64;
      eight_byte_cases j.
Qed.

Lemma length_memory_length (P : platform) (lenbytes : list byte) :
  (length lenbytes <= 8)%nat -> length (length_memory P lenbytes) = 8%nat.
Proof.
  intros H. unfold length_memory.
  rewrite length_app, stored_order_length, repeat_length. lia.
Qed.

Lemma declared_length_range (P : platform) (h : byte) (lenbytes : list byte) :
  (length lenbytes <= 8)%nat -> 0 <= declared_length P h lenbytes < 2 ^ 64.
Proof.
  intros H. unfold declared_length.
  destruct (get_header_fields h) as (_ & Hai).
  destruct (_ =? 0); [lia|]. destruct (_ =? _); [lia|].
  unfold u64_of_mem.
  destruct (host_big_endian P).
  - pose proof (le_value_bound (rev (length_memory P lenbytes))) as Hb.
    rewrite length_rev, length_memory_length in Hb by exact H. exact Hb.
  - pose proof (le_value_bound (length_memory P lenbytes)) as Hb.
    rewrite length_memory_length in Hb by exact H. exact Hb.
Qed.

Lemma go_get_item_length_item (P : platform) (ctx : decode_context)
    (mpre : list byte) (h : byte) (lenbytes mpost : list byte) :
  msg ctx = mpre ++ h :: lenbytes ++ mpost ->
  msgidx ctx = Z.of_nat (length mpre) ->
  Z.of_nat (length (msg ctx)) < 2 ^ 64 ->
  additional_info ctx = get_additional_info h ->
  following_bytes ctx = get_following_bytes (get_additional_info h) ->
  (get_additional_info h < 28
   /\ Z.of_nat (length lenbytes)
      = get_following_bytes (get_additional_info h))
  \/ (get_additional_info h = 31 /\ lenbytes = []) ->
  go_get_item_length P ctx
  = Ok (declared_length P h lenbytes,
        set_msgidx (msgidx ctx + (Z.of_nat (length lenbytes) + 1)) ctx).
Proof.
  intros Hmsg Hmi Hmsz Hai Hfb Hcase.
  assert (Hml : Z.of_nat (length (msg ctx))
                = Z.of_nat (length mpre) + 1 + Z.of_nat (length lenbytes)
                  + Z.of_nat (length mpost)).
  { rewrite Hmsg. rewrite length_app. cbn [length]. rewrite length_app. lia. }
  destruct (get_header_fields h) as (_ & Hai0).
  unfold go_get_item_length, declared_length. monad_unfold.
  rewrite Hfb, Hai.
  destruct Hcase as [(Hlt & Hlen)|(E31 & ->)].
  - destruct (get_following_bytes_count (get_additional_info h) ltac:(lia))
      as (Hfb0 & Hfi & Hfr).
    destruct (Z.eqb_spec (get_following_bytes (get_additional_info h))
                INDEFINITE_VALUE); [contradiction|].
    destruct (Z.eqb_spec (get_following_bytes (get_additional_info h)) 0)
      as [E0|E0].
    + ctx_simpl. rewrite !usize_small by lia.
      rewrite Hlen, E0. reflexivity.
    + assert (Hin : In (Z.of_nat (length lenbytes)) [1; 2; 4; 8]).
      { rewrite Hlen. apply following_bytes_cases.
        unfold get_following_bytes in E0.
        destruct (Z.ltb_spec (get_additional_info h) 24);
          [contradiction|lia]. }
      rewrite <- Hlen, Hmsg, Hmi.
      replace (mpre ++ h :: lenbytes ++ mpost)
        with ((mpre ++ [h]) ++ lenbytes ++ mpost)
        by (rewrite <- app_assoc; reflexivity).
      replace (Z.of_nat (length mpre) + 1)
        with (Z.of_nat (length (mpre ++ [h])))
        by (rewrite length_app; cbn [length]; lia).
      rewrite copy_data_length_memory by exact Hin.
      ctx_simpl.
      assert (H8 : (length lenbytes <= 8)%nat).
      { destruct Hin as [E|[E|[E|[E|[]]]]]; lia. }
      pose proof (declared_length_range P h lenbytes H8) as Hr.
      unfold declared_length in Hr.
      destruct (Z.eqb_spec (get_following_bytes (get_additional_info h)) 0)
        as [E0'|_]; [contradiction|].
      destruct (Z.eqb_spec (get_following_bytes (get_additional_info h))
                  INDEFINITE_VALUE); [contradiction|].
      rewrite (usize_small (u64_of_mem _ _)) by exact Hr.
      rewrite usize_small by lia.
      rewrite Hmi. reflexivity.
  - rewrite E31.
    change (get_following_bytes 31 =? INDEFINITE_VALUE) with true.
    change (get_following_bytes 31 =? 0) with false.
    cbv iota. ctx_simpl. cbn [length] in *.
    rewrite !usize_small by lia. reflexivity.
Qed.

Lemma do_string_item (P : platform) (ctx : decode_context)
    (mpre : list byte) (h : byte)
    (lenbytes data mpost bpre bmid bpost : list byte) :
  at_item ctx mpre h lenbytes (data ++ mpost) bpre bmid bpost ->
  (get_additional_info h < 28
   /\ Z.of_nat (length lenbytes)
      = get_following_bytes (get_additional_info h))
  \/ (get_additional_info h = 31 /\ lenbytes = []) ->
  declared_length P h lenbytes = Z.of_nat (length data) ->
  length bmid = length data ->
  exists ctx1,
    do_string P ctx = Ok (CBOR_SUCCESS, ctx1)
    /\ after_item ctx ctx1
         (1 + Z.of_nat (length lenbytes) + Z.of_nat (length data))
         bpre data bpost.
Proof.
  intros (Hmsg & Hmi & Hms & Hmsz & Hbuf & Hbi & Hbs & Hbsz & Hai & Hfb)
    Hcase Hlen Hw.
  assert (Hml : Z.of_nat (length (msg ctx))
                = Z.of_nat (length mpre) + 1 + Z.of_nat (length lenbytes)
                  + Z.of_nat (length data) + Z.of_nat (length mpost)).
  { rewrite Hmsg. rewrite length_app. cbn [length]. rewrite !length_app.
    lia. }
  assert (Hbl : Z.of_nat (length (buf ctx))
                = Z.of_nat (length bpre) + Z.of_nat (length bmid)
                  + Z.of_nat (length bpost)).
  { rewrite Hbuf. rewrite !length_app. lia. }
  unfold do_string. monad_unfold.
  rewrite (go_get_item_length_item P ctx mpre h lenbytes (data ++ mpost));
    try assumption; [|lia].
  ctx_simpl. rewrite Hlen.
  rewrite (usize_small (bufsize ctx - bufidx ctx)) by lia.
  rewrite (usize_small (msgsize ctx - _)) by lia.
  rewrite MIN_min.
  destruct (Z.gtb_spec (Z.of_nat (length data))
              (Z.min (bufsize ctx - bufidx ctx)
                 (msgsize ctx
                  - (msgidx ctx + (Z.of_nat (length lenbytes) + 1)))));
    [lia|].
  rewrite copy_string_loop_eq. rewrite Nat2Z.id.
  destruct (copy_be_loop_safe (length data) 0 (buf ctx) (bufidx ctx)
              (msg ctx) (msgidx ctx + (Z.of_nat (length lenbytes) + 1)))
    as (b' & Hb'); try lia.
  rewrite Hb'. ctx_simpl. apply copy_be_loop_Ok in Hb'.
  destruct Hb' as (Hlb & Hout).
  rewrite !usize_small by lia.
  eexists. split; [reflexivity|].
  unfold after_item. ctx_simpl. rewrite length_app.
  repeat split; try reflexivity; try lia.
  apply byte_at_ext. intros j. rewrite Hout.
  rewrite Hbuf, Hmsg, Hbi, Hmi.
  destruct (decide _) as [Hj|Hj].
  - rewrite (byte_at_app mpre), byte_at_cons, (byte_at_app lenbytes),
      (byte_at_app data), (byte_at_app bpre), (byte_at_app data).
    repeat destruct (decide _); try lia. f_equal. lia.
  - rewrite !(byte_at_app bpre), (byte_at_app bmid), (byte_at_app data).
    repeat destruct (decide _); try lia; try reflexivity. f_equal. lia.
Qed.

Lemma do_string_too_long (P : platform) (ctx : decode_context)
    (mpre : list byte) (h : byte) (lenbytes mpost : list byte) :
  msg ctx = mpre ++ h :: lenbytes ++ mpost ->
  msgidx ctx = Z.of_nat (length mpre) ->
  msgsize ctx = Z.of_nat (length (msg ctx)) -> msgsize ctx < 2 ^ 64 ->
  0 <= bufidx ctx <= bufsize ctx -> bufsize ctx < 2 ^ 64 ->
  additional_info ctx = get_additional_info h ->
  following_bytes ctx = get_following_bytes (get_additional_info h) ->
  (get_additional_info h < 28
   /\ Z.of_nat (length lenbytes)
      = get_following_bytes (get_additional_info h))
  \/ (get_additional_info h = 31 /\ lenbytes = []) ->
  Z.min (bufsize ctx - bufidx ctx) (Z.of_nat (length mpost))
  < declared_length P h lenbytes ->
  do_string P ctx
  = Ok (CBOR_ILLEGAL,
        set_msgidx (msgidx ctx + (Z.of_nat (length lenbytes) + 1)) ctx).
Proof.
  intros Hmsg Hmi Hms Hmsz Hb Hbsz Hai Hfb Hcase Hlong.
  assert (Hml : Z.of_nat (length (msg ctx))
                = Z.of_nat (length mpre) + 1 + Z.of_nat (length lenbytes)
                  + Z.of_nat (length mpost)).
  { rewrite Hmsg. rewrite length_app. cbn [length]. rewrite !length_app.
    lia. }
  unfold do_string. monad_unfold.
  rewrite (go_get_item_length_item P ctx mpre h lenbytes mpost);
    try assumption; [|lia].
  ctx_simpl.
  rewrite (usize_small (bufsize ctx - bufidx ctx)) by lia.
  rewrite (usize_small (msgsize ctx - _)) by lia.
  rewrite MIN_min.
  destruct (Z.gtb_spec (declared_length P h lenbytes)
              (Z.min (bufsize ctx - bufidx ctx)
                 (msgsize ctx
                  - (msgidx ctx + (Z.of_nat (length lenbytes) + 1)))));
    [reflexivity|lia].
Qed.

(** X7: a byte or text string is copied verbatim.  The string is the first
    item, and the length that [go_get_item_length] reads from its header
    and following bytes is the number of bytes behind them.  The buffer is
    not empty, has room for the string, and has at least as many bytes as
    the length field has, which is what the bounds validator asks for
    before the string is looked at.  Nothing follows the string, or the
    string fills the buffer.  Then the bytes are stored unchanged and in
    order at the start of the buffer, the bytes of the buffer behind the
    copy keep their values, the read cursor ends behind the string and the
    write cursor behind the copy; the answer is Overrun if input follows,
    OutputExhausted if the buffer has room left, Success otherwise. *)
Theorem cbor_decode_string (P : platform) (h : byte)
    (lenbytes data rest bmid bpost : list byte) :
  1 <= CBOR_RECURSION_MAX_LEVEL P < 256 ->
  get_major_type h = 2 \/ get_major_type h = 3 ->
  get_additional_info h < 28 ->
  Z.of_nat (length lenbytes) = get_following_bytes (get_additional_info h) ->
  declared_length P h lenbytes = Z.of_nat (length data) ->
  length bmid = length data ->
  get_following_bytes (get_additional_info h)
  <= Z.of_nat (length (bmid ++ bpost)) ->
  0 < Z.of_nat (length (bmid ++ bpost)) < 2 ^ 64 ->
  Z.of_nat (length (h :: lenbytes ++ data ++ rest)) < 2 ^ 64 ->
  rest = [] \/ bpost = [] ->
  exists ctx,
    cbor_decode_ctx P (bmid ++ bpost) (h :: lenbytes ++ data ++ rest)
    = Ok (code_after_item rest bpost, ctx)
    /\ buf ctx = data ++ bpost
    /\ bufidx ctx = Z.of_nat (length data)
    /\ msgidx ctx = 1 + Z.of_nat (length lenbytes) + Z.of_nat (length data).
Proof.
  intros Hmax Hmt Hai Hll Hlen Hw Hfit Hb Hm Hend.
  destruct (get_header_fields h) as (_ & Hai0).
  destruct (get_following_bytes_count (get_additional_info h) ltac:(lia))
    as (Hfb0 & Hfi & Hfr).
  set (b := bmid ++ bpost) in *.
  set (m := h :: lenbytes ++ data ++ rest) in *.
  assert (Hml : Z.of_nat (length m)
                = 1 + Z.of_nat (length lenbytes) + Z.of_nat (length data)
                  + Z.of_nat (length rest)).
  { subst m. cbn [length]. rewrite !length_app. lia. }
  assert (Hat : at_item (first_context b m h) [] h lenbytes (data ++ rest)
                  [] bmid bpost).
  { unfold at_item, first_context. ctx_simpl.
    cbn [msg msgidx msgsize buf bufidx bufsize initial_context].
    repeat split; try reflexivity; lia. }
  assert (Hc : cursors_in_range (first_context b m h)).
  { unfold cursors_in_range, first_context. ctx_simpl.
    cbn [msgidx msgsize bufidx bufsize initial_context]. lia. }
  assert (Hv : has_valid_buffers_for_following_bytes (first_context b m h)
               = None).
  { apply has_valid_buffers_pass; [exact Hc|exact Hfr| |];
      unfold first_context; ctx_simpl;
      cbn [msgidx msgsize bufidx bufsize initial_context]; lia. }
  destruct (do_string_item P _ _ _ _ _ _ _ _ _ Hat
              (or_introl (conj Hai Hll)) Hlen Hw) as (ctx1 & Hrun & Hafter).
  assert (Hmeq : m = h :: (lenbytes ++ data) ++ rest).
  { subst m. rewrite <- app_assoc. reflexivity. }
  replace (1 + Z.of_nat (length lenbytes) + Z.of_nat (length data))
    with (1 + Z.of_nat (length (lenbytes ++ data)))
    in * by (rewrite length_app; lia).
  replace (Z.of_nat (length data)) with (Z.of_nat (length bmid))
    by (rewrite Hw; reflexivity).
  clearbody m. subst m.
  apply (cbor_decode_ctx_after_item P h (lenbytes ++ data) rest bmid bpost
           data ctx1); try assumption.
  - apply Hb.
  - symmetry. exact Hw.
  - intros loop. destruct Hmt as [E|E]; rewrite E; exact Hrun.
Qed.

Lemma cbor_decode_string_witness :
  exists ctx,
    cbor_decode_ctx (little_endian_build 8) [x00; x00; x2a] [x62; x68; x69]
    = Ok (CBOR_UNDERRUN, ctx)
    /\ buf ctx = [x68; x69; x2a] /\ bufidx ctx = 2 /\ msgidx ctx = 3.
Proof.
  apply (cbor_decode_string (little_endian_build 8) x62 [] [x68; x69] []
           [x00; x00] [x2a]); by_computation.
Defined.

(** X8: a string that is too long is Malformed ([CBOR_ILLEGAL]), not
    OutputExhausted.  The string is the first item; its declared length
    exceeds the input that is left behind its length field, or the size of
    the buffer.  The buffer is not empty and has at least as many bytes as
    the length field has: a narrower one is refused by the bounds validator
    with OutputExhausted before the length is read.  No byte of the string
    is copied, and the read cursor stays behind the length field. *)
Theorem cbor_decode_string_too_long (P : platform) (h : byte)
    (lenbytes rest b : list byte) :
  1 <= CBOR_RECURSION_MAX_LEVEL P < 256 ->
  get_major_type h = 2 \/ get_major_type h = 3 ->
  get_additional_info h < 28 ->
  Z.of_nat (length lenbytes) = get_following_bytes (get_additional_info h) ->
  get_following_bytes (get_additional_info h) <= Z.of_nat (length b) ->
  0 < Z.of_nat (length b) < 2 ^ 64 ->
  Z.of_nat (length (h :: lenbytes ++ rest)) < 2 ^ 64 ->
  Z.min (Z.of_nat (length b)) (Z.of_nat (length rest))
  < declared_length P h lenbytes ->
  exists ctx,
    cbor_decode_ctx P b (h :: lenbytes ++ rest) = Ok (CBOR_ILLEGAL, ctx)
    /\ buf ctx = b /\ bufidx ctx = 0
    /\ msgidx ctx = 1 + Z.of_nat (length lenbytes).
Proof.
  intros Hmax Hmt Hai Hll Hfit Hb Hm Hlong.
  destruct (get_header_fields h) as (_ & Hai0).
  destruct (get_following_bytes_count (get_additional_info h) ltac:(lia))
    as (Hfb0 & Hfi & Hfr).
  set (m := h :: lenbytes ++ rest) in *.
  assert (Hml : Z.of_nat (length m)
                = 1 + Z.of_nat (length lenbytes) + Z.of_nat (length rest)).
  { subst m. cbn [length]. rewrite !length_app. lia. }
  assert (Hc : cursors_in_range (first_context b m h)).
  { unfold cursors_in_range, first_context. ctx_simpl.
    cbn [msgidx msgsize bufidx bufsize initial_context]. lia. }
  assert (Hv : has_valid_buffers_for_following_bytes (first_context b m h)
               = None).
  { apply has_valid_buffers_pass; [exact Hc|exact Hfr| |];
      unfold first_context; ctx_simpl;
      cbn [msgidx msgsize bufidx bufsize initial_context]; lia. }
  pose proof (do_string_too_long P (first_context b m h) [] h lenbytes rest)
    as Hrun.
  eexists. split.
  - apply (cbor_decode_ctx_handler_error P b (lenbytes ++ rest) h
             CBOR_ILLEGAL);
      [exact Hmax|lia|exact Hv| |discriminate|discriminate].
    intros loop.
    destruct Hmt as [E|E]; rewrite E; cbn [callbacks]; apply Hrun;
      try reflexivity; try (left; split; assumption);
      unfold first_context; ctx_simpl;
      cbn [msgidx msgsize bufidx bufsize initial_context]; lia.
  - unfold first_context. ctx_simpl.
    cbn [buf bufidx msgidx set_recursion_depth initial_context].
    split; [reflexivity|]. split; [reflexivity|]. lia.
Qed.

Lemma cbor_decode_string_too_long_witness :
  exists ctx,
    cbor_decode_ctx (little_endian_build 8) [x2a] [x62; x68; x69]
    = Ok (CBOR_ILLEGAL, ctx)
    /\ buf ctx = [x2a] /\ bufidx ctx = 0 /\ msgidx ctx = 1.
Proof.
  apply (cbor_decode_string_too_long (little_endian_build 8) x62 []
           [x68; x69] [x2a]); by_computation.
Defined.

Lemma le_value_app (a b : list byte) :
  le_value (a ++ b) = le_value a + 2 ^ (8 * Z.of_nat (length a)) * le_value b.
Proof.
  induction a as [|x a IH].
  - cbn [app le_value length]. change (2 ^ (8 * Z.of_nat 0)) with 1. lia.
  - cbn [app le_value length]. rewrite IH.
    replace (8 * Z.of_nat (S (length a)))
      with (8 + 8 * Z.of_nat (length a)) by lia.
    rewrite Z.pow_add_r by lia. change (2 ^ 8) with 256. lia.
Qed.

Lemma le_value_zeros (n : nat) : le_value (repeat x00 n) = 0.
Proof.
  induction n as [|n IH]; [reflexivity|].
  cbn [repeat le_value]. rewrite IH. reflexivity.
Qed.

Lemma length_memory_value (P : platform) (lenbytes : list byte) :
  (length lenbytes <= 8)%nat ->
  CBOR_BIG_ENDIAN P = host_big_endian P ->
  u64_of_mem P (length_memory P lenbytes)
  = if host_big_endian P
    then be_value lenbytes * 2 ^ (64 - 8 * Z.of_nat (length lenbytes))
    else be_value lenbytes.
Proof.
  intros H8 Hsame. unfold u64_of_mem, length_memory, stored_order, be_value.
  rewrite Hsame. destruct (host_big_endian P).
  - rewrite rev_app_distr, rev_repeat, le_value_app, le_value_zeros.
    rewrite repeat_length.
    replace (8 * Z.of_nat (8 - length lenbytes))
      with (64 - 8 * Z.of_nat (length lenbytes)) by lia.
    lia.
  - rewrite le_value_app, le_value_zeros. lia.
Qed.

(** X9: the length of a string, array or map that comes in 1, 2, 4 or 8
    following bytes.  In a build whose [CBOR_BIG_ENDIAN] setting matches the
    host, [go_get_item_length] moves the read cursor past the header and the
    length bytes; on a little-endian host it returns the number they spell
    (most significant byte first), while on a big-endian host the bytes land
    at the start of the 64-bit variable, so that a length of fewer than 8
    bytes comes out multiplied by 2^(64 - 8 * bytes). *)
Theorem go_get_item_length_value (P : platform) (ctx : decode_context)
    (mpre : list byte) (h : byte) (lenbytes mpost : list byte) :
  msg ctx = mpre ++ h :: lenbytes ++ mpost ->
  msgidx ctx = Z.of_nat (length mpre) ->
  Z.of_nat (length (msg ctx)) < 2 ^ 64 ->
  additional_info ctx = get_additional_info h ->
  following_bytes ctx = get_following_bytes (get_additional_info h) ->
  24 <= get_additional_info h < 28 ->
  Z.of_nat (length lenbytes) = get_following_bytes (get_additional_info h) ->
  CBOR_BIG_ENDIAN P = host_big_endian P ->
  go_get_item_length P ctx
  = Ok (if host_big_endian P
        then be_value lenbytes * 2 ^ (64 - 8 * Z.of_nat (length lenbytes))
        else be_value lenbytes,
        set_msgidx (msgidx ctx + (Z.of_nat (length lenbytes) + 1)) ctx).
Proof.
  intros Hmsg Hmi Hmsz Hai Hfb Hrange Hlen Hsame.
  rewrite (go_get_item_length_item P ctx mpre h lenbytes mpost);
    try assumption; [|left; split; [lia|exact Hlen]].
  f_equal. f_equal. unfold declared_length.
  pose proof (following_bytes_cases h Hrange) as Hin.
  assert (H8 : (length lenbytes <= 8)%nat).
  { rewrite <- Hlen in Hin. destruct Hin as [E|[E|[E|[E|[]]]]]; lia. }
  destruct (Z.eqb_spec (get_following_bytes (get_additional_info h)) 0)
    as [E|_].
  { rewrite E in Hin. destruct Hin as [E'|[E'|[E'|[E'|[]]]]]; discriminate. }
  destruct (Z.eqb_spec (get_following_bytes (get_additional_info h))
              INDEFINITE_VALUE) as [E|_].
  { rewrite E in Hin. destruct Hin as [E'|[E'|[E'|[E'|[]]]]]; discriminate. }
  apply length_memory_value; assumption.
Qed.

Lemma go_get_item_length_value_witness :
  go_get_item_length (little_endian_build 8)
    (first_context [x00] [x59; x01; x02] x59)
  = Ok (258, set_msgidx 3 (first_context [x00] [x59; x01; x02] x59))
  /\ go_get_item_length
       {| CBOR_RECURSION_MAX_LEVEL := 8; CBOR_BIG_ENDIAN := true;
          host_big_endian := true |}
       (first_context [x00] [x59; x01; x02] x59)
     = Ok (258 * 2 ^ 48, set_msgidx 3 (first_context [x00] [x59; x01; x02] x59)).
Proof.
  split.
  - apply (go_get_item_length_value (little_endian_build 8)
             (first_context [x00] [x59; x01; x02] x59) [] x59 [x01; x02] []);
      by_computation.
  - apply (go_get_item_length_value
             {| CBOR_RECURSION_MAX_LEVEL := 8; CBOR_BIG_ENDIAN := true;
                host_big_endian := true |}
             (first_context [x00] [x59; x01; x02] x59) [] x59 [x01; x02] []);
      by_computation.
Defined.

(** ** Negative integers carried by the header *)

(** X10: a negative integer -(k+1) whose k is below 24 and sits in the
    header is stored as the single byte 255 - k, its two's complement in
    one byte, whatever the byte order of the build; there is no promotion,
    and both cursors advance by one. *)
Theorem cbor_decode_negative_inline (P : platform) (h a : byte) :
  1 <= CBOR_RECURSION_MAX_LEVEL P < 256 ->
  get_major_type h = 1 -> get_additional_info h < 24 ->
  exists ctx,
    cbor_decode_ctx P [a] [h] = Ok (CBOR_SUCCESS, ctx)
    /\ buf ctx = [Z_to_byte (255 - get_additional_info h)]
    /\ bufidx ctx = 1 /\ msgidx ctx = 1.
Proof.
  intros Hmax Hmt Hai.
  assert (Hh : exists ctx1,
             (forall loop,
                 callbacks P loop (get_major_type h) (first_context [a] [h] h)
                 = Ok (CBOR_SUCCESS, ctx1))
             /\ has_valid_buffers_for_following_bytes
                  (first_context [a] [h] h) = None
             /\ msgidx ctx1 = 1 /\ msgsize ctx1 = 1
             /\ bufidx ctx1 = 1 /\ bufsize ctx1 = 1
             /\ buf ctx1 = [Z_to_byte (255 - get_additional_info h)]).
  { destruct P as [lvl be hbe]. clear Hmax.
    destruct h; try (vm_compute in Hmt; discriminate);
      try (vm_compute in Hai; discriminate);
      clear Hmt Hai; destruct be, hbe;
      (eexists; split; [intros loop; vm_compute; reflexivity|];
       vm_compute; repeat split; reflexivity). }
  destruct Hh as (ctx1 & Hcb & Hv & Hmi & Hms & Hbi & Hbs & Hbuf).
  exists (set_recursion_depth (u8 (recursion_depth ctx1 - 1)) ctx1).
  split; [|cbn [buf bufidx msgidx set_recursion_depth]; tauto].
  apply (cbor_decode_ctx_item P h [] [] [a] [] ctx1 Hmax);
    try assumption; try reflexivity; auto.
Qed.

Lemma cbor_decode_negative_inline_witness :
  exists ctx,
    cbor_decode_ctx (little_endian_build 8) [x00] [x20]
    = Ok (CBOR_SUCCESS, ctx)
    /\ buf ctx = [xff] /\ bufidx ctx = 1 /\ msgidx ctx = 1.
Proof.
  apply (cbor_decode_negative_inline (little_endian_build 8) x20 x00);
    by_computation.
Defined.

(** ** Sequences and nesting *)



















(** ** Nesting beyond the limit *)

Lemma decode_loop_excessive (P : platform) (rest : list byte) :
  1 <= CBOR_RECURSION_MAX_LEVEL P < 255 ->
  forall (hs : list byte) (fuel : nat) (maxitem item : Z)
         (ctx : decode_context) (mpre : list byte),
    hs <> [] -> forallb array_header hs = true ->
    Z.of_nat (length hs) < Z.of_nat fuel ->
    msg ctx = mpre ++ hs ++ rest ->
    msgidx ctx = Z.of_nat (length mpre) ->
    msgsize ctx = Z.of_nat (length (msg ctx)) -> msgsize ctx < 2 ^ 64 ->
    0 <= bufidx ctx < bufsize ctx -> bufsize ctx < 2 ^ 64 ->
    1 <= recursion_depth ctx ->
    recursion_depth ctx + Z.of_nat (length hs)
    = CBOR_RECURSION_MAX_LEVEL P + 1 ->
    exists ctx',
      decode_loop P fuel maxitem item ctx = Ok (CBOR_EXCESSIVE, ctx')
      /\ buf ctx' = buf ctx /\ bufidx ctx' = bufidx ctx
      /\ msgidx ctx' = msgidx ctx + Z.of_nat (length hs)
      /\ recursion_depth ctx' = recursion_depth ctx + 1.
Proof.
  intros Hmax hs.
  induction hs as [|h hs IH];
    intros fuel maxitem item ctx mpre Hne Hall Hfuel Hmsg Hmi Hms Hmsz Hb Hbsz
           Hd0 Hd; [contradiction|].
  destruct fuel as [|f]; [lia|].
  cbn [forallb] in Hall. apply andb_true_iff in Hall.
  destruct Hall as (Hh & Hall).
  unfold array_header in Hh. apply andb_true_iff in Hh.
  destruct Hh as (Hmt & Hai). apply Z.ltb_lt in Hai.
  apply orb_true_iff in Hmt.
  destruct (get_header_fields h) as (_ & Hai0).
  assert (Hfb : get_following_bytes (get_additional_info h) = 0).
  { unfold get_following_bytes.
    destruct (Z.ltb_spec (get_additional_info h) 24); [reflexivity|lia]. }
  assert (Hml : Z.of_nat (length (msg ctx))
                = Z.of_nat (length mpre) + 1 + Z.of_nat (length hs)
                  + Z.of_nat (length rest)).
  { rewrite Hmsg. rewrite length_app. cbn [app length]. rewrite length_app.
    lia. }
  assert (Hhd : byte_at (msg ctx) (msgidx ctx) = Some h).
  { rewrite Hmsg, Hmi. rewrite byte_at_app.
    destruct (decide _); [lia|]. cbn [app]. rewrite byte_at_cons.
    destruct (decide _); [reflexivity|lia]. }
  rewrite (decode_loop_unfold P f maxitem item ctx h); [|lia|lia|exact Hhd].
  cbv zeta. rewrite Hfb.
  set (ch := set_header (get_major_type h) (get_additional_info h) 0 ctx).
  rewrite has_valid_buffers_pass;
    [|unfold cursors_in_range, ch; ctx_simpl; lia|discriminate
     |unfold ch; ctx_simpl; lia|unfold ch; ctx_simpl; lia].
  assert (Hrec : exists ctx1,
             do_recursive P (fun n => decode_loop P f n 0) ch
             = Ok (CBOR_EXCESSIVE, ctx1)
             /\ buf ctx1 = buf ctx /\ bufidx ctx1 = bufidx ctx
             /\ msgidx ctx1 = msgidx ctx + Z.of_nat (length (h :: hs))
             /\ recursion_depth ctx1 = recursion_depth ctx + 1).
  { unfold do_recursive. monad_unfold.
    rewrite (go_get_item_length_item P ch mpre h [] (hs ++ rest));
      [|exact Hmsg|exact Hmi|unfold ch; ctx_simpl; lia|reflexivity
       |unfold ch; ctx_simpl; symmetry; exact Hfb
       |left; split; [lia|rewrite Hfb; reflexivity]].
    cbn [length]. change (Z.of_nat 0 + 1) with 1.
    set (c1 := set_msgidx (msgidx ch + 1) ch).
    destruct hs as [|h' hs].
    - (* the innermost header: the next level is one too many *)
      cbn [length] in Hd.
      change (decode_cbor_with P (fun n => decode_loop P f n 0)
                (declared_length P h []) c1)
        with (decode_cbor P f (declared_length P h []) c1).
      rewrite decode_cbor_excessive;
        [|lia|unfold c1, ch; ctx_simpl; lia].
      eexists. split; [reflexivity|].
      unfold c1, ch. ctx_simpl. cbn [length]. repeat split; lia.
    - rewrite decode_cbor_with_unfold
        by (unfold c1, ch; ctx_simpl; cbn [length] in Hd; lia).
      destruct (IH f (declared_length P h []) 0
                  (set_recursion_depth (recursion_depth c1 + 1) c1)
                  (mpre ++ [h]) ltac:(discriminate) Hall)
        as (ctx3 & Hrun & B1 & B2 & B3 & B4).
      + cbn [length] in *. lia.
      + unfold c1, ch. ctx_simpl. rewrite Hmsg, <- app_assoc. reflexivity.
      + unfold c1, ch. ctx_simpl. rewrite length_app. cbn [length]. lia.
      + exact Hms.
      + exact Hmsz.
      + exact Hb.
      + exact Hbsz.
      + unfold c1, ch. ctx_simpl. lia.
      + unfold c1, ch. ctx_simpl. cbn [length] in *. lia.
      + rewrite Hrun. eexists. split; [reflexivity|].
        unfold c1, ch in *. ctx_simpl.
        rewrite B4, u8_small by (cbn [length] in Hd; lia).
        cbn [length] in *. repeat split; try assumption; lia. }
  destruct Hrec as (ctx1 & Hrun & B1 & B2 & B3 & B4).
  exists ctx1.
  replace (major_type ch) with (get_major_type h) by reflexivity.
  split; [|repeat split; assumption].
  destruct Hmt as [E|E]; apply Z.eqb_eq in E; rewrite E; cbn [callbacks];
    rewrite Hrun; reflexivity.
Qed.

(** X12: one level of nesting too many.  A message that opens as many
    arrays or maps (with the count in the header) as the build's maximum
    level is refused with Excessive, whatever follows the headers, before
    anything is written: the read cursor is behind the headers, and the
    depth counter is left at 1. *)
Theorem cbor_decode_excessive (P : platform) (hs rest b : list byte) :
  1 <= CBOR_RECURSION_MAX_LEVEL P < 255 ->
  Z.of_nat (length hs) = CBOR_RECURSION_MAX_LEVEL P ->
  forallb array_header hs = true ->
  0 < Z.of_nat (length b) < 2 ^ 64 ->
  Z.of_nat (length (hs ++ rest)) < 2 ^ 64 ->
  exists ctx,
    cbor_decode_ctx P b (hs ++ rest) = Ok (CBOR_EXCESSIVE, ctx)
    /\ buf ctx = b /\ bufidx ctx = 0
    /\ msgidx ctx = CBOR_RECURSION_MAX_LEVEL P
    /\ recursion_depth ctx = 1.
Proof.
  intros Hmax Hlen Hall Hb Hm.
  unfold cbor_decode_ctx, decode_cbor.
  rewrite decode_cbor_with_unfold
    by (cbn [recursion_depth initial_context]; lia).
  cbn [recursion_depth initial_context]. change (0 + 1) with 1.
  destruct (decode_loop_excessive P rest Hmax hs
              (decode_fuel (hs ++ rest)) 0 0
              (set_recursion_depth 1 (initial_context b (hs ++ rest))) [])
    as (ctx' & Hrun & B1 & B2 & B3 & B4).
  - intros ->. cbn [length] in Hlen. lia.
  - exact Hall.
  - unfold decode_fuel. rewrite length_app. lia.
  - reflexivity.
  - reflexivity.
  - reflexivity.
  - exact Hm.
  - cbn [bufidx bufsize set_recursion_depth initial_context]. lia.
  - cbn [bufsize set_recursion_depth initial_context]. lia.
  - cbn [recursion_depth set_recursion_depth]. lia.
  - cbn [recursion_depth set_recursion_depth]. lia.
  - rewrite Hrun.
    exists (set_recursion_depth (u8 (recursion_depth ctx' - 1)) ctx').
    split; [reflexivity|].
    cbn [buf bufidx msgidx recursion_depth set_recursion_depth
         initial_context] in *.
    rewrite B4. change (u8 (1 + 1 - 1)) with 1.
    repeat split; try assumption. lia.
Qed.

Lemma cbor_decode_excessive_witness :
  exists ctx,
    cbor_decode_ctx (little_endian_build 2) [x2a] [x81; xa1; x01]
    = Ok (CBOR_EXCESSIVE, ctx)
    /\ buf ctx = [x2a] /\ bufidx ctx = 0 /\ msgidx ctx = 2
    /\ recursion_depth ctx = 1.
Proof.
  apply (cbor_decode_excessive (little_endian_build 2) [x81; xa1] [x01]
           [x2a]); by_computation.
Defined.

(** ** Indefinite-length arrays and maps *)




(** ** Errors behind well-formed items *)

Lemma decode_loop_refused (P : platform) (f : nat) (maxitem item : Z)
    (ctx : decode_context) (mpre : list byte) (h : byte) (rest : list byte)
    (e : cbor_error_t) :
  msg ctx = mpre ++ h :: rest ->
  msgidx ctx = Z.of_nat (length mpre) ->
  msgsize ctx = Z.of_nat (length (msg ctx)) -> msgsize ctx < 2 ^ 64 ->
  0 <= bufidx ctx < bufsize ctx -> bufsize ctx < 2 ^ 64 ->
  refused h rest (bufsize ctx - bufidx ctx) = Some e ->
  decode_loop P (S f) maxitem item ctx
  = Ok (e, set_header (get_major_type h) (get_additional_info h)
             (get_following_bytes (get_additional_info h)) ctx).
Proof.
  intros Hmsg Hmi Hms Hmsz Hb Hbsz Href.
  assert (Hml : Z.of_nat (length (msg ctx))
                = Z.of_nat (length mpre) + 1 + Z.of_nat (length rest)).
  { rewrite Hmsg, length_app. cbn [length]. lia. }
  assert (Hh : byte_at (msg ctx) (msgidx ctx) = Some h).
  { rewrite Hmsg, Hmi, byte_at_app. destruct (decide _); [lia|].
    rewrite byte_at_cons. destruct (decide _); [reflexivity|lia]. }
  rewrite (decode_loop_unfold P f maxitem item ctx h); [|lia|lia|exact Hh].
  cbv zeta.
  set (ch := set_header (get_major_type h) (get_additional_info h)
               (get_following_bytes (get_additional_info h)) ctx).
  destruct (get_header_fields h) as (Hmt0 & Hai0).
  unfold refused in Href.
  assert (Hc : cursors_in_range ch ->
               following_bytes ch
               = get_following_bytes (get_additional_info h)) by reflexivity.
  destruct ((28 <=? get_additional_info h) && (get_additional_info h <=? 30))
    eqn:Eres.
  { (* reserved *)
    injection Href as <-.
    apply andb_true_iff in Eres. destruct Eres as (E1 & E2).
    apply Z.leb_le in E1, E2.
    unfold has_valid_buffers_for_following_bytes.
    change (following_bytes ch)
      with (get_following_bytes (get_additional_info h)).
    assert (Hr : get_following_bytes (get_additional_info h)
                 = RESERVED_VALUE).
    { unfold get_following_bytes.
      destruct (Z.ltb_spec (get_additional_info h) 24); [lia|].
      destruct (Z.eqb_spec (get_additional_info h) 31); [lia|].
      destruct (Z.geb_spec (get_additional_info h) 28); [reflexivity|lia]. }
    rewrite Hr. reflexivity. }
  apply andb_false_iff in Eres.
  destruct (Z.eqb_spec (get_additional_info h) 31) as [E31|N31].
  { (* the indefinite-length marker on an integer or a tag *)
    assert (Hfb : following_bytes ch = INDEFINITE_VALUE).
    { change (following_bytes ch)
        with (get_following_bytes (get_additional_info h)).
      rewrite E31. reflexivity. }
    assert (Hv : has_valid_buffers_for_following_bytes ch = None).
    { unfold has_valid_buffers_for_following_bytes. rewrite Hfb.
      reflexivity. }
    rewrite Hv.
    assert (Hu : do_unsigned_integer P ch = Ok (CBOR_ILLEGAL, ch)).
    { unfold do_unsigned_integer. monad_unfold. rewrite Hfb. reflexivity. }
    change (major_type ch) with (get_major_type h).
    destruct (Z.leb_spec (get_major_type h) 1) as [Hint|Hint].
    - injection Href as <-.
      assert (Hcase : get_major_type h = 0 \/ get_major_type h = 1) by lia.
      destruct Hcase as [E|E]; rewrite E; cbn [callbacks].
      + rewrite Hu. reflexivity.
      + unfold do_negative_integer. monad_unfold. rewrite Hu. reflexivity.
    - destruct (Z.eqb_spec (get_major_type h) 6) as [E6|N6];
        [|discriminate].
      injection Href as <-. rewrite E6. reflexivity. }
  destruct (get_following_bytes_count (get_additional_info h) ltac:(lia))
    as (Hfb0 & Hfi & Hfr).
  assert (Hcr : cursors_in_range ch).
  { unfold cursors_in_range, ch. ctx_simpl. lia. }
  destruct (Z.ltb_spec (Z.of_nat (length rest))
              (get_following_bytes (get_additional_info h))) as [Hshort|Hin].
  { (* truncated *)
    injection Href as <-.
    unfold has_valid_buffers_for_following_bytes.
    change (following_bytes ch)
      with (get_following_bytes (get_additional_info h)).
    change (msgsize ch) with (msgsize ctx).
    change (msgidx ch) with (msgidx ctx).
    destruct (Z.eqb_spec (get_following_bytes (get_additional_info h))
                RESERVED_VALUE); [reflexivity|].
    destruct (Z.eqb_spec (get_following_bytes (get_additional_info h))
                INDEFINITE_VALUE); [contradiction|].
    rewrite (usize_small (msgsize ctx - msgidx ctx)) by lia.
    destruct (Z.gtb_spec (get_following_bytes (get_additional_info h) + 1)
                (msgsize ctx - msgidx ctx)); [reflexivity|lia]. }
  destruct (Z.ltb_spec (bufsize ctx - bufidx ctx)
              (get_following_bytes (get_additional_info h))) as [Hsmall|Hfit].
  { (* no room for the following bytes *)
    injection Href as <-.
    rewrite has_valid_buffers_underrun;
      [reflexivity|exact Hcr|exact Hfr|exact Hfi
      |unfold ch; ctx_simpl; lia|unfold ch; ctx_simpl; lia]. }
  destruct (Z.eqb_spec (get_major_type h) 6) as [E6|N6]; [|discriminate].
  injection Href as <-.
  rewrite has_valid_buffers_pass;
    [|exact Hcr|exact Hfr|unfold ch; ctx_simpl; lia|unfold ch; ctx_simpl; lia].
  change (major_type ch) with (get_major_type h). rewrite E6. reflexivity.
Qed.

Lemma refused_codes (h : byte) (rest : list byte) (room : Z)
    (e : cbor_error_t) :
  refused h rest room = Some e ->
  e = CBOR_ILLEGAL \/ e = CBOR_INVALID \/ e = CBOR_UNDERRUN.
Proof.
  unfold refused.
  repeat match goal with
         | |- context [if ?c then _ else _] => destruct c
         end; intros [= <-]; auto.
Qed.



(** ** Tags *)

Lemma refused_tag (h : byte) (rest : list byte) (x : byte) (b : list byte) :
  get_major_type h = 6 ->
  refused h rest (Z.of_nat (length (x :: b)))
  = Some (tag_result h rest (x :: b)).
Proof.
  intros Hmt. unfold refused, tag_result. rewrite Hmt.
  change (6 <=? 1) with false. change (6 =? 6) with true. cbv iota.
  repeat match goal with
         | |- context [if ?c then _ else _] => destruct c
         end; reflexivity.
Qed.

(** X3: tags are not decoded.  A message that starts with a tag header
    (major type 6) never yields Success, and the buffer and both cursors
    are left as they were.  For an empty buffer the answer is Overrun, as
    the loop does not run.  Otherwise it is Malformed ([CBOR_ILLEGAL]) for a
    reserved additional-info value or following bytes that the message does
    not hold; failing that, OutputExhausted ([CBOR_UNDERRUN]) for more
    following bytes than the buffer has bytes; and Unsupported
    ([CBOR_INVALID]) in every other case: always for a tag number below
    24. *)
Theorem cbor_decode_tag (P : platform) (h : byte) (rest b : list byte) :
  1 <= CBOR_RECURSION_MAX_LEVEL P < 256 ->
  Z.of_nat (length b) < 2 ^ 64 ->
  Z.of_nat (length rest) + 1 < 2 ^ 64 ->
  get_major_type h = 6 ->
  exists ctx,
    cbor_decode_ctx P b (h :: rest) = Ok (tag_result h rest b, ctx)
    /\ buf ctx = b /\ bufidx ctx = 0 /\ msgidx ctx = 0
    /\ tag_result h rest b <> CBOR_SUCCESS.
Proof.
  intros Hmax Hb Hrest Hmt.
  assert (Hne : tag_result h rest b <> CBOR_SUCCESS).
  { unfold tag_result. destruct b; [discriminate|].
    repeat match goal with
           | |- context [if ?c then _ else _] => destruct c
           end; discriminate. }
  unfold cbor_decode_ctx, decode_cbor.
  rewrite decode_cbor_with_unfold
    by (cbn [recursion_depth initial_context]; lia).
  cbn [recursion_depth initial_context]. change (0 + 1) with 1.
  unfold decode_fuel.
  destruct b as [|x b].
  - rewrite decode_loop_exit
      by (cbn [bufidx bufsize set_recursion_depth initial_context length];
          apply andb_false_r).
    eexists. split; [reflexivity|]. repeat split. exact Hne.
  - pose proof (refused_tag h rest x b Hmt) as Href.
    rewrite (decode_loop_refused P (length (h :: rest)) 0 0
               (set_recursion_depth 1 (initial_context (x :: b) (h :: rest)))
               [] h rest (tag_result h rest (x :: b)));
      [|reflexivity|reflexivity|reflexivity
       |cbn [msgsize set_recursion_depth initial_context length]; lia
       |cbn [bufidx bufsize set_recursion_depth initial_context length]; lia
       |cbn [bufsize set_recursion_depth initial_context]; lia
       |cbn [bufidx bufsize set_recursion_depth initial_context];
        rewrite Z.sub_0_r; exact Href].
    eexists. split.
    + f_equal. f_equal.
      destruct (refused_codes _ _ _ _ Href) as [E|[E|E]]; rewrite E;
        reflexivity.
    + repeat split. exact Hne.
Qed.

Lemma cbor_decode_tag_witness :
  exists ctx,
    cbor_decode_ctx (little_endian_build 8) [x2a] [xc1; x01]
    = Ok (CBOR_INVALID, ctx)
    /\ buf ctx = [x2a] /\ bufidx ctx = 0 /\ msgidx ctx = 0
    /\ CBOR_INVALID <> CBOR_SUCCESS.
Proof.
  apply (cbor_decode_tag (little_endian_build 8) xc1 [x01] [x2a]);
    by_computation.
Defined.

(** ** What the result codes tell *)

Ltac invert_run H :=
  repeat first
    [ discriminate H
    | match type of H with
      | match ?x with _ => _ end = Ok _ =>
          let E := fresh "E" in destruct x eqn:E
      | match ?x with _ => _ end _ = Ok _ =>
          let E := fresh "E" in destruct x eqn:E
      end; cbv beta iota in H ].

Lemma do_unsigned_integer_codes (P : platform) (ctx ctx' : decode_context)
    (e : cbor_error_t) :
  do_unsigned_integer P ctx = Ok (e, ctx') ->
  e = CBOR_SUCCESS \/ e = CBOR_ILLEGAL.
Proof.
  unfold do_unsigned_integer. monad_unfold. intros H.
  invert_run H; injection H as <- _; auto.
Qed.

Lemma do_negative_integer_codes (P : platform) (ctx ctx' : decode_context)
    (e : cbor_error_t) :
  do_negative_integer P ctx = Ok (e, ctx') ->
  e = CBOR_SUCCESS \/ e = CBOR_ILLEGAL.
Proof.
  unfold do_negative_integer. monad_unfold. intros H.
  destruct (do_unsigned_integer P ctx) as [[e1 c1]| |] eqn:Eu;
    [|discriminate|discriminate].
  apply do_unsigned_integer_codes in Eu.
  destruct Eu as [-> | ->]; cbn [negb cbor_error_eqb] in H.
  - invert_run H; injection H as <- _; auto.
  - injection H as <- _; auto.
Qed.

Lemma do_string_codes (P : platform) (ctx ctx' : decode_context)
    (e : cbor_error_t) :
  do_string P ctx = Ok (e, ctx') ->
  e = CBOR_SUCCESS \/ e = CBOR_ILLEGAL.
Proof.
  unfold do_string. monad_unfold. intros H.
  invert_run H; injection H as <- _; auto.
Qed.

Lemma has_valid_buffers_no_underrun (ctx : decode_context) :
  following_bytes ctx = 0 ->
  has_valid_buffers_for_following_bytes ctx <> Some CBOR_UNDERRUN.
Proof.
  intros Hfb. unfold has_valid_buffers_for_following_bytes. rewrite Hfb.
  change (0 =? RESERVED_VALUE) with false.
  change (0 =? INDEFINITE_VALUE) with false. cbv iota.
  destruct (0 + 1 >? _); [discriminate|].
  destruct (Z.gtb_spec 0 (usize (bufsize ctx - bufidx ctx))) as [Hg|Hg];
    [|discriminate].
  exfalso. unfold usize in Hg.
  pose proof (Z.mod_pos_bound (bufsize ctx - bufidx ctx) (2 ^ 64)
                ltac:(reflexivity)). lia.
Qed.

Lemma do_float_and_other_codes (P : platform) (ctx ctx' : decode_context)
    (e : cbor_error_t) :
  has_valid_buffers_for_following_bytes ctx = None ->
  do_float_and_other P ctx = Ok (e, ctx') ->
  e = CBOR_SUCCESS \/ e = CBOR_ILLEGAL \/ e = CBOR_BREAK.
Proof.
  intros Hv. unfold do_float_and_other. monad_unfold. intros H.
  destruct (following_bytes ctx =? INDEFINITE_VALUE).
  { injection H as <- _; auto. }
  assert (Htail : forall c,
            has_valid_buffers_for_following_bytes c <> Some CBOR_UNDERRUN ->
            match has_valid_buffers_for_following_bytes c with
            | Some err => fun c0 : decode_context => Ok (err, c0)
            | None =>
                fun c0 : decode_context =>
                  match do_unsigned_integer P c0 with
                  | Ok (a2, c'0) =>
                      match
                        (if following_bytes c'0 =? 0
                         then
                           fun c1 : decode_context =>
                             match
                               rbind (load (buf c1) (usize (bufidx c'0 - 1)))
                                 (fun a3 : byte => Ok (a3, c1))
                             with
                             | Ok (a4, c'1) =>
                                 match
                                   rbind
                                     (store (buf c'1)
                                        (usize (bufidx c'0 - 1))
                                        (Z_to_byte
                                           (get_simple_value (byte_to_Z a4))))
                                     (fun a5 : list byte => Ok (a5, c'1))
                                 with
                                 | Ok (a6, c'2) => Ok (tt, set_buf a6 c'2)
                                 | Fault => Fault
                                 | OutOfFuel => OutOfFuel
                                 end
                             | Fault => Fault
                             | OutOfFuel => OutOfFuel
                             end
                         else fun c1 : decode_context => Ok (tt, c1)) c'0
                      with
                      | Ok (_, c'1) => Ok (a2, c'1)
                      | Fault => Fault
                      | OutOfFuel => OutOfFuel
                      end
                  | Fault => Fault
                  | OutOfFuel => OutOfFuel
                  end
            end c = Ok (e, ctx') ->
            e = CBOR_SUCCESS \/ e = CBOR_ILLEGAL \/ e = CBOR_BREAK).
  { clear. intros c Hnu Ht.
    destruct (has_valid_buffers_for_following_bytes c) as [err|] eqn:Ev.
    - injection Ht as <- _. apply has_valid_buffers_errors in Ev.
      destruct Ev as [-> | ->]; [auto|contradiction].
    - destruct (do_unsigned_integer P c) as [[e1 c1]| |] eqn:Eu;
        try discriminate.
      apply do_unsigned_integer_codes in Eu.
      invert_run Ht; injection Ht as <- _; destruct Eu as [-> | ->]; auto. }
  destruct (Z.eqb_spec (following_bytes ctx) 1) as [E1|E1].
  - ctx_simpl.
    destruct (load (msg ctx) (usize (msgidx ctx + 1))) as [x| |];
      try discriminate.
    ctx_simpl.
    apply (Htail (set_additional_info (byte_to_Z x)
                    (set_msgidx (usize (msgidx ctx + 1))
                       (set_following_bytes 0 ctx))));
      [apply has_valid_buffers_no_underrun; reflexivity|exact H].
  - apply (Htail ctx); [|exact H]. rewrite Hv. discriminate.
Qed.

Lemma decode_loop_codes (P : platform) (fuel : nat) :
  forall (maxitem item : Z) (ctx ctx' : decode_context) (e : cbor_error_t),
    decode_loop P fuel maxitem item ctx = Ok (e, ctx') ->
    e <> CBOR_OVERRUN /\ (e = CBOR_UNDERRUN -> bufidx ctx' < bufsize ctx').
Proof.
  induction fuel as [|fuel IH]; intros maxitem item ctx ctx' e H.
  - discriminate.
  - cbn [decode_loop] in H.
    destruct ((msgidx ctx <? msgsize ctx) && (bufidx ctx <? bufsize ctx))
      eqn:Econd.
    2:{ injection H as <- _. split; discriminate. }
    apply andb_true_iff in Econd. destruct Econd as (_ & Hroom).
    apply Z.ltb_lt in Hroom.
    destruct (load (msg ctx) (msgidx ctx)) as [h| |]; try discriminate.
    cbv zeta in H.
    set (ch := set_header (get_major_type h) (get_additional_info h)
                 (get_following_bytes (get_additional_info h)) ctx) in *.
    destruct (has_valid_buffers_for_following_bytes ch) as [err|] eqn:Ev.
    { injection H as <- <-. apply has_valid_buffers_errors in Ev.
      destruct Ev as [-> | ->]; (split; [discriminate|]); intros;
        try discriminate. exact Hroom. }
    destruct (callbacks P _ _ _) as [[err ctx1]| |] eqn:Ecb;
      try discriminate.
    assert (Hcb : err <> CBOR_OVERRUN
                  /\ (err = CBOR_UNDERRUN -> bufidx ctx1 < bufsize ctx1)).
    { clear H. change (major_type ch) with (get_major_type h) in Ecb.
      destruct (get_header_fields h) as (Hmt & _).
      assert (Hcase : get_major_type h = 0 \/ get_major_type h = 1
                      \/ get_major_type h = 2 \/ get_major_type h = 3
                      \/ get_major_type h = 4 \/ get_major_type h = 5
                      \/ get_major_type h = 6 \/ get_major_type h = 7) by lia.
      assert (Hrec : do_recursive P (fun n => decode_loop P fuel n 0) ch
                     = Ok (err, ctx1) ->
                     err <> CBOR_OVERRUN
                     /\ (err = CBOR_UNDERRUN ->
                         bufidx ctx1 < bufsize ctx1)).
      { unfold do_recursive, decode_cbor_with. monad_unfold. intros Hr.
        destruct (go_get_item_length P ch) as [[len c1]| |];
          try discriminate.
        destruct (_ >? _).
        - injection Hr as <- _. split; discriminate.
        - destruct (decode_loop P fuel len 0 _) as [[e2 c2]| |] eqn:El;
            try discriminate.
          injection Hr as <- <-. apply IH in El. exact El. }
      destruct Hcase as [E|[E|[E|[E|[E|[E|[E|E]]]]]]]; rewrite E in Ecb;
        cbn [callbacks] in Ecb.
      - apply do_unsigned_integer_codes in Ecb.
        destruct Ecb as [-> | ->]; split; discriminate.
      - apply do_negative_integer_codes in Ecb.
        destruct Ecb as [-> | ->]; split; discriminate.
      - apply do_string_codes in Ecb.
        destruct Ecb as [-> | ->]; split; discriminate.
      - apply do_string_codes in Ecb.
        destruct Ecb as [-> | ->]; split; discriminate.
      - apply Hrec. exact Ecb.
      - apply Hrec. exact Ecb.
      - injection Ecb as <- _. split; discriminate.
      - apply (do_float_and_other_codes P ch ctx1 err Ev) in Ecb.
        destruct Ecb as [-> |[-> | ->]]; split; discriminate. }
    assert (Hnext :
      (if (usize (item + 1) >=? maxitem) && (maxitem >? 0)
       then Ok (CBOR_SUCCESS, ctx1)
       else decode_loop P fuel maxitem (usize (item + 1)) ctx1)
      = Ok (e, ctx') ->
      e <> CBOR_OVERRUN /\ (e = CBOR_UNDERRUN -> bufidx ctx' < bufsize ctx')).
    { destruct ((usize (item + 1) >=? maxitem) && (maxitem >? 0)).
      - intros [= <- _]. split; discriminate.
      - apply IH. }
    destruct err; try (apply Hnext; exact H);
      try (injection H as <- <-; exact Hcb).
    destruct (msgidx ctx1 =? msgsize ctx1).
    + injection H as <- _. split; discriminate.
    + apply Hnext. exact H.
Qed.

(** X15: what a result code of the entry point says about the cursors.
    The read cursor never passes the end of the message.  Success means
    that the whole message was read and that the write cursor has reached
    the capacity; Overrun is only returned with unread input left, and
    OutputExhausted only with the write cursor below the capacity. *)
Theorem cbor_decode_result_meaning (P : platform) (buf_ msg_ : list byte)
    (e : cbor_error_t) (ctx : decode_context) :
  Z.of_nat (length buf_) + 16 < 2 ^ 64 ->
  Z.of_nat (length msg_) + 16 < 2 ^ 64 ->
  cbor_decode_ctx P buf_ msg_ = Ok (e, ctx) ->
  0 <= msgidx ctx <= Z.of_nat (length msg_)
  /\ (e = CBOR_SUCCESS ->
      msgidx ctx = Z.of_nat (length msg_)
      /\ Z.of_nat (length buf_) <= bufidx ctx)
  /\ (e = CBOR_OVERRUN -> msgidx ctx < Z.of_nat (length msg_))
  /\ (e = CBOR_UNDERRUN -> bufidx ctx < Z.of_nat (length buf_)).
Proof.
  intros Hb Hm. unfold cbor_decode_ctx, decode_cbor, decode_cbor_with.
  monad_unfold. ctx_simpl.
  destruct (_ >? _).
  { intros [= <- <-].
    cbn [msgidx set_recursion_depth initial_context finish].
    repeat split; try discriminate; lia. }
  set (c0 := set_recursion_depth
               (u8 (recursion_depth (initial_context buf_ msg_) + 1))
               (initial_context buf_ msg_)).
  destruct (decode_loop_returns P (decode_fuel msg_) 0 0 c0)
    as (e0 & c1 & Hrun & Hinv & Hsame & Hmono).
  { unfold loop_invariant, arrays_match, c0.
    cbn [buf bufsize bufidx msg msgsize msgidx set_recursion_depth
         initial_context].
    repeat split; lia. }
  { unfold c0, decode_fuel.
    cbn [msgsize msgidx set_recursion_depth initial_context]. lia. }
  rewrite Hrun. ctx_simpl. intros [= <- <-].
  destruct (decode_loop_codes P _ _ _ _ _ _ Hrun) as (Hno & Hun).
  destruct Hsame as (S1 & S2 & S3 & S4).
  destruct Hinv as (_ & Hmi & Hbi & _).
  unfold c0 in S1, S2.
  cbn [msgsize bufsize set_recursion_depth initial_context] in S1, S2.
  cbn [msgidx bufidx set_recursion_depth].
  unfold finish. cbn [msgidx msgsize bufidx bufsize set_recursion_depth].
  rewrite S1, S2 in *.
  split; [lia|].
  destruct e0;
    repeat match goal with
           | |- context [?a <? ?b] => destruct (Z.ltb_spec a b)
           end;
    repeat split; intros; try discriminate; try contradiction; try lia;
    try (apply Hun; reflexivity).
Qed.

Lemma cbor_decode_result_meaning_witness :
  0 <= 1 <= Z.of_nat (length [x01; x02])
  /\ (CBOR_OVERRUN = CBOR_SUCCESS ->
      1 = Z.of_nat (length [x01; x02]) /\ Z.of_nat (length [x00]) <= 1)
  /\ (CBOR_OVERRUN = CBOR_OVERRUN -> 1 < Z.of_nat (length [x01; x02]))
  /\ (CBOR_OVERRUN = CBOR_UNDERRUN -> 1 < Z.of_nat (length [x00])).
Proof.
  apply (cbor_decode_result_meaning (little_endian_build 8) [x00] [x01; x02]
           CBOR_OVERRUN
           {| buf := [x01]; bufsize := 1; bufidx := 1;
              msg := [x01; x02]; msgsize := 2; msgidx := 1;
              major_type := 0; additional_info := 1; following_bytes := 0;
              recursion_depth := 0 |});
    by_computation.
Defined.

(** ** The output already written *)

Lemma keeps_output_refl (ctx : decode_context) : keeps_output ctx ctx.
Proof. split; [lia|reflexivity]. Qed.

Lemma keeps_output_trans (a b c : decode_context) :
  keeps_output a b -> keeps_output b c -> keeps_output a c.
Proof.
  intros (H1 & H2) (H3 & H4). split; [lia|].
  intros j Hj. rewrite H4 by lia. apply H2. exact Hj.
Qed.

Lemma do_unsigned_integer_keeps (P : platform) (ctx ctx' : decode_context)
    (e : cbor_error_t) :
  call_state ctx ->
  do_unsigned_integer P ctx = Ok (e, ctx') -> keeps_output ctx ctx'.
Proof.
  intros Hc. destruct (call_state_cursors ctx Hc) as (Hr & Ha).
  destruct Hc as (Hinv & Hml & Hbl & Hv & Hf).
  destruct (Z.eq_dec (following_bytes ctx) INDEFINITE_VALUE) as [Hi|Hi].
  - unfold do_unsigned_integer. monad_unfold. rewrite Hi.
    intros [= _ <-]. apply keeps_output_refl.
  - destruct (do_unsigned_integer_spec P ctx Ha Hr Hbl Hv Hi)
      as (b' & Hrun & Hlb & Hout).
    rewrite Hrun. intros [= _ <-]. unfold keeps_output. ctx_simpl.
    split; [lia|]. intros j Hj. rewrite Hout. unfold unsigned_output.
    destruct (following_bytes ctx =? 0);
      repeat destruct (decide _); try lia; reflexivity.
Qed.

Lemma do_negative_integer_keeps (P : platform) (ctx ctx' : decode_context)
    (e : cbor_error_t) :
  call_state ctx ->
  do_negative_integer P ctx = Ok (e, ctx') -> keeps_output ctx ctx'.
Proof.
  intros Hc. destruct (call_state_cursors ctx Hc) as (Hr & Ha).
  destruct Hc as (Hinv & Hml & Hbl & Hv & Hf).
  destruct (Z.eq_dec (following_bytes ctx) INDEFINITE_VALUE) as [Hi|Hi].
  - unfold do_negative_integer, do_unsigned_integer. monad_unfold.
    rewrite Hi. intros [= _ <-]. apply keeps_output_refl.
  - destruct Hf as [Hf|Hf]; [|contradiction].
    destruct Hinv as ((Hbs & Hms) & Hm & Hb & Hbsz & Hmsz).
    destruct (do_negative_integer_spec P ctx Ha Hr Hbl Hv)
      as (b' & Hrun & Hlb & Hout); [lia|lia|].
    rewrite Hrun. intros [= _ <-]. unfold keeps_output. ctx_simpl.
    split.
    + unfold negative_data_size. destruct (negative_promoted P ctx); lia.
    + intros j Hj. rewrite Hout. unfold negative_output.
      repeat destruct (decide _); try lia; reflexivity.
Qed.

Lemma do_string_keeps (P : platform) (ctx ctx' : decode_context)
    (e : cbor_error_t) :
  call_state ctx ->
  do_string P ctx = Ok (e, ctx') -> keeps_output ctx ctx'.
Proof.
  intros Hc.
  destruct (go_get_item_length_returns P ctx Hc)
    as (len & offset & Hlen & Hl & Ho & Hom).
  destruct Hc as (Hinv & Hml & Hbl & Hv & Hf).
  destruct Hinv as ((Hbs & Hms) & Hm & Hb & Hbsz & Hmsz).
  unfold do_string. monad_unfold. rewrite Hlen. ctx_simpl.
  rewrite (usize_small (bufsize ctx - bufidx ctx)) by lia.
  rewrite (usize_small (msgsize ctx - _)) by lia.
  rewrite MIN_min.
  destruct (Z.gtb_spec len
              (Z.min (bufsize ctx - bufidx ctx)
                 (msgsize ctx - (msgidx ctx + (offset + 1))))) as [Hbig|Hfit].
  - intros [= _ <-]. unfold keeps_output. ctx_simpl.
    split; [lia|reflexivity].
  - rewrite copy_string_loop_eq.
    destruct (copy_be_loop (Z.to_nat len) 0 (buf ctx) (bufidx ctx)
                (msg ctx) (msgidx ctx + (offset + 1))) as [b'| |] eqn:Hb';
      try discriminate.
    ctx_simpl. apply copy_be_loop_Ok in Hb'. destruct Hb' as (Hlb & Hout).
    rewrite !usize_small by lia.
    intros [= _ <-]. unfold keeps_output. ctx_simpl.
    split; [lia|]. intros j Hj. rewrite Hout.
    destruct (decide _); [lia|reflexivity].
Qed.

Lemma do_float_and_other_keeps (P : platform) (ctx ctx' : decode_context)
    (e : cbor_error_t) :
  call_state ctx ->
  do_float_and_other P ctx = Ok (e, ctx') -> keeps_output ctx ctx'.
Proof.
  intros Hc. destruct (call_state_cursors ctx Hc) as (Hr & Ha).
  pose proof Hc as (Hinv & Hml & Hbl & Hv & Hf).
  destruct Hinv as ((Hbs & Hms) & Hm & Hb & Hbsz & Hmsz).
  unfold do_float_and_other. monad_unfold.
  destruct (Z.eqb_spec (following_bytes ctx) INDEFINITE_VALUE) as [Hi|Hi].
  { intros [= _ <-]. unfold keeps_output. ctx_simpl.
    split; [lia|reflexivity]. }
  destruct Hf as [Hf|Hf]; [|contradiction].
  destruct (has_valid_buffers_None ctx Hr Hv Hi) as (_ & Hin & Hout).
  match goal with
  | |- match ?x with
       | Ok p => @?t p
       | Fault => _
       | OutOfFuel => _
       end = _ -> _ => set (tail := fun c => t (tt, c))
  end.
  assert (Htail : forall c, call_state c ->
            following_bytes c <> INDEFINITE_VALUE ->
            tail c = Ok (e, ctx') -> keeps_output c ctx').
  { clear. intros c Hc Hi. destruct (call_state_cursors c Hc) as (Hr & Ha).
    destruct Hc as (Hinv & Hml & Hbl & Hv & Hf).
    destruct Hinv as ((Hbs & Hms) & Hm & Hb & Hbsz & Hmsz).
    destruct Hf as [Hf|Hf]; [|contradiction].
    destruct (has_valid_buffers_None c Hr Hv Hi) as (_ & Hin & Hout).
    destruct (do_unsigned_integer_spec P c Ha Hr Hbl Hv Hi)
      as (b' & Hrun & Hlb & Hob).
    subst tail. cbv beta iota. rewrite Hv, Hrun. ctx_simpl.
    destruct (Z.eqb_spec (following_bytes c) 0) as [E0|E0].
    - rewrite E0.
      replace (usize (bufidx c + Z.max 1 0 - 1)) with (bufidx c)
        by (rewrite usize_small; lia).
      destruct (load_in_range b' (bufidx c)) as (x & Hx); [lia|].
      ctx_simpl. rewrite Hx. ctx_simpl.
      pose proof (store_in_range b' (bufidx c)
                    (Z_to_byte (get_simple_value (byte_to_Z x)))
                    ltac:(lia)) as Hs.
      rewrite Hs. ctx_simpl. apply store_Ok in Hs.
      destruct Hs as (_ & _ & Hs).
      intros [= _ <-]. unfold keeps_output. ctx_simpl.
      split; [lia|]. intros j Hj. rewrite Hs, Hob. unfold unsigned_output.
      rewrite E0. cbn [Z.eqb].
      repeat destruct (decide _); try lia; reflexivity.
    - intros [= _ <-]. unfold keeps_output. ctx_simpl.
      split; [lia|]. intros j Hj. rewrite Hob. unfold unsigned_output.
      destruct (Z.eqb_spec (following_bytes c) 0); [contradiction|].
      destruct (decide _); [lia|reflexivity]. }
  destruct (Z.eqb_spec (following_bytes ctx) 1) as [E1|E1].
  - ctx_simpl. rewrite (usize_small (msgidx ctx + 1)) by lia.
    destruct (load_in_range (msg ctx) (msgidx ctx + 1)) as (x & Hx); [lia|].
    rewrite Hx. ctx_simpl. intros Ht.
    apply Htail in Ht.
    + exact Ht.
    + unfold call_state, loop_invariant, arrays_match. ctx_simpl.
      repeat split; try lia.
      apply has_valid_buffers_pass;
        [unfold cursors_in_range; ctx_simpl; lia|discriminate
        |ctx_simpl; lia|ctx_simpl; lia].
    + discriminate.
  - intros Ht. apply (Htail ctx Hc Hi Ht).
Qed.

Lemma loop_call_state (h : byte) (ctx : decode_context) :
  loop_invariant ctx ->
  msgidx ctx < msgsize ctx -> bufidx ctx < bufsize ctx ->
  has_valid_buffers_for_following_bytes
    (set_header (get_major_type h) (get_additional_info h)
       (get_following_bytes (get_additional_info h)) ctx) = None ->
  call_state (set_header (get_major_type h) (get_additional_info h)
                (get_following_bytes (get_additional_info h)) ctx).
Proof.
  intros Hinv Hml Hbl Ev.
  destruct (get_header_fields h) as (Hmt & Hai).
  split; [exact Hinv|]. split; [exact Hml|]. split; [exact Hbl|].
  split; [exact Ev|].
  cbn [following_bytes set_header].
  destruct (Z.lt_ge_cases (get_additional_info h) 28) as [Hlt|Hge].
  - left. destruct (get_following_bytes_count (get_additional_info h)); lia.
  - destruct (Z.eq_dec (get_additional_info h) 31) as [E31|N31].
    + right. rewrite E31. reflexivity.
    + exfalso. unfold has_valid_buffers_for_following_bytes in Ev.
      cbn [following_bytes set_header] in Ev.
      assert (Hr : get_following_bytes (get_additional_info h)
                   = RESERVED_VALUE).
      { unfold get_following_bytes.
        destruct (Z.ltb_spec (get_additional_info h) 24); [lia|].
        destruct (Z.eqb_spec (get_additional_info h) 31); [lia|].
        destruct (Z.geb_spec (get_additional_info h) 28);
          [reflexivity|lia]. }
      rewrite Hr in Ev. discriminate.
Qed.

Lemma decode_loop_keeps (P : platform) (fuel : nat) :
  forall (maxitem item : Z) (ctx ctx' : decode_context) (e : cbor_error_t),
    loop_invariant ctx ->
    msgsize ctx - msgidx ctx < Z.of_nat fuel ->
    decode_loop P fuel maxitem item ctx = Ok (e, ctx') ->
    keeps_output ctx ctx'.
Proof.
  induction fuel as [|fuel IH]; intros maxitem item ctx ctx' e Hinv Hfuel H.
  - discriminate.
  - destruct ((msgidx ctx <? msgsize ctx) && (bufidx ctx <? bufsize ctx))
      eqn:Econd.
    2:{ rewrite decode_loop_exit in H by exact Econd.
        injection H as _ <-. apply keeps_output_refl. }
    apply andb_true_iff in Econd. destruct Econd as (Hml & Hbl).
    apply Z.ltb_lt in Hml, Hbl.
    pose proof Hinv as ((Hbs & Hms) & Hm & Hb & Hbsz & Hmsz).
    destruct (byte_at_in_range (msg ctx) (msgidx ctx)) as (h & Hh); [lia|].
    rewrite (decode_loop_unfold P fuel maxitem item ctx h Hml Hbl Hh) in H.
    cbv zeta in H.
    set (ch := set_header (get_major_type h) (get_additional_info h)
                 (get_following_bytes (get_additional_info h)) ctx) in *.
    destruct (has_valid_buffers_for_following_bytes ch) as [err|] eqn:Ev.
    { injection H as _ <-. split; [cbn; lia|reflexivity]. }
    pose proof (loop_call_state h ctx Hinv Hml Hbl Ev) as Hcs.
    fold ch in Hcs.
    destruct (get_header_fields h) as (Hmt & Hai).
    destruct (callbacks_returns P fuel ch (decode_loop_returns P fuel) Hcs)
      as (err & c1 & Hrun & Hinv1 & Hsame1 & Hmono1 & Hprog1 & _);
      [exact Hfuel|exact Hmt|].
    rewrite Hrun in H.
    assert (Hk1 : keeps_output ctx c1).
    { change (keeps_output ch c1).
      clear H. change (major_type ch) with (get_major_type h) in Hrun.
      assert (Hrec : do_recursive P (fun n => decode_loop P fuel n 0) ch
                     = Ok (err, c1) -> keeps_output ch c1).
      { destruct (go_get_item_length_returns P ch Hcs)
          as (len & offset & Hlen & Hl & Ho & Hom).
        unfold do_recursive, decode_cbor_with. monad_unfold.
        rewrite Hlen. ctx_simpl.
        destruct (_ >? _).
        - intros [= _ <-]. split; [cbn; lia|reflexivity].
        - destruct (decode_loop P fuel len 0 _) as [[e2 c2]| |] eqn:El;
            try discriminate.
          intros [= _ <-]. apply IH in El.
          + destruct El as (K1 & K2). split; [exact K1|exact K2].
          + unfold loop_invariant, arrays_match, ch in *. ctx_simpl.
            repeat split; lia.
          + unfold ch in *. ctx_simpl. lia. }
      assert (Hcase : get_major_type h = 0 \/ get_major_type h = 1
                      \/ get_major_type h = 2 \/ get_major_type h = 3
                      \/ get_major_type h = 4 \/ get_major_type h = 5
                      \/ get_major_type h = 6 \/ get_major_type h = 7) by lia.
      destruct Hcase as [E|[E|[E|[E|[E|[E|[E|E]]]]]]]; rewrite E in Hrun;
        cbn [callbacks] in Hrun.
      - apply (do_unsigned_integer_keeps P ch c1 err Hcs Hrun).
      - apply (do_negative_integer_keeps P ch c1 err Hcs Hrun).
      - apply (do_string_keeps P ch c1 err Hcs Hrun).
      - apply (do_string_keeps P ch c1 err Hcs Hrun).
      - apply Hrec. exact Hrun.
      - apply Hrec. exact Hrun.
      - injection Hrun as _ <-. apply keeps_output_refl.
      - apply (do_float_and_other_keeps P ch c1 err Hcs Hrun). }
    assert (Hnext : err = CBOR_SUCCESS \/ err = CBOR_BREAK ->
      (if (usize (item + 1) >=? maxitem) && (maxitem >? 0)
       then Ok (CBOR_SUCCESS, c1)
       else decode_loop P fuel maxitem (usize (item + 1)) c1)
      = Ok (e, ctx') -> keeps_output ctx ctx').
    { intros He. specialize (Hprog1 He).
      destruct ((usize (item + 1) >=? maxitem) && (maxitem >? 0)).
      - intros [= _ <-]. exact Hk1.
      - intros Hn. apply (keeps_output_trans ctx c1 ctx' Hk1).
        eapply IH; [exact Hinv1| |exact Hn].
        destruct Hsame1 as (S1 & _). rewrite S1.
        change (msgsize ch) with (msgsize ctx).
        change (msgidx ch) with (msgidx ctx) in Hprog1. lia. }
    destruct err; try (injection H as _ <-; exact Hk1);
      try (apply Hnext; [auto|exact H]).
    destruct (msgidx c1 =? msgsize c1).
    + injection H as _ <-. exact Hk1.
    + apply Hnext; [auto|exact H].
Qed.

(** X16: output that has been written is final.  From any state with the
    cursors inside their arrays, a call of [decode_cbor], whatever the
    input holds and whatever the result code is, leaves every byte below
    the write cursor it started with unchanged, moves neither cursor
    backwards, keeps the read cursor inside the message, and changes neither
    the message nor the size of the buffer. *)
Theorem decode_cbor_keeps_output (P : platform) (fuel : nat) (maxitem : Z)
    (ctx ctx' : decode_context) (e : cbor_error_t) :
  loop_invariant ctx ->
  msgsize ctx - msgidx ctx < Z.of_nat fuel ->
  decode_cbor P fuel maxitem ctx = Ok (e, ctx') ->
  keeps_output ctx ctx'
  /\ msgidx ctx <= msgidx ctx' <= msgsize ctx
  /\ msg ctx' = msg ctx /\ length (buf ctx') = length (buf ctx).
Proof.
  intros Hinv Hfuel. unfold decode_cbor, decode_cbor_with. monad_unfold.
  ctx_simpl.
  destruct (_ >? _).
  { intros [= _ <-]. ctx_simpl.
    destruct Hinv as (_ & Hm & _).
    split; [split; [cbn; lia|reflexivity]|]. repeat split; lia. }
  set (c0 := set_recursion_depth (u8 (recursion_depth ctx + 1)) ctx).
  assert (Hinv0 : loop_invariant c0) by exact Hinv.
  destruct (decode_loop_returns P fuel maxitem 0 c0 Hinv0 Hfuel)
    as (e0 & c1 & Hrun & Hinv1 & (S1 & S2 & S3 & S4) & Hmono).
  rewrite Hrun. ctx_simpl. intros [= _ <-].
  pose proof (decode_loop_keeps P fuel _ _ _ _ _ Hinv0 Hfuel Hrun) as Hk.
  destruct Hinv1 as (_ & Hm1 & _).
  split; [exact Hk|]. ctx_simpl.
  change (msgidx c0) with (msgidx ctx) in Hmono.
  change (msgsize c0) with (msgsize ctx) in S1.
  repeat split; try assumption; lia.
Qed.

Lemma decode_cbor_keeps_output_witness :
  keeps_output
    {| buf := [x11; x00]; bufsize := 2; bufidx := 1;
       msg := [x05]; msgsize := 1; msgidx := 0;
       major_type := 0; additional_info := 0; following_bytes := 0;
       recursion_depth := 0 |}
    {| buf := [x11; x05]; bufsize := 2; bufidx := 2;
       msg := [x05]; msgsize := 1; msgidx := 1;
       major_type := 0; additional_info := 5; following_bytes := 0;
       recursion_depth := 0 |}
  /\ 0 <= 1 <= 1
  /\ [x05] = [x05] /\ length [x11; x05] = length [x11; x00].
Proof.
  apply (decode_cbor_keeps_output (little_endian_build 8) 2 0
           {| buf := [x11; x00]; bufsize := 2; bufidx := 1;
              msg := [x05]; msgsize := 1; msgidx := 0;
              major_type := 0; additional_info := 0; following_bytes := 0;
              recursion_depth := 0 |}
           {| buf := [x11; x05]; bufsize := 2; bufidx := 2;
              msg := [x05]; msgsize := 1; msgidx := 1;
              major_type := 0; additional_info := 5; following_bytes := 0;
              recursion_depth := 0 |} CBOR_SUCCESS).
  - unfold loop_invariant, arrays_match. by_computation.
  - by_computation.
  - by_computation.
Defined.

(** ** A break byte in the middle *)



(** ** The buffer is written, never consulted *)

Section Alike.

Variables (P : platform) (b1 b2 : list byte).

Lemma call_state_set_buf (c : decode_context) (x : list byte) :
  call_state c -> length x = length (buf c) -> call_state (set_buf x c).
Proof.
  intros (Hinv & Hml & Hbl & Hv & Hf) Hl.
  destruct Hinv as ((Hbs & Hms) & Hm & Hb & Hbsz & Hmsz).
  unfold call_state, loop_invariant, arrays_match. ctx_simpl.
  repeat split; try assumption; try lia.
Qed.

Lemma do_unsigned_integer_alike (c : decode_context) (x : list byte) :
  call_state c -> written_alike b1 b2 (buf c) x ->
  exists e c' x',
    do_unsigned_integer P c = Ok (e, c')
    /\ do_unsigned_integer P (set_buf x c) = Ok (e, set_buf x' c')
    /\ written_alike b1 b2 (buf c') x'.
Proof.
  intros Hc (Hl & Hrel).
  pose proof (call_state_set_buf c x Hc Hl) as Hcx.
  destruct (call_state_cursors c Hc) as (Hr & Ha).
  destruct (call_state_cursors _ Hcx) as (Hrx & Hax).
  destruct Hc as (Hinv & Hml & Hbl & Hv & Hf).
  destruct Hcx as (_ & _ & _ & Hvx & _).
  destruct (Z.eq_dec (following_bytes c) INDEFINITE_VALUE) as [Hi|Hi].
  - exists CBOR_ILLEGAL, c, x.
    unfold do_unsigned_integer. monad_unfold. ctx_simpl. rewrite Hi.
    repeat split; try reflexivity; assumption.
  - destruct (do_unsigned_integer_spec P c Ha Hr Hbl Hv Hi)
      as (u' & Hrun & Hlu & Hou).
    destruct (do_unsigned_integer_spec P (set_buf x c) Hax Hrx Hbl Hvx Hi)
      as (x' & Hrunx & Hlx & Hox).
    eexists _, _, x'. split; [exact Hrun|]. split; [exact Hrunx|].
    ctx_simpl. split; [congruence|].
    intros j. rewrite Hou, Hox. unfold unsigned_output. ctx_simpl.
    destruct (following_bytes c =? 0);
      repeat destruct (decide _); auto.
Qed.

Lemma negative_val_set_buf (c : decode_context) (x : list byte) :
  0 <= following_bytes c ->
  negative_val P (set_buf x c) = negative_val P c.
Proof.
  intros Hfb. unfold negative_val, negative_val_mem. f_equal.
  apply map_ext_in. intros j Hj.
  unfold negative_data_size. ctx_simpl.
  destruct (Z.ltb_spec j (Z.max 1 (following_bytes c))); [|reflexivity].
  assert (Hj0 : 0 <= j).
  { unfold eight in Hj. cbn in Hj.
    repeat (destruct Hj as [<- | Hj]; [lia|]). contradiction. }
  f_equal. unfold unsigned_output. ctx_simpl.
  destruct (Z.eqb_spec (following_bytes c) 0) as [E0|E0].
  - destruct (decide _); [reflexivity|lia].
  - destruct (decide _); [reflexivity|lia].
Qed.

Lemma do_negative_integer_alike (c : decode_context) (x : list byte) :
  call_state c -> written_alike b1 b2 (buf c) x ->
  exists e c' x',
    do_negative_integer P c = Ok (e, c')
    /\ do_negative_integer P (set_buf x c) = Ok (e, set_buf x' c')
    /\ written_alike b1 b2 (buf c') x'.
Proof.
  intros Hc (Hl & Hrel).
  pose proof (call_state_set_buf c x Hc Hl) as Hcx.
  destruct (call_state_cursors c Hc) as (Hr & Ha).
  destruct (call_state_cursors _ Hcx) as (Hrx & Hax).
  destruct Hc as (Hinv & Hml & Hbl & Hv & Hf).
  destruct Hcx as (_ & _ & _ & Hvx & _).
  destruct (Z.eq_dec (following_bytes c) INDEFINITE_VALUE) as [Hi|Hi].
  - exists CBOR_ILLEGAL, c, x.
    unfold do_negative_integer, do_unsigned_integer. monad_unfold.
    ctx_simpl. rewrite Hi.
    repeat split; try reflexivity; assumption.
  - destruct Hf as [Hf|Hf]; [|contradiction].
    destruct Hinv as ((Hbs & Hms) & Hm & Hb & Hbsz & Hmsz).
    destruct (do_negative_integer_spec P c Ha Hr Hbl Hv)
      as (u' & Hrun & Hlu & Hou); [lia|lia|].
    destruct (do_negative_integer_spec P (set_buf x c) Hax Hrx Hbl Hvx)
      as (x' & Hrunx & Hlx & Hox); [ctx_simpl; lia|ctx_simpl; lia|].
    assert (Hnv : negative_val P (set_buf x c) = negative_val P c)
      by (apply negative_val_set_buf; lia).
    assert (Hnp : negative_promoted P (set_buf x c) = negative_promoted P c).
    { unfold negative_promoted. rewrite Hnv. reflexivity. }
    rewrite Hnp in Hrunx.
    eexists _, _, x'. split; [exact Hrun|]. split; [exact Hrunx|].
    ctx_simpl. split; [congruence|].
    intros j. rewrite Hou, Hox. unfold negative_output. rewrite Hnv.
    ctx_simpl. change (negative_data_size (set_buf x c))
      with (negative_data_size c).
    repeat destruct (decide _); auto.
Qed.

Lemma go_get_item_length_set_buf (c : decode_context) (x : list byte) :
  go_get_item_length P (set_buf x c)
  = match go_get_item_length P c with
    | Ok (len, c') => Ok (len, set_buf x c')
    | Fault => Fault
    | OutOfFuel => OutOfFuel
    end.
Proof.
  unfold go_get_item_length. monad_unfold. ctx_simpl.
  destruct (following_bytes c =? INDEFINITE_VALUE); [reflexivity|].
  destruct (following_bytes c =? 0); [reflexivity|].
  destruct (copy_data P zero_u64 0 (msg c) (msgidx c + 1) (following_bytes c));
    reflexivity.
Qed.

Lemma do_string_alike (c : decode_context) (x : list byte) :
  call_state c -> written_alike b1 b2 (buf c) x ->
  exists e c' x',
    do_string P c = Ok (e, c')
    /\ do_string P (set_buf x c) = Ok (e, set_buf x' c')
    /\ written_alike b1 b2 (buf c') x'.
Proof.
  intros Hc (Hl & Hrel).
  destruct (go_get_item_length_returns P c Hc)
    as (len & offset & Hlen & Hln & Ho & Hom).
  pose proof (go_get_item_length_set_buf c x) as Hlenx.
  rewrite Hlen in Hlenx.
  destruct Hc as (Hinv & Hml & Hbl & Hv & Hf).
  destruct Hinv as ((Hbs & Hms) & Hm & Hb & Hbsz & Hmsz).
  unfold do_string. monad_unfold. rewrite Hlen, Hlenx. ctx_simpl.
  rewrite (usize_small (bufsize c - bufidx c)) by lia.
  rewrite (usize_small (msgsize c - _)) by lia.
  rewrite MIN_min.
  destruct (Z.gtb_spec len
              (Z.min (bufsize c - bufidx c)
                 (msgsize c - (msgidx c + (offset + 1))))) as [Hbig|Hfit].
  - eexists _, _, x. split; [reflexivity|]. split; [reflexivity|].
    ctx_simpl. split; assumption.
  - rewrite (copy_string_loop_eq _ _ (buf c)), (copy_string_loop_eq _ _ x).
    destruct (copy_be_loop_safe (Z.to_nat len) 0 (buf c) (bufidx c)
                (msg c) (msgidx c + (offset + 1))) as (u' & Hu'); try lia.
    destruct (copy_be_loop_safe (Z.to_nat len) 0 x (bufidx c)
                (msg c) (msgidx c + (offset + 1))) as (x' & Hx'); try lia.
    rewrite Hu', Hx'. ctx_simpl.
    apply copy_be_loop_Ok in Hu', Hx'.
    destruct Hu' as (Hlu & Hou). destruct Hx' as (Hlx & Hox).
    eexists _, _, x'. split; [reflexivity|]. split; [reflexivity|].
    ctx_simpl. split; [congruence|].
    intros j. rewrite Hou, Hox. destruct (decide _); auto.
Qed.

Lemma do_float_and_other_alike (c : decode_context) (x : list byte) :
  call_state c -> written_alike b1 b2 (buf c) x ->
  exists e c' x',
    do_float_and_other P c = Ok (e, c')
    /\ do_float_and_other P (set_buf x c) = Ok (e, set_buf x' c')
    /\ written_alike b1 b2 (buf c') x'.
Proof.
  intros Hc Hal. destruct (call_state_cursors c Hc) as (Hr & Ha).
  pose proof Hc as (Hinv & Hml & Hbl & Hv & Hf).
  destruct Hinv as ((Hbs & Hms) & Hm & Hb & Hbsz & Hmsz).
  unfold do_float_and_other. monad_unfold. ctx_simpl.
  destruct (Z.eqb_spec (following_bytes c) INDEFINITE_VALUE) as [Hi|Hi].
  { eexists _, _, x. split; [reflexivity|]. split; [reflexivity|].
    ctx_simpl. exact Hal. }
  destruct Hf as [Hf|Hf]; [|contradiction].
  destruct (has_valid_buffers_None c Hr Hv Hi) as (_ & Hin & Hout).
  match goal with
  | |- exists e c' x', match ?x with
                          | Ok p => @?t p
                          | Fault => _
                          | OutOfFuel => _
                          end = _ /\ _ => set (tail := fun c => t (tt, c))
  end.
  assert (Htail : forall d y, call_state d ->
            following_bytes d <> INDEFINITE_VALUE ->
            written_alike b1 b2 (buf d) y ->
            exists e c' x',
              tail d = Ok (e, c') /\ tail (set_buf y d) = Ok (e, set_buf x' c')
              /\ written_alike b1 b2 (buf c') x').
  { clear. intros d y Hd Hi (Hl & Hrel).
    pose proof (call_state_set_buf d y Hd Hl) as Hdy.
    destruct (call_state_cursors d Hd) as (Hr & Ha).
    destruct (call_state_cursors _ Hdy) as (Hry & Hay).
    destruct Hd as (Hinv & Hml & Hbl & Hv & Hf).
    destruct Hdy as (_ & _ & _ & Hvy & _).
    destruct Hinv as ((Hbs & Hms) & Hm & Hb & Hbsz & Hmsz).
    destruct Hf as [Hf|Hf]; [|contradiction].
    destruct (has_valid_buffers_None d Hr Hv Hi) as (_ & Hin & Hout).
    destruct (do_unsigned_integer_spec P d Ha Hr Hbl Hv Hi)
      as (u' & Hrun & Hlu & Hou).
    destruct (do_unsigned_integer_spec P (set_buf y d) Hay Hry Hbl Hvy Hi)
      as (y' & Hruny & Hly & Hoy).
    subst tail. cbv beta iota. rewrite Hv, Hvy, Hrun, Hruny. ctx_simpl.
    destruct (Z.eqb_spec (following_bytes d) 0) as [E0|E0].
    - rewrite E0.
      replace (usize (bufidx d + Z.max 1 0 - 1)) with (bufidx d)
        by (rewrite usize_small; lia).
      assert (Hx : load u' (bufidx d) = Ok (Z_to_byte (additional_info d))).
      { apply load_Ok. rewrite Hou. unfold unsigned_output. rewrite E0.
        cbn [Z.eqb]. destruct (decide _); [reflexivity|lia]. }
      assert (Hxy : load y' (bufidx d) = Ok (Z_to_byte (additional_info d))).
      { apply load_Ok. rewrite Hoy. unfold unsigned_output. ctx_simpl.
        rewrite E0. cbn [Z.eqb]. destruct (decide _); [reflexivity|lia]. }
      ctx_simpl. rewrite Hx, Hxy. ctx_simpl.
      pose proof (store_in_range u' (bufidx d)
                    (Z_to_byte (get_simple_value
                                  (byte_to_Z (Z_to_byte (additional_info d)))))
                    ltac:(lia)) as Hs.
      pose proof (store_in_range y' (bufidx d)
                    (Z_to_byte (get_simple_value
                                  (byte_to_Z (Z_to_byte (additional_info d)))))
                    ltac:(ctx_simpl; lia)) as Hsy.
      rewrite Hs, Hsy. ctx_simpl. apply store_Ok in Hs, Hsy.
      destruct Hs as (_ & Hls & Hs). destruct Hsy as (_ & Hlsy & Hsy).
      eexists _, _, _. split; [reflexivity|]. split; [reflexivity|].
      ctx_simpl. split; [ctx_simpl; congruence|].
      intros j. rewrite Hs, Hsy, Hou, Hoy. unfold unsigned_output.
      ctx_simpl. rewrite E0. cbn [Z.eqb].
      repeat destruct (decide _); auto.
    - eexists _, _, y'. split; [reflexivity|]. split; [reflexivity|].
      ctx_simpl. split; [ctx_simpl; congruence|].
      intros j. rewrite Hou, Hoy. unfold unsigned_output. ctx_simpl.
      destruct (Z.eqb_spec (following_bytes d) 0); [contradiction|].
      destruct (decide _); auto. }
  destruct (Z.eqb_spec (following_bytes c) 1) as [E1|E1].
  - ctx_simpl. rewrite (usize_small (msgidx c + 1)) by lia.
    destruct (load_in_range (msg c) (msgidx c + 1)) as (h & Hh); [lia|].
    rewrite Hh. ctx_simpl.
    apply (Htail (set_additional_info (byte_to_Z h)
                    (set_msgidx (msgidx c + 1) (set_following_bytes 0 c))) x).
    + unfold call_state, loop_invariant, arrays_match. ctx_simpl.
      repeat split; try lia.
      apply has_valid_buffers_pass;
        [unfold cursors_in_range; ctx_simpl; lia|discriminate
        |ctx_simpl; lia|ctx_simpl; lia].
    + discriminate.
    + exact Hal.
  - apply (Htail c x Hc Hi Hal).
Qed.

Lemma do_recursive_alike (fuel : nat) (c : decode_context) (x : list byte) :
  loop_alike P b1 b2 fuel ->
  call_state c -> msgsize c - msgidx c < Z.of_nat (S fuel) ->
  written_alike b1 b2 (buf c) x ->
  exists e c' x',
    do_recursive P (fun n => decode_loop P fuel n 0) c = Ok (e, c')
    /\ do_recursive P (fun n => decode_loop P fuel n 0) (set_buf x c)
       = Ok (e, set_buf x' c')
    /\ written_alike b1 b2 (buf c') x'.
Proof.
  intros IH Hc Hfuel Hal.
  destruct (go_get_item_length_returns P c Hc)
    as (len & offset & Hlen & Hln & Ho & Hom).
  pose proof (go_get_item_length_set_buf c x) as Hlenx.
  rewrite Hlen in Hlenx.
  destruct Hc as (Hinv & Hml & Hbl & Hv & Hf).
  destruct Hinv as ((Hbs & Hms) & Hm & Hb & Hbsz & Hmsz).
  unfold do_recursive, decode_cbor_with. monad_unfold.
  rewrite Hlen, Hlenx. ctx_simpl.
  destruct (_ >? _).
  - eexists _, _, x. split; [reflexivity|]. split; [reflexivity|].
    ctx_simpl. exact Hal.
  - destruct (IH len 0
                (set_recursion_depth (u8 (recursion_depth c + 1))
                   (set_msgidx (msgidx c + (offset + 1)) c)) x)
      as (e & c' & x' & Hrun & Hrunx & Hal').
    + unfold loop_invariant, arrays_match. ctx_simpl. repeat split; lia.
    + ctx_simpl. lia.
    + exact Hal.
    + ctx_simpl. rewrite Hrun.
      change (set_recursion_depth (u8 (recursion_depth c + 1))
                (set_buf x (set_msgidx (msgidx c + (offset + 1)) c)))
        with (set_buf x
                (set_recursion_depth (u8 (recursion_depth c + 1))
                   (set_msgidx (msgidx c + (offset + 1)) c))).
      rewrite Hrunx. ctx_simpl.
      eexists _, _, x'. split; [reflexivity|]. split; [reflexivity|].
      ctx_simpl. exact Hal'.
Qed.

Lemma callbacks_alike (fuel : nat) (c : decode_context) (x : list byte) :
  loop_alike P b1 b2 fuel ->
  call_state c -> msgsize c - msgidx c < Z.of_nat (S fuel) ->
  0 <= major_type c < 8 ->
  written_alike b1 b2 (buf c) x ->
  exists e c' x',
    callbacks P (fun n => decode_loop P fuel n 0) (major_type c) c
    = Ok (e, c')
    /\ callbacks P (fun n => decode_loop P fuel n 0) (major_type c)
         (set_buf x c) = Ok (e, set_buf x' c')
    /\ written_alike b1 b2 (buf c') x'.
Proof.
  intros IH Hc Hfuel Hmt Hal.
  assert (Hcase : major_type c = 0 \/ major_type c = 1
                  \/ major_type c = 2 \/ major_type c = 3
                  \/ major_type c = 4 \/ major_type c = 5
                  \/ major_type c = 6 \/ major_type c = 7) by lia.
  destruct Hcase as [E|[E|[E|[E|[E|[E|[E|E]]]]]]]; rewrite E;
    cbn [callbacks].
  - apply do_unsigned_integer_alike; assumption.
  - apply do_negative_integer_alike; assumption.
  - apply do_string_alike; assumption.
  - apply do_string_alike; assumption.
  - apply do_recursive_alike; assumption.
  - apply do_recursive_alike; assumption.
  - exists CBOR_INVALID, c, x. repeat split; try apply Hal.
  - apply do_float_and_other_alike; assumption.
Qed.

Lemma decode_loop_alike (fuel : nat) : loop_alike P b1 b2 fuel.
Proof.
  induction fuel as [|fuel IH]; intros maxitem item c x Hinv Hfuel Hal.
  - destruct Hinv as (_ & Hm & _). lia.
  - destruct ((msgidx c <? msgsize c) && (bufidx c <? bufsize c)) eqn:Econd.
    2:{ rewrite !decode_loop_exit by exact Econd.
        exists CBOR_SUCCESS, c, x. repeat split; try apply Hal. }
    apply andb_true_iff in Econd. destruct Econd as (Hml & Hbl).
    apply Z.ltb_lt in Hml, Hbl.
    pose proof Hinv as ((Hbs & Hms) & Hm & Hb & Hbsz & Hmsz).
    destruct (byte_at_in_range (msg c) (msgidx c)) as (h & Hh); [lia|].
    rewrite (decode_loop_unfold P fuel maxitem item c h Hml Hbl Hh).
    rewrite (decode_loop_unfold P fuel maxitem item (set_buf x c) h Hml Hbl Hh).
    cbv zeta.
    change (set_header (get_major_type h) (get_additional_info h)
              (get_following_bytes (get_additional_info h)) (set_buf x c))
      with (set_buf x
              (set_header (get_major_type h) (get_additional_info h)
                 (get_following_bytes (get_additional_info h)) c)).
    set (ch := set_header (get_major_type h) (get_additional_info h)
                 (get_following_bytes (get_additional_info h)) c).
    change (has_valid_buffers_for_following_bytes (set_buf x ch))
      with (has_valid_buffers_for_following_bytes ch).
    destruct (has_valid_buffers_for_following_bytes ch) as [err|] eqn:Ev.
    { exists err, ch, x. repeat split; try apply Hal. }
    pose proof (loop_call_state h c Hinv Hml Hbl Ev) as Hcs.
    fold ch in Hcs.
    destruct (get_header_fields h) as (Hmt & Hai).
    destruct (callbacks_returns P fuel ch (decode_loop_returns P fuel) Hcs)
      as (err & c1 & Hrun & Hinv1 & Hsame1 & Hmono1 & Hprog1 & _);
      [exact Hfuel|exact Hmt|].
    destruct (callbacks_alike fuel ch x IH Hcs Hfuel Hmt Hal)
      as (err' & c1' & x1 & Hrun' & Hrunx & Hal1).
    rewrite Hrun in Hrun'. injection Hrun' as <- <-.
    change (major_type (set_buf x ch)) with (major_type ch).
    rewrite Hrun, Hrunx.
    change (msgidx (set_buf x1 c1)) with (msgidx c1).
    change (msgsize (set_buf x1 c1)) with (msgsize c1).
    assert (Hnext : err = CBOR_SUCCESS \/ err = CBOR_BREAK ->
      exists e c' x',
        (if (usize (item + 1) >=? maxitem) && (maxitem >? 0)
         then Ok (CBOR_SUCCESS, c1)
         else decode_loop P fuel maxitem (usize (item + 1)) c1) = Ok (e, c')
        /\ (if (usize (item + 1) >=? maxitem) && (maxitem >? 0)
            then Ok (CBOR_SUCCESS, set_buf x1 c1)
            else decode_loop P fuel maxitem (usize (item + 1)) (set_buf x1 c1))
           = Ok (e, set_buf x' c')
        /\ written_alike b1 b2 (buf c') x').
    { intros He. specialize (Hprog1 He).
      destruct ((usize (item + 1) >=? maxitem) && (maxitem >? 0)).
      - exists CBOR_SUCCESS, c1, x1. repeat split; try apply Hal1.
      - apply IH; [exact Hinv1| |exact Hal1].
        destruct Hsame1 as (S1 & _). unfold ch in *. ctx_simpl. lia. }
    destruct err; try (eexists _, c1, x1; repeat split; apply Hal1).
    + apply Hnext. left. reflexivity.
    + destruct (msgidx c1 =? msgsize c1).
      * exists CBOR_BREAK, c1, x1. repeat split; apply Hal1.
      * apply Hnext. right. reflexivity.
Qed.

End Alike.

(** X18: the decoder never decides on what the output buffer held before
    the call.  Two calls of [cbor_decode] on one message and on two buffers
    of one length both return, with one result code and with both cursors
    at the same places; and every byte of the two buffers afterwards is the
    same in both, or is in each still the byte that buffer held before. *)
Theorem cbor_decode_ignores_buffer_content (P : platform)
    (b1 b2 m : list byte) :
  length b1 = length b2 ->
  Z.of_nat (length b1) + 16 < 2 ^ 64 ->
  Z.of_nat (length m) + 16 < 2 ^ 64 ->
  exists e c1 c2,
    cbor_decode_ctx P b1 m = Ok (e, c1)
    /\ cbor_decode_ctx P b2 m = Ok (e, c2)
    /\ msgidx c1 = msgidx c2 /\ bufidx c1 = bufidx c2
    /\ written_alike b1 b2 (buf c1) (buf c2).
Proof.
  intros Hl Hb Hm.
  unfold cbor_decode_ctx, decode_cbor, decode_cbor_with. monad_unfold.
  ctx_simpl.
  replace (initial_context b2 m) with (set_buf b2 (initial_context b1 m))
    by (unfold initial_context; cbn [set_buf buf bufsize bufidx msg msgsize
          msgidx major_type additional_info following_bytes recursion_depth];
        rewrite Hl; reflexivity).
  ctx_simpl.
  destruct (_ >? _).
  - eexists _, _, _. split; [reflexivity|]. split; [reflexivity|].
    ctx_simpl. cbn [initial_context msgidx bufidx buf].
    repeat split; [congruence|]. intros j. right. split; reflexivity.
  - destruct (decode_loop_alike P b1 b2 (decode_fuel m) 0 0
                (set_recursion_depth
                   (u8 (recursion_depth (initial_context b1 m) + 1))
                   (initial_context b1 m)) b2)
      as (e & c' & x' & Hrun & Hrunx & Hal').
    + unfold loop_invariant, arrays_match, initial_context. ctx_simpl.
      repeat split; lia.
    + unfold decode_fuel, initial_context. ctx_simpl. lia.
    + split; [ctx_simpl; cbn [initial_context buf]; congruence|].
      intros j. right. split; reflexivity.
    + rewrite Hrun.
      change (set_recursion_depth
                (u8 (recursion_depth (initial_context b1 m) + 1))
                (set_buf b2 (initial_context b1 m)))
        with (set_buf b2
                (set_recursion_depth
                   (u8 (recursion_depth (initial_context b1 m) + 1))
                   (initial_context b1 m))).
      rewrite Hrunx. ctx_simpl.
      eexists _, _, _. split; [reflexivity|]. split; [reflexivity|].
      ctx_simpl. repeat split; apply Hal'.
Qed.

Lemma cbor_decode_ignores_buffer_content_witness :
  exists e c1 c2,
    cbor_decode_ctx (little_endian_build 8)
      [x00; x00; x00; x00; x00; x00; x00; x00] [x3a; x80; x00; x00; x00]
    = Ok (e, c1)
    /\ cbor_decode_ctx (little_endian_build 8)
         [x11; x22; x33; x44; x55; x66; x77; x88] [x3a; x80; x00; x00; x00]
       = Ok (e, c2)
    /\ msgidx c1 = msgidx c2 /\ bufidx c1 = bufidx c2
    /\ written_alike [x00; x00; x00; x00; x00; x00; x00; x00]
         [x11; x22; x33; x44; x55; x66; x77; x88] (buf c1) (buf c2).
Proof.
  apply (cbor_decode_ignores_buffer_content (little_endian_build 8)
           [x00; x00; x00; x00; x00; x00; x00; x00]
           [x11; x22; x33; x44; x55; x66; x77; x88]
           [x3a; x80; x00; x00; x00]);
    by_computation.
Defined.

(** ** Negative integers in the big-endian build *)

Lemma negative_output_value_be (P : platform) (ctx : decode_context) (j : Z) :
  host_big_endian P = true -> negative_data_size ctx <= 8 ->
  bufidx ctx <= j < bufidx ctx + negative_data_size ctx ->
  negative_output P ctx j
  = Some (Z_to_byte (Z.shiftr (u64 (Z.lnot (negative_val P ctx)))
                       (8 * (7 - (j - bufidx ctx))))).
Proof.
  intros Hh Hw Hj. unfold negative_output, mem_of_u64. rewrite Hh.
  destruct (decide _); [|lia].
  assert (H : j - bufidx ctx = 0 \/ j - bufidx ctx = 1 \/ j - bufidx ctx = 2
              \/ j - bufidx ctx = 3 \/ j - bufidx ctx = 4
              \/ j - bufidx ctx = 5 \/ j - bufidx ctx = 6
              \/ j - bufidx ctx = 7) by lia.
  repeat (destruct H as [-> | H]; [reflexivity|]). rewrite H. reflexivity.
Qed.

Ltac negative_case_be lvl fb payload b Hlvl Hcap Hbig P ch Hvm :=
  let n := fresh "n" in
  let Hn := fresh "Hn" in
  let Hval := fresh "Hval" in
  let Hds := fresh "Hds" in
  let Hprom := fresh "Hprom" in
  let ctx' := fresh "ctx'" in
  let Hrun := fresh "Hrun" in
  let Hcur := fresh "Hcur" in
  let Hlb := fresh "Hlb" in
  let Hout := fresh "Hout" in
  pose proof (be_value_bound payload) as Hn;
  assert (Hval : negative_val P ch = be_value payload * 2 ^ (64 - 8 * fb))
    by (unfold negative_val; rewrite Hvm; unfold u64_of_mem, be_value;
        cbn [host_big_endian P big_endian_build le_value rev app];
        rewrite ?byte_to_Z_x00; lia);
  remember (be_value payload) as n;
  cbn [length] in Hn;
  match type of Hn with
  | context [2 ^ ?k] =>
      let v := eval vm_compute in (2 ^ k) in change (2 ^ k) with v in Hn
  end;
  assert (Hds : negative_data_size ch = fb) by reflexivity;
  assert (Hprom : negative_promoted P ch = false)
    by (unfold negative_promoted; rewrite Hval, Hds;
        first
          [ reflexivity
          | change (u64 (Z.shiftl 1 (u8 (fb * 8 - 1))))
              with (2 ^ (8 * fb - 1));
            rewrite land_pow2_testbit by lia; rewrite negb_involutive;
            rewrite Z.mul_pow2_bits_low by lia; reflexivity ]);
  destruct (cbor_decode_ctx_negative P b (negative_header fb :: payload)
              (negative_header fb))
    as (ctx' & Hrun & Hcur & Hlb & Hout);
    [exact Hlvl|reflexivity|reflexivity|vm_compute; reflexivity
    |reflexivity
    |change (Z.max 1 fb <= Z.of_nat (length b)); lia
    |exact Hbig|];
  change (set_header 1 _ _ _) with ch in Hcur, Hout;
  rewrite Hprom, Hds in Hcur;
  exists ctx'; split; [|split];
  [ rewrite Hrun, Hcur;
    destruct (Z.ltb_spec fb (Z.of_nat (length b)));
      destruct (Z.eqb_spec (Z.of_nat (length b)) fb);
      try lia; reflexivity
  | exact Hcur
  | let k := eval vm_compute in (Z.to_nat fb) in
    change (Z.to_nat fb) with k;
    cbn [be_read]; rewrite !Hout;
    repeat rewrite (negative_output_value_be P ch)
      by (rewrite ?Hds; change (bufidx ch) with 0; first [reflexivity|lia]);
    rewrite ?Hval, ?Z_to_byte_to_Z;
    change (bufidx ch) with 0;
    value_arith ].

(** X19: the build for big-endian hosts never promotes.  A negative
    integer -(n+1) whose n comes in 1, 2, 4 or 8 following bytes is decoded,
    given a buffer that holds the encoding's width, with the write cursor
    advanced by exactly that width, and the bytes up to the cursor hold
    -(n+1) modulo 2^(8*width), most significant byte first: also when the
    top bit of n is set, where the little-endian build doubles the width. *)
Theorem cbor_decode_negative_big_endian (lvl fb : Z) (payload b : list byte) :
  1 <= lvl < 256 -> In fb [1; 2; 4; 8] ->
  Z.of_nat (length payload) = fb ->
  fb <= Z.of_nat (length b) ->
  Z.of_nat (length b) + 8 < 2 ^ 64 ->
  exists ctx,
    cbor_decode_ctx (big_endian_build lvl) b (negative_header fb :: payload)
    = Ok (if Z.of_nat (length b) =? fb
          then CBOR_SUCCESS else CBOR_UNDERRUN, ctx)
    /\ bufidx ctx = fb
    /\ be_read (buf ctx) 0 (Z.to_nat fb) 0
       = twos_complement fb (- (be_value payload + 1)).
Proof.
  intros Hlvl Hfb Hlen Hcap Hbig.
  set (P := big_endian_build lvl).
  destruct Hfb as [<-|[<-|[<-|[<-|[]]]]].
  - destruct payload as [|p0 [|? ?]]; try (cbn [length] in Hlen; lia).
    set (ch := set_header 1 24 1
                 (set_recursion_depth 1
                    (initial_context b [negative_header 1; p0]))).
    assert (Hvm : negative_val_mem P ch
                  = [p0; x00; x00; x00; x00; x00; x00; x00]) by reflexivity.
    negative_case_be lvl 1 [p0] b Hlvl Hcap Hbig P ch Hvm.
  - destruct payload as [|p0 [|p1 [|? ?]]]; try (cbn [length] in Hlen; lia).
    set (ch := set_header 1 25 2
                 (set_recursion_depth 1
                    (initial_context b [negative_header 2; p0; p1]))).
    assert (Hvm : negative_val_mem P ch
                  = [p0; p1; x00; x00; x00; x00; x00; x00]) by reflexivity.
    negative_case_be lvl 2 [p0; p1] b Hlvl Hcap Hbig P ch Hvm.
  - destruct payload as [|p0 [|p1 [|p2 [|p3 [|? ?]]]]];
      try (cbn [length] in Hlen; lia).
    set (ch := set_header 1 26 4
                 (set_recursion_depth 1
                    (initial_context b [negative_header 4; p0; p1; p2; p3]))).
    assert (Hvm : negative_val_mem P ch
                  = [p0; p1; p2; p3; x00; x00; x00; x00]) by reflexivity.
    negative_case_be lvl 4 [p0; p1; p2; p3] b Hlvl Hcap Hbig P ch Hvm.
  - destruct payload as [|p0 [|p1 [|p2 [|p3 [|p4 [|p5 [|p6 [|p7 [|? ?]]]]]]]]];
      try (cbn [length] in Hlen; lia).
    set (ch := set_header 1 27 8
                 (set_recursion_depth 1
                    (initial_context b
                       [negative_header 8; p0; p1; p2; p3; p4; p5; p6; p7]))).
    assert (Hvm : negative_val_mem P ch
                  = [p0; p1; p2; p3; p4; p5; p6; p7]) by reflexivity.
    negative_case_be lvl 8 [p0; p1; p2; p3; p4; p5; p6; p7] b Hlvl Hcap Hbig
      P ch Hvm.
Qed.

Lemma cbor_decode_negative_big_endian_witness :
  exists ctx,
    cbor_decode_ctx (big_endian_build 8) [x00] [x38; xc7]
    = Ok (CBOR_SUCCESS, ctx)
    /\ bufidx ctx = 1 /\ be_read (buf ctx) 0 1 0 = 2 ^ 8 - 200.
Proof.
  apply (cbor_decode_negative_big_endian 8 1 [xc7] [x00]); by_computation.
Defined.

(** ** Empty strings, arrays and maps *)




(** ** A buffer that is too small *)



(** ** A short array, whatever its item *)


